(** * Portfolio aggregation core: a shallow embedding and its verification

    The development follows the TypeScript sources of the aggregation core:
    the value objects and entities of the domain layer ([Money],
    [AssetEntity]), the reconciliation service, the [PortfolioAggregate],
    the protection patterns ([CircuitBreaker], the two rate limiters) and the
    [PortfolioAggregationService] pipeline.

    Conventions of the embedding.
    - A JavaScript [number] that holds a quantity (balance, price, money) is
      a rational [Q], the value of the double; one that holds a count or a
      millisecond instant is an integer [Z].  The sum that a merge stores
      and prints is rounded as the language rounds it ([Js.add]); the sums
      and products of [Money] and of the valuations are written with the
      exact operation.  [NaN] and the infinities are not numbers of the
      model.
    - A JavaScript string is a [string]; [toUpperCase]/[toLowerCase] act on
      the ASCII letters.
    - [undefined] is [None]; a thrown [Error] is [Throw msg].
    - A [Map] is an association list in insertion order ([JsMap]), a [Set]
      a duplicate-free list in insertion order ([JsSet]).
    - [Date.now()] and [new Date()] are explicit arguments. *)

From Stdlib Require Import ZArith QArith List String Ascii Bool Lia Lqa.
From Stdlib Require Import DecimalString Sorted Permutation.
Import ListNotations.

Local Open Scope string_scope.
Local Open Scope list_scope.
Local Open Scope Z_scope.

Set Implicit Arguments.

(* ===================================================================== *)
(** * Part I.  The embedding                                              *)
(* ===================================================================== *)

(** ** Exceptions *)

Inductive result (A : Type) : Type :=
| Ok (a : A)
| Throw (msg : string).

Arguments Ok {A} a.
Arguments Throw {A} msg.

Definition rbind {A B : Type} (r : result A) (k : A -> result B) : result B :=
  match r with
  | Ok a => k a
  | Throw m => Throw m
  end.

Definition rmap {A B : Type} (f : A -> B) (r : result A) : result B :=
  rbind r (fun a => Ok (f a)).

Notation "'let*' x ':=' r 'in' k" := (rbind r (fun x => k))
  (at level 10, x name, r at level 100, k at level 200).

(** ** JavaScript primitives used by the sources *)

Module Js.

(** Truthiness of an optional string: [undefined] and [""] are falsy. *)
Definition truthy (s : option string) : bool :=
  match s with
  | Some (String _ _) => true
  | _ => false
  end.

(** [a || b] on optional strings. *)
Definition or_else (a b : option string) : option string :=
  if truthy a then a else b.

(** [a || 'literal'] on an optional string. *)
Definition or_lit (a : option string) (d : string) : string :=
  match a with
  | Some (String c s) => String c s
  | _ => d
  end.

(** The string held by an optional string known to be present. *)
Definition str (a : option string) : string :=
  match a with
  | Some s => s
  | None => EmptyString
  end.

(** [a === b] on optional strings. *)
Definition strict_eq (a b : option string) : bool :=
  match a, b with
  | Some x, Some y => String.eqb x y
  | None, None => true
  | _, _ => false
  end.

Definition upper_ascii (c : ascii) : ascii :=
  let n := nat_of_ascii c in
  if (Nat.leb 97 n && Nat.leb n 122)%bool then ascii_of_nat (n - 32) else c.

Definition lower_ascii (c : ascii) : ascii :=
  let n := nat_of_ascii c in
  if (Nat.leb 65 n && Nat.leb n 90)%bool then ascii_of_nat (n + 32) else c.

Fixpoint map_string (f : ascii -> ascii) (s : string) : string :=
  match s with
  | EmptyString => EmptyString
  | String c r => String (f c) (map_string f r)
  end.

Definition toUpperCase : string -> string := map_string upper_ascii.
Definition toLowerCase : string -> string := map_string lower_ascii.

(** A millisecond instant obtained from [new Date(v).getTime()]: a number,
    or [NaN] for an unparsable value. *)
Inductive time : Type :=
| Ms (t : Z)
| NaN.

(** [t1 >= t2] on numbers: every comparison with [NaN] is false. *)
Definition time_geb (t1 t2 : time) : bool :=
  match t1, t2 with
  | Ms a, Ms b => b <=? a
  | _, _ => false
  end.

(** The integer nearest to [n / d], the even one of two that are equally
    near; [0 <= n] and [0 < d]. *)
Definition nearestEven (n d : Z) : Z :=
  let q := n / d in
  match 2 * (n mod d) ?= d with
  | Lt => q
  | Gt => q + 1
  | Eq => if Z.even q then q else q + 1
  end.

(** [2 ^ k <= n / d], for [0 < n] and [0 < d]. *)
Definition reaches (n d k : Z) : bool :=
  if 0 <=? k then d * 2 ^ k <=? n else d <=? n * 2 ^ (- k).

(** The exponent [e] of the last place of the double nearest to [n / d]:
    the one with [2^52 <= n / d / 2^e < 2^53], and [-1074] throughout the
    subnormal range; [0 < n] and [0 < d]. *)
Definition lastPlace (n d : Z) : Z :=
  let k := Z.log2 n - Z.log2 d in
  Z.max (if reaches n d k then k - 52 else k - 53) (-1074).

(** The double nearest to a rational, ties to the even significand: what a
    decimal literal denotes, and what an arithmetic operation returns for
    its exact result.  (The overflow to [Infinity] from [2^1024] on is not
    rendered.) *)
Definition num (x : Q) : Q :=
  let n := Z.abs (Qnum x) in
  let d := Z.pos (Qden x) in
  if n =? 0 then 0%Q
  else
    let e := lastPlace n d in
    let v :=
      if 0 <=? e then inject_Z (nearestEven n (d * 2 ^ e) * 2 ^ e)
      else Qred (Qmake (nearestEven (n * 2 ^ (- e)) d) (Z.to_pos (2 ^ (- e))))
    in
    if Qnum x <? 0 then Qopp v else v.

(** [x + y] on numbers: the exact sum of the two doubles, rounded.  A
    rational that is not a double stands for the double nearest to it. *)
Definition add (x y : Q) : Q := num (num x + num y).

Arguments num : simpl never.
Arguments add : simpl never.

Fixpoint zeros (n : nat) : string :=
  match n with
  | O => EmptyString
  | S k => String "0" (zeros k)
  end.

(** The decimal digits of a non-negative integer. *)
Definition digits (n : Z) : string := NilZero.string_of_uint (N.to_uint (Z.to_N n)).

(** Template-literal rendering of an integer. *)
Definition show (n : Z) : string :=
  if n <? 0 then ("-" ++ digits (- n))%string else digits n.

(** [Number.prototype.toFixed]: the closest multiple of [10^-f], ties away
    from zero, printed with exactly [f] fraction digits; a [RangeError]
    outside [0..100].  (The switch to exponent notation from [1e21] on is
    not rendered.) *)
Definition toFixed (x : Q) (f : Z) : result string :=
  if (f <? 0) || (100 <? f) then
    Throw "RangeError: toFixed() digits argument must be between 0 and 100"
  else
    let fd := Z.to_nat f in
    let num := Z.abs (Qnum x) in
    let den := Z.pos (Qden x) in
    let n := (2 * num * 10 ^ f + den) / (2 * den) in
    let s := digits n in
    let padded := (zeros (S fd - String.length s) ++ s)%string in
    let k := (String.length padded - fd)%nat in
    let body :=
      match fd with
      | O => padded
      | _ => (substring 0 k padded ++ "." ++ substring k fd padded)%string
      end in
    Ok (if Qnum x <? 0 then ("-" ++ body)%string else body).

End Js.

(** ** [Map] and [Set] with insertion order *)

Module JsMap.

Definition t (V : Type) : Type := list (string * V).

Definition empty {V : Type} : t V := [].

Fixpoint get {V : Type} (k : string) (m : t V) : option V :=
  match m with
  | [] => None
  | (k', v) :: r => if String.eqb k k' then Some v else get k r
  end.

(** [set] keeps the position of a key already present, else appends. *)
Fixpoint set {V : Type} (k : string) (v : V) (m : t V) : t V :=
  match m with
  | [] => [(k, v)]
  | (k', v') :: r =>
      if String.eqb k k' then (k', v) :: r else (k', v') :: set k v r
  end.

Fixpoint delete {V : Type} (k : string) (m : t V) : t V :=
  match m with
  | [] => []
  | (k', v') :: r => if String.eqb k k' then r else (k', v') :: delete k r
  end.

Definition has {V : Type} (k : string) (m : t V) : bool :=
  match get k m with Some _ => true | None => false end.

Definition keys {V : Type} (m : t V) : list string := map fst m.
Definition values {V : Type} (m : t V) : list V := map snd m.

End JsMap.

(** ** Shared types ([shared/types]) *)

Inductive IntegrationSource : Type :=
| EVM
| SOLANA
| ROBINHOOD.

Definition IntegrationSource_eqb (a b : IntegrationSource) : bool :=
  match a, b with
  | EVM, EVM | SOLANA, SOLANA | ROBINHOOD, ROBINHOOD => true
  | _, _ => false
  end.

Definition source_name (s : IntegrationSource) : string :=
  match s with
  | EVM => "evm"
  | SOLANA => "solana"
  | ROBINHOOD => "robinhood"
  end.

Record Price : Type := mkPrice {
  value : Q;
  currency : string;
  timestamp : Z;
  price_source : option string
}.

Record Balance : Type := mkBalance {
  amount : Q;
  decimals : Z;
  formatted : string
}.


(** The keys of the free-form [metadata] record that the domain code reads:
    [sourceType] (precedence), [fetchedAt] (already through
    [new Date(..).getTime()]), [source] and [mergedFrom] (provenance). *)
Record Metadata : Type := mkMetadata {
  sourceType : option string;
  fetchedAt : option Js.time;
  source : option string;
  mergedFrom : option (list string)
}.

Definition no_metadata : Metadata := mkMetadata None None None None.

(** The plain [Asset] record that a provider returns. *)
Record Asset : Type := mkAsset {
  asset_id : string;
  asset_symbol : string;
  asset_name : option string;
  asset_type : string;
  asset_chain : option string;
  asset_balance : Balance;
  asset_price : option Price;
  asset_contractAddress : option string;
  asset_imageUrl : option string;
  asset_metadata : option Metadata
}.

(** ** [Money] value object *)

Module Money.

Record t : Type := mk {
  _amount : Q;
  _currency : string
}.

(** [constructor(amount, currency)]. *)
Definition new (amount : Q) (currency : string) : result t :=
  if negb (Qle_bool 0 amount) then
    Throw "Money amount cannot be negative"
  else if negb (Nat.eqb (String.length currency) 3) then
    Throw "Currency must be a 3-letter code"
  else
    Ok (mk amount (Js.toUpperCase currency)).

Definition add (this other : t) : result t :=
  if negb (String.eqb (_currency this) (_currency other)) then
    Throw "Cannot add money with different currencies"
  else
    new (_amount this + _amount other)%Q (_currency this).

(** [equals(other)]: [===] on the amounts (numeric) and on the currencies. *)
Definition equals (this other : t) : bool :=
  Qeq_bool (_amount this) (_amount other)
  && String.eqb (_currency this) (_currency other).

End Money.

(** ** [Address] value object *)

Module Address.

Record t : Type := mk {
  _value : string;
  _chain : string
}.

Definition between (lo hi : nat) (c : ascii) : bool :=
  (Nat.leb lo (nat_of_ascii c) && Nat.leb (nat_of_ascii c) hi)%bool.

Fixpoint every (p : ascii -> bool) (s : string) : bool :=
  match s with
  | EmptyString => true
  | String c r => p c && every p r
  end.

(** The class [[a-fA-F0-9]]. *)
Definition isHexDigit (c : ascii) : bool :=
  between 97 102 c || between 65 70 c || between 48 57 c.

(** The class [[1-9A-HJ-NP-Za-km-z]]. *)
Definition isBase58 (c : ascii) : bool :=
  between 49 57 c || between 65 72 c || between 74 78 c || between 80 90 c
  || between 97 107 c || between 109 122 c.

(** [/^0x[a-fA-F0-9]{40}$/.test(address)]. *)
Definition isValidEVMAddress (address : string) : bool :=
  match address with
  | String "0"%char (String "x"%char rest) =>
      Nat.eqb (String.length rest) 40 && every isHexDigit rest
  | _ => false
  end.

(** [/^[1-9A-HJ-NP-Za-km-z]{32,44}$/.test(address)]. *)
Definition isValidSolanaAddress (address : string) : bool :=
  Nat.leb 32 (String.length address) && Nat.leb (String.length address) 44
  && every isBase58 address.

(** The chains of the first [case] group of both [switch] statements. *)
Definition isEvmChain (chain : string) : bool :=
  String.eqb chain "ethereum" || String.eqb chain "polygon"
  || String.eqb chain "arbitrum" || String.eqb chain "optimism"
  || String.eqb chain "binance".

Definition isValidAddress (address chain : string) : bool :=
  if String.eqb address EmptyString then false
  else if isEvmChain chain then isValidEVMAddress address
  else if String.eqb chain "solana" then isValidSolanaAddress address
  else false.

Definition normalize (address chain : string) : string :=
  if isEvmChain chain then Js.toLowerCase address else address.

Definition new (value chain : string) : result t :=
  if negb (isValidAddress value chain) then
    Throw ("Invalid address for chain " ++ chain ++ ": " ++ value)%string
  else
    Ok (mk (normalize value chain) chain).

Definition equals (this other : t) : bool :=
  String.eqb (_value this) (_value other)
  && String.eqb (_chain this) (_chain other).

Definition toString (this : t) : string := _value this.

End Address.

(** ** [AssetEntity] *)

Module AssetEntity.

Record t : Type := mk {
  _id : string;
  _symbol : string;
  _name : option string;
  _type : string;
  _chain : option string;
  _balance : Balance;
  _price : option Price;
  _contractAddress : option string;
  _imageUrl : option string;
  _metadata : Metadata
}.

(** [constructor(params)]: the symbol is stored upper-cased. *)
Definition new (id symbol : string) (name : option string) (type : string)
    (chain : option string) (balance : Balance) (price : option Price)
    (contractAddress imageUrl : option string) (metadata : Metadata) : t :=
  mk id (Js.toUpperCase symbol) name type chain balance price
     contractAddress imageUrl metadata.


Definition updatePrice (this : t) (p : Price) : t :=
  mk (_id this) (_symbol this) (_name this) (_type this) (_chain this)
     (_balance this) (Some p) (_contractAddress this) (_imageUrl this)
     (_metadata this).

Definition isSameAsset (this other : t) : bool :=
  if Js.truthy (_contractAddress this) && Js.truthy (_contractAddress other)
  then
    Js.strict_eq (_contractAddress this) (_contractAddress other)
    && Js.strict_eq (_chain this) (_chain other)
  else
    String.eqb (_symbol this) (_symbol other)
    && String.eqb (_type this) (_type other)
    && Js.strict_eq (_chain this) (_chain other).

(** [{ ...other.metadata, ...this._metadata }]: a key of [this] wins. *)
Definition spread {A : Type} (under over : option A) : option A :=
  match over with
  | Some x => Some x
  | None => under
  end.

Definition mergeMetadata (this other : Metadata) : Metadata :=
  mkMetadata (spread (sourceType other) (sourceType this))
             (spread (fetchedAt other) (fetchedAt this))
             (spread (source other) (source this))
             (spread (mergedFrom other) (mergedFrom this)).

Definition latestPrice (this other : t) : option Price :=
  match _price this, _price other with
  | Some p, Some q => if timestamp q <? timestamp p then Some p else Some q
  | Some p, None => Some p
  | None, q => q
  end.

Definition merge (this other : t) : result t :=
  if negb (isSameAsset this other) then
    Throw "Cannot merge different assets"
  else
    let total := Js.add (amount (_balance this)) (amount (_balance other)) in
    let* text := Js.toFixed total (decimals (_balance this)) in
    let mergedBalance := mkBalance total (decimals (_balance this)) text in
    Ok (new (_id this) (_symbol this)
            (Js.or_else (_name this) (_name other))
            (_type this) (_chain this) mergedBalance
            (latestPrice this other)
            (Js.or_else (_contractAddress this) (_contractAddress other))
            (Js.or_else (_imageUrl this) (_imageUrl other))
            (mergeMetadata (_metadata this) (_metadata other))).

End AssetEntity.

(** ** [AssetReconciliationService] *)

Module AssetReconciliationService.

Definition isSameAsset (asset1 asset2 : AssetEntity.t) : bool :=
  let c1 := AssetEntity._contractAddress asset1 in
  let c2 := AssetEntity._contractAddress asset2 in
  if String.eqb (AssetEntity._symbol asset1) (AssetEntity._symbol asset2)
     && Js.strict_eq (AssetEntity._chain asset1) (AssetEntity._chain asset2)
  then
    if Js.truthy c1 && Js.truthy c2 then
      String.eqb (Js.toLowerCase (Js.str c1)) (Js.toLowerCase (Js.str c2))
    else if negb (Js.truthy c1) && negb (Js.truthy c2) then true
    else false
  else false.

(** What a property of the [sourcePriority] object literal evaluates to. *)
Inductive looked : Type :=
| Rank (n : Z)            (* one of the five keys of the literal *)
| Inherited (text : string)
                          (* a member of [Object.prototype], which the
                             literal inherits: a function or an object, here
                             with the string it converts to *)
| Missing.                (* [undefined] *)

(** The string a built-in function converts to. *)
Definition nativeCode (name : string) : string :=
  ("function " ++ name ++ "() { [native code] }")%string.

(** The methods every object inherits, other than [constructor]. *)
Definition objectMethods : list string :=
  ["toString"; "toLocaleString"; "valueOf"; "hasOwnProperty";
   "isPrototypeOf"; "propertyIsEnumerable"; "__defineGetter__";
   "__defineSetter__"; "__lookupGetter__"; "__lookupSetter__"].

(** [sourcePriority[k]]. *)
Definition sourcePriority (k : string) : looked :=
  if String.eqb k "on-chain" then Rank 1
  else if String.eqb k "blockchain" then Rank 1
  else if String.eqb k "dex" then Rank 2
  else if String.eqb k "cex" then Rank 3
  else if String.eqb k "manual" then Rank 4
  else if String.eqb k "constructor" then Inherited (nativeCode "Object")
  else if String.eqb k "__proto__" then Inherited "[object Object]"
  else if existsb (String.eqb k) objectMethods then Inherited (nativeCode k)
  else Missing.

(** [sourcePriority[asset.metadata?.sourceType || 'manual'] || 999]: every
    rank and every inherited member is truthy. *)
Definition priorityOf (asset : AssetEntity.t) : looked :=
  match sourcePriority
          (Js.or_lit (sourceType (AssetEntity._metadata asset)) "manual") with
  | Missing => Rank 999
  | found => found
  end.

(** [priority1 <= priority2]: two numbers compare as numbers and two
    inherited members as the strings they convert to; an inherited member
    against a number converts to [NaN], and the comparison is false. *)
Definition looked_leb (p1 p2 : looked) : bool :=
  match p1, p2 with
  | Rank a, Rank b => a <=? b
  | Inherited s, Inherited t => String.leb s t
  | _, _ => false
  end.

(** [priority1 <= priority2]: the first argument is the preferred one. *)
Definition prefersFirst (asset1 asset2 : AssetEntity.t) : bool :=
  looked_leb (priorityOf asset1) (priorityOf asset2).

Definition selectPreferredSource (asset1 asset2 : AssetEntity.t)
  : AssetEntity.t :=
  if prefersFirst asset1 asset2 then asset1 else asset2.

(** [preferredAsset === asset1 ? asset2 : asset1]. *)
Definition otherAsset (asset1 asset2 : AssetEntity.t) : AssetEntity.t :=
  if prefersFirst asset1 asset2 then asset2 else asset1.

(** [asset.metadata?.fetchedAt ? new Date(..).getTime() : 0]. *)
Definition fetchTime (asset : AssetEntity.t) : Js.time :=
  match fetchedAt (AssetEntity._metadata asset) with
  | Some t => t
  | None => Js.Ms 0
  end.

Definition selectMostRecentPrice (asset1 asset2 : AssetEntity.t)
  : option Price :=
  match AssetEntity._price asset1, AssetEntity._price asset2 with
  | None, None => None
  | None, Some q => Some q
  | Some p, None => Some p
  | Some p, Some q =>
      if Js.time_geb (fetchTime asset1) (fetchTime asset2)
      then Some p else Some q
  end.

Definition generateAssetKey (asset : AssetEntity.t) : string :=
  let chain := Js.or_lit (AssetEntity._chain asset) "unknown" in
  let symbol := Js.toUpperCase (AssetEntity._symbol asset) in
  let contract :=
    Js.or_lit (option_map Js.toLowerCase (AssetEntity._contractAddress asset))
              "native" in
  (chain ++ ":" ++ symbol ++ ":" ++ contract)%string.

Definition formatBalance (amount : Q) (decimals : Z) : result string :=
  Js.toFixed amount decimals.

(** [[...(a || []), ...(b || []), src].filter(Boolean)]. *)
Definition mergedFromOf (preferred other : Metadata) : list string :=
  let orEmpty (l : option (list string)) :=
    match l with Some x => x | None => [] end in
  filter (fun s => negb (String.eqb s EmptyString))
         (orEmpty (mergedFrom preferred) ++ orEmpty (mergedFrom other)
          ++ match source other with Some s => [s] | None => [] end).

Definition mergeAssets (asset1 asset2 : AssetEntity.t) : result AssetEntity.t :=
  if negb (isSameAsset asset1 asset2) then
    Throw "Cannot merge different assets"
  else
    let preferredAsset := selectPreferredSource asset1 asset2 in
    let other := otherAsset asset1 asset2 in
    let total :=
      Js.add (amount (AssetEntity._balance asset1))
             (amount (AssetEntity._balance asset2)) in
    let dec := decimals (AssetEntity._balance preferredAsset) in
    let* text := formatBalance total dec in
    let totalBalance := mkBalance total dec text in
    let price := selectMostRecentPrice asset1 asset2 in
    let pm := AssetEntity._metadata preferredAsset in
    Ok (AssetEntity.new
          (AssetEntity._id preferredAsset)
          (AssetEntity._symbol preferredAsset)
          (AssetEntity._name preferredAsset)
          (AssetEntity._type preferredAsset)
          (AssetEntity._chain preferredAsset)
          totalBalance price
          (AssetEntity._contractAddress preferredAsset)
          (AssetEntity._imageUrl preferredAsset)
          (mkMetadata (sourceType pm) (fetchedAt pm) (source pm)
             (Some (mergedFromOf pm (AssetEntity._metadata other))))).

Fixpoint reconcileLoop (assets : list AssetEntity.t)
    (reconciled : JsMap.t AssetEntity.t) : result (JsMap.t AssetEntity.t) :=
  match assets with
  | [] => Ok reconciled
  | asset :: rest =>
      let key := generateAssetKey asset in
      match JsMap.get key reconciled with
      | Some existing =>
          let* merged := mergeAssets existing asset in
          reconcileLoop rest (JsMap.set key merged reconciled)
      | None => reconcileLoop rest (JsMap.set key asset reconciled)
      end
  end.

Definition reconcile (assets : list AssetEntity.t)
  : result (list AssetEntity.t) :=
  rmap (@JsMap.values _) (reconcileLoop assets JsMap.empty).

End AssetReconciliationService.

Module JsSet.

Definition add (s : IntegrationSource) (l : list IntegrationSource)
  : list IntegrationSource :=
  if existsb (IntegrationSource_eqb s) l then l else l ++ [s].

Definition of_list (l : list IntegrationSource) : list IntegrationSource :=
  fold_left (fun acc s => add s acc) l [].

End JsSet.

(** ** [PortfolioAggregate] *)

Module PortfolioAggregate.

Record t : Type := mk {
  _id : string;
  _userId : option string;
  _assets : JsMap.t AssetEntity.t;
  _sources : list IntegrationSource;
  _lastUpdated : Z
}.

Definition assets (this : t) : list AssetEntity.t := JsMap.values (_assets this).
Definition sources (this : t) : list IntegrationSource := _sources this.

Fixpoint findSimilar (existing : list AssetEntity.t) (asset : AssetEntity.t)
  : option AssetEntity.t :=
  match existing with
  | [] => None
  | e :: rest =>
      if AssetEntity.isSameAsset e asset then Some e
      else findSimilar rest asset
  end.

Definition findSimilarAsset (this : t) (asset : AssetEntity.t)
  : option AssetEntity.t :=
  findSimilar (assets this) asset.

(** [addAsset(asset)] at instant [now]. *)
Definition addAsset (now : Z) (this : t) (asset : AssetEntity.t) : result t :=
  let* assets' :=
    match findSimilarAsset this asset with
    | Some existingAsset =>
        let* merged := AssetEntity.merge existingAsset asset in
        Ok (JsMap.set (AssetEntity._id merged) merged (_assets this))
    | None => Ok (JsMap.set (AssetEntity._id asset) asset (_assets this))
    end in
  Ok (mk (_id this) (_userId this) assets' (_sources this) now).

Fixpoint addAssets (now : Z) (this : t) (l : list AssetEntity.t) : result t :=
  match l with
  | [] => Ok this
  | a :: rest => let* this' := addAsset now this a in addAssets now this' rest
  end.

(** [constructor(params)] at instant [now]. *)
Definition new (now : Z) (id : string) (userId : option string)
    (assets : list AssetEntity.t) (sources : list IntegrationSource)
    (lastUpdated : option Z) : result t :=
  addAssets now
    (mk id userId JsMap.empty (JsSet.of_list sources)
        (match lastUpdated with Some d => d | None => now end))
    assets.

Definition removeAsset (now : Z) (this : t) (assetId : string) : t :=
  if JsMap.has assetId (_assets this) then
    mk (_id this) (_userId this) (JsMap.delete assetId (_assets this))
       (_sources this) now
  else this.

Definition addSource (now : Z) (this : t) (s : IntegrationSource) : t :=
  mk (_id this) (_userId this) (_assets this) (JsSet.add s (_sources this)) now.



Definition getAssetKey (asset : AssetEntity.t) : string :=
  if Js.truthy (AssetEntity._contractAddress asset)
     && Js.truthy (AssetEntity._chain asset)
  then
    (Js.str (AssetEntity._chain asset) ++ ":"
     ++ Js.str (AssetEntity._contractAddress asset))%string
  else
    (Js.or_lit (AssetEntity._chain asset) "global" ++ ":"
     ++ AssetEntity._symbol asset ++ ":" ++ AssetEntity._type asset)%string.

Fixpoint reconcileLoop (l : list AssetEntity.t)
    (reconciledAssets : JsMap.t AssetEntity.t)
  : result (JsMap.t AssetEntity.t) :=
  match l with
  | [] => Ok reconciledAssets
  | asset :: rest =>
      let key := getAssetKey asset in
      match JsMap.get key reconciledAssets with
      | Some existing =>
          let* merged := AssetEntity.merge existing asset in
          reconcileLoop rest (JsMap.set key merged reconciledAssets)
      | None => reconcileLoop rest (JsMap.set key asset reconciledAssets)
      end
  end.

(** [reconcile()] at instant [now]. *)
Definition reconcile (now : Z) (this : t) : result t :=
  let* reconciledAssets := reconcileLoop (assets this) JsMap.empty in
  Ok (mk (_id this) (_userId this) reconciledAssets (_sources this) now).

Definition getAssetsByChain (this : t) (chain : string) : list AssetEntity.t :=
  filter (fun asset => Js.strict_eq (AssetEntity._chain asset) (Some chain))
         (assets this).

Definition getAssetsByType (this : t) (type : string) : list AssetEntity.t :=
  filter (fun asset => String.eqb (AssetEntity._type asset) type)
         (assets this).

(** [mergePortfolio(other)] at instant [now]: the assets of [other], then
    its sources. *)
Definition mergePortfolio (now : Z) (this other : t) : result t :=
  let* this1 := addAssets now this (assets other) in
  let this2 := fold_left (addSource now) (sources other) this1 in
  Ok (mk (_id this2) (_userId this2) (_assets this2) (_sources this2) now).

Definition isEmpty (this : t) : bool :=
  Nat.eqb (List.length (_assets this)) 0.

Definition clear (now : Z) (this : t) : t :=
  mk (_id this) (_userId this) JsMap.empty [] now.

End PortfolioAggregate.

(** ** [CircuitBreaker] *)

Module CircuitBreaker.

Inductive CircuitState : Type :=
| CLOSED
| OPEN
| HALF_OPEN.

Record CircuitBreakerConfig : Type := mkConfig {
  failureThreshold : Z;
  recoveryTimeout : Z;
  halfOpenRetries : Z
}.

Record t : Type := mk {
  config : CircuitBreakerConfig;
  state : CircuitState;
  failures : Z;
  successes : Z;
  lastFailureTime : option Z;
  lastSuccessTime : option Z;
  nextRetryTime : option Z;
  halfOpenAttempts : Z
}.

Definition new (cfg : CircuitBreakerConfig) : t :=
  mk cfg CLOSED 0 0 None None None 0.

(** [getState()] at instant [now]: the breaker after the inspection. *)
Definition inspect (now : Z) (this : t) : t :=
  match state this, nextRetryTime this with
  | OPEN, Some retryAt =>
      if retryAt <=? now then
        mk (config this) HALF_OPEN (failures this) (successes this)
           (lastFailureTime this) (lastSuccessTime this)
           (nextRetryTime this) 0
      else this
  | _, _ => this
  end.

Definition getState (now : Z) (this : t) : t * CircuitState :=
  (inspect now this, state (inspect now this)).

Definition recordSuccess (now : Z) (this : t) : t :=
  let successes' := successes this + 1 in
  match state this with
  | HALF_OPEN =>
      let attempts := halfOpenAttempts this + 1 in
      if halfOpenRetries (config this) <=? attempts then
        mk (config this) CLOSED 0 successes' (lastFailureTime this)
           (Some now) (nextRetryTime this) 0
      else
        mk (config this) HALF_OPEN (failures this) successes'
           (lastFailureTime this) (Some now) (nextRetryTime this) attempts
  | CLOSED =>
      mk (config this) CLOSED 0 successes' (lastFailureTime this)
         (Some now) (nextRetryTime this) (halfOpenAttempts this)
  | OPEN =>
      mk (config this) OPEN (failures this) successes'
         (lastFailureTime this) (Some now) (nextRetryTime this)
         (halfOpenAttempts this)
  end.

Definition recordFailure (now : Z) (this : t) : t :=
  let failures' := failures this + 1 in
  match state this with
  | CLOSED =>
      if failureThreshold (config this) <=? failures' then
        mk (config this) OPEN failures' (successes this) (Some now)
           (lastSuccessTime this)
           (Some (now + recoveryTimeout (config this)))
           (halfOpenAttempts this)
      else
        mk (config this) CLOSED failures' (successes this) (Some now)
           (lastSuccessTime this) (nextRetryTime this)
           (halfOpenAttempts this)
  | HALF_OPEN =>
      mk (config this) OPEN failures' (successes this) (Some now)
         (lastSuccessTime this)
         (Some (now + recoveryTimeout (config this))) 0
  | OPEN =>
      mk (config this) OPEN failures' (successes this) (Some now)
         (lastSuccessTime this) (nextRetryTime this)
         (halfOpenAttempts this)
  end.

Definition reset (this : t) : t := new (config this).

Definition allowRequest (now : Z) (this : t) : t * bool :=
  let this' := inspect now this in
  (this',
   match state this' with
   | CLOSED => true
   | HALF_OPEN => halfOpenAttempts this' <? halfOpenRetries (config this')
   | OPEN => false
   end).

Definition state_name (s : CircuitState) : string :=
  match s with
  | CLOSED => "CLOSED"
  | OPEN => "OPEN"
  | HALF_OPEN => "HALF_OPEN"
  end.

(** [execute(fn)]: admission at [now]; [fn] settles with [outcome] at
    instant [done]. *)
Definition execute {A : Type} (now done : Z) (outcome : result A) (this : t)
  : t * result A :=
  let (this', allowed) := allowRequest now this in
  if negb allowed then
    (this', Throw ("Circuit breaker is " ++ state_name (state this'))%string)
  else
    match outcome with
    | Ok v => (recordSuccess done this', Ok v)
    | Throw e => (recordFailure done this', Throw e)
    end.

(** [n] consecutive calls of [recordFailure] / [recordSuccess], the [i]-th
    at instant [at i]. *)
Fixpoint recordFailures (at_ : nat -> Z) (n : nat) (this : t) : t :=
  match n with
  | O => this
  | S k => recordFailure (at_ k) (recordFailures at_ k this)
  end.

Fixpoint recordSuccesses (at_ : nat -> Z) (n : nat) (this : t) : t :=
  match n with
  | O => this
  | S k => recordSuccess (at_ k) (recordSuccesses at_ k this)
  end.

End CircuitBreaker.

(** ** Rate limiters *)

Record RateLimitConfig : Type := mkRateLimitConfig {
  requestsPerMinute : Z;
  burstLimit : option Z
}.

(** [config.burstLimit || config.requestsPerMinute]. *)
Definition burstOrRate (cfg : RateLimitConfig) : Z :=
  match burstLimit cfg with
  | Some b => if b =? 0 then requestsPerMinute cfg else b
  | None => requestsPerMinute cfg
  end.

(** [RateLimiterStats] ([contracts/patterns/IRateLimiter]). *)
Record RateLimiterStats : Type := mkStats {
  requestsInWindow : Z;
  remainingRequests : Z;
  resetTime : Z;
  isLimited : bool
}.

Module TokenBucketRateLimiter.

Record t : Type := mk {
  config : RateLimitConfig;
  tokens : Z;
  lastRefillTime : Z
}.

(** [constructor(config)] at instant [now]. *)
Definition new (now : Z) (cfg : RateLimitConfig) : t :=
  mk cfg (burstOrRate cfg) now.

(** [Math.floor(elapsedMinutes * requestsPerMinute)]. *)
Definition tokensToAdd (elapsedMs : Z) (cfg : RateLimitConfig) : Z :=
  (elapsedMs * requestsPerMinute cfg) / 60000.

Definition refillTokens (now : Z) (this : t) : t :=
  let elapsedMs := now - lastRefillTime this in
  if 0 <? elapsedMs then
    let add := tokensToAdd elapsedMs (config this) in
    if 0 <? add then
      let maxTokens := burstOrRate (config this) in
      mk (config this) (Z.min (tokens this + add) maxTokens) now
    else this
  else this.

Definition allowRequest (now : Z) (this : t) : t * bool :=
  let this' := refillTokens now this in
  if 0 <? tokens this' then
    (mk (config this') (tokens this' - 1) (lastRefillTime this'), true)
  else (this', false).

(** The instants, among [calls], at which [allowRequest] answered [true]. *)
Fixpoint admitted (calls : list Z) (this : t) : list Z :=
  match calls with
  | [] => []
  | now :: rest =>
      let (this', ok) := allowRequest now this in
      if ok then now :: admitted rest this' else admitted rest this'
  end.

(** [reset()] at instant [now]; the request queue, to which nothing is ever
    added, is empty. *)
Definition reset (now : Z) (this : t) : t :=
  mk (config this) (burstOrRate (config this)) now.

Definition updateConfig (now : Z) (cfg : RateLimitConfig) (this : t) : t :=
  reset now (mk cfg (tokens this) (lastRefillTime this)).

End TokenBucketRateLimiter.

Module SlidingWindowRateLimiter.

Record t : Type := mk {
  config : RateLimitConfig;
  requestTimestamps : list Z
}.

Definition new (cfg : RateLimitConfig) : t := mk cfg [].

Definition windowSize : Z := 60000.

Definition cleanOldRequests (now : Z) (this : t) : t :=
  let cutoff := now - windowSize in
  mk (config this) (filter (fun ts => cutoff <? ts) (requestTimestamps this)).

Definition allowRequest (now : Z) (this : t) : t * bool :=
  let this' := cleanOldRequests now this in
  let maxRequests := burstOrRate (config this') in
  if Z.of_nat (List.length (requestTimestamps this')) <? maxRequests then
    (mk (config this') (requestTimestamps this' ++ [now]), true)
  else (this', false).

Fixpoint admitted (calls : list Z) (this : t) : list Z :=
  match calls with
  | [] => []
  | now :: rest =>
      let (this', ok) := allowRequest now this in
      if ok then now :: admitted rest this' else admitted rest this'
  end.

Definition reset (this : t) : t := mk (config this) [].

(** [updateConfig(config)]: the timestamps are kept. *)
Definition updateConfig (cfg : RateLimitConfig) (this : t) : t :=
  mk cfg (requestTimestamps this).

(** [getNextResetTime()] at instant [now]: when the oldest request leaves
    the window, or [now] if there is none. *)
Definition getNextResetTime (now : Z) (this : t) : t * Z :=
  let this' := cleanOldRequests now this in
  match requestTimestamps this' with
  | [] => (this', now)
  | oldestRequest :: _ => (this', oldestRequest + windowSize)
  end.

Definition getStats (now : Z) (this : t) : t * RateLimiterStats :=
  let this1 := cleanOldRequests now this in
  let maxRequests := burstOrRate (config this1) in
  let inWindow := Z.of_nat (List.length (requestTimestamps this1)) in
  let (this2, reset) := getNextResetTime now this1 in
  (this2,
   mkStats inWindow (Z.max 0 (maxRequests - inWindow)) reset
           (maxRequests <=? inWindow)).

End SlidingWindowRateLimiter.

(** The number of instants of [l] inside the window [[from, from + 60000)]. *)
Definition inWindow (from : Z) (l : list Z) : Z :=
  Z.of_nat (List.length (filter (fun x => (from <=? x) && (x <? from + 60000)) l)).

(** ** Domain event types ([domain/events/DomainEvent]) *)

Inductive DomainEventType : Type :=
| PORTFOLIO_AGGREGATION_STARTED
| PORTFOLIO_AGGREGATION_COMPLETED
| PORTFOLIO_AGGREGATION_FAILED
| ASSET_ADDED_TO_PORTFOLIO
| ASSET_MERGED
| ASSET_PRICE_UPDATED
| INTEGRATION_SOURCE_CONNECTED
| INTEGRATION_SOURCE_FAILED
| INTEGRATION_SOURCE_DATA_FETCHED
| PORTFOLIO_RECONCILIATION_STARTED
| PORTFOLIO_RECONCILIATION_COMPLETED
| ADDRESS_ADDED
| ADDRESS_REMOVED
| ADDRESS_METADATA_UPDATED
| SYNC_CYCLE_STARTED
| SYNC_CYCLE_COMPLETED
| SYNC_SOURCE_FAILED
| CIRCUIT_BREAKER_OPENED
| CIRCUIT_BREAKER_CLOSED
| CIRCUIT_BREAKER_HALF_OPEN.

(** ** [PortfolioAggregationService] *)

Module PortfolioAggregationService.

(** What a call can do to the outside, in program order: the calls on the
    injected collaborators, the console lines, and the publication of a
    domain event.  The constructor of the service takes the integrations,
    the portfolio repository and the valuator, and no emitter: none of its
    methods below performs [Emit]. *)
Inductive effect : Type :=
| FindById (id : string)
| Save (portfolio : PortfolioAggregate.t)
| Connect (s : IntegrationSource)
| FetchAssets (s : IntegrationSource) (addresses : list string)
| GetBatchPrices (symbols : list string)
| ConsoleError (msg : string)
| Emit (eventType : DomainEventType).

(** An asynchronous step: its effects, then a value or a rejection. *)
Definition io (A : Type) : Type := (list effect * result A)%type.

Definition ret {A : Type} (a : A) : io A := ([], Ok a).
Definition reject {A : Type} (msg : string) : io A := ([], Throw msg).
Definition perform {A : Type} (e : effect) (r : result A) : io A := ([e], r).
Definition log (msg : string) : io unit := ([ConsoleError msg], Ok tt).

Definition bind {A B : Type} (m : io A) (k : A -> io B) : io B :=
  match m with
  | (tr, Ok a) => let (tr', r) := k a in (tr ++ tr', r)
  | (tr, Throw e) => (tr, Throw e)
  end.

Definition catch {A : Type} (m : io A) (handler : string -> io A) : io A :=
  match m with
  | (tr, Throw e) => let (tr', r) := handler e in (tr ++ tr', r)
  | (tr, Ok a) => (tr, Ok a)
  end.

Notation "'do' x '<-' m ';' k" := (bind m (fun x => k))
  (at level 10, x name, m at level 100, k at level 200).

(** An injected [IIntegrationRepository], by what its methods answer. *)
Record Integration : Type := mkIntegration {
  isConnected : bool;
  connect : result unit;
  fetchAssets : list string -> result (list Asset)
}.

(** The service with its collaborators and the clock of one call. *)
Record t : Type := mk {
  integrations : list (IntegrationSource * Integration);
  findById : string -> result (option PortfolioAggregate.t);
  save : PortfolioAggregate.t -> result unit;
  getBatchPrices : list string -> result (JsMap.t Price);
  nowAtStart : Z;
  nowAtCacheCheck : Z;
  nowAtBuild : Z
}.

Record AggregationOptions : Type := mkOptions {
  sources : option (list IntegrationSource);
  addresses : JsMap.t (list string);
  userId : option string;
  forceRefresh : bool
}.

Fixpoint integrationsGet (s : IntegrationSource)
    (m : list (IntegrationSource * Integration)) : option Integration :=
  match m with
  | [] => None
  | (s', i) :: r => if IntegrationSource_eqb s s' then Some i
                    else integrationsGet s r
  end.

Definition evmChains : list string :=
  ["ethereum"; "polygon"; "arbitrum"; "optimism"; "binance"].

Definition includes (l : list string) (x : string) : bool :=
  existsb (String.eqb x) l.

(** [[...new Set(result)]]: the first occurrence of each element. *)
Definition unique (l : list string) : list string :=
  fold_left (fun acc x => if includes acc x then acc else acc ++ [x]) l [].

Definition getRelevantAddresses (s : IntegrationSource)
    (addrs : JsMap.t (list string)) : list string :=
  unique
    match s with
    | EVM =>
        flat_map (fun entry : string * list string =>
                    if includes evmChains (fst entry) then snd entry else [])
                 addrs
    | SOLANA =>
        match JsMap.get "solana" addrs with
        | Some l => l
        | None => []
        end
    | ROBINHOOD => ["default"]
    end.

Definition toEntity (a : Asset) : AssetEntity.t :=
  AssetEntity.new (asset_id a) (asset_symbol a) (asset_name a) (asset_type a)
    (asset_chain a) (asset_balance a) (asset_price a)
    (asset_contractAddress a) (asset_imageUrl a)
    (match asset_metadata a with Some m => m | None => no_metadata end).

Definition fetchFromSource (this : t) (s : IntegrationSource)
    (addrs : JsMap.t (list string)) : io (list AssetEntity.t) :=
  match integrationsGet s (integrations this) with
  | None => reject ("Integration not found: " ++ source_name s)%string
  | Some integration =>
      do _ <- (if isConnected integration then ret tt
               else perform (Connect s) (connect integration));
      let relevantAddresses := getRelevantAddresses s addrs in
      if Nat.eqb (List.length relevantAddresses) 0 then ret []
      else
        do assets <- perform (FetchAssets s relevantAddresses)
                             (fetchAssets integration relevantAddresses);
        ret (map toEntity assets)
  end.

Definition cacheTimeout : Z := 5 * 60 * 1000.

Definition isCacheValid (now : Z) (portfolio : PortfolioAggregate.t) : bool :=
  let age := now - PortfolioAggregate._lastUpdated portfolio in
  age <? cacheTimeout.

Definition generatePortfolioId (now : Z) (userId : option string) : string :=
  if Js.truthy userId then ("portfolio_" ++ Js.str userId)%string
  else ("portfolio_" ++ Js.show now)%string.

(** [Promise.allSettled(fetchPromises)]: every fetch runs to its end; the
    effects are listed in the order of [sourcesToFetch]. *)
Fixpoint allSettled (this : t) (sourcesToFetch : list IntegrationSource)
    (addrs : JsMap.t (list string))
  : list effect * list (IntegrationSource * result (list AssetEntity.t)) :=
  match sourcesToFetch with
  | [] => ([], [])
  | s :: rest =>
      let (tr, r) := fetchFromSource this s addrs in
      let (tr', rs) := allSettled this rest addrs in
      (tr ++ tr', (s, r) :: rs)
  end.

(** The loop over the settled results. *)
Fixpoint processResults (now : Z)
    (results : list (IntegrationSource * result (list AssetEntity.t)))
    (portfolio : PortfolioAggregate.t) : io PortfolioAggregate.t :=
  match results with
  | [] => ret portfolio
  | (s, Ok assets) :: rest =>
      let portfolio1 := PortfolioAggregate.addSource now portfolio s in
      do portfolio2 <- ([], PortfolioAggregate.addAssets now portfolio1 assets);
      processResults now rest portfolio2
  | (s, Throw reason) :: rest =>
      do _ <- log ("Failed to fetch from " ++ source_name s ++ ":")%string;
      processResults now rest portfolio
  end.

Definition uniqueSymbols (l : list AssetEntity.t) : list string :=
  unique (map AssetEntity._symbol l).

Definition applyPrices (prices : JsMap.t Price) (m : JsMap.t AssetEntity.t)
  : JsMap.t AssetEntity.t :=
  map (fun entry : string * AssetEntity.t =>
         match JsMap.get (AssetEntity._symbol (snd entry)) prices with
         | Some price => (fst entry, AssetEntity.updatePrice (snd entry) price)
         | None => entry
         end) m.

Definition enrichWithPrices (this : t) (portfolio : PortfolioAggregate.t)
  : io PortfolioAggregate.t :=
  let symbols := uniqueSymbols (PortfolioAggregate.assets portfolio) in
  if Nat.eqb (List.length symbols) 0 then ret portfolio
  else
    catch
      (do prices <- perform (GetBatchPrices symbols)
                            (getBatchPrices this symbols);
       ret (PortfolioAggregate.mk
              (PortfolioAggregate._id portfolio)
              (PortfolioAggregate._userId portfolio)
              (applyPrices prices (PortfolioAggregate._assets portfolio))
              (PortfolioAggregate._sources portfolio)
              (PortfolioAggregate._lastUpdated portfolio)))
      (fun _ =>
         do _ <- log "Failed to enrich with prices:";
         ret portfolio).

(** [options.sources || Array.from(this.integrations.keys())]. *)
Definition sourcesToFetch (this : t) (options : AggregationOptions)
  : list IntegrationSource :=
  match sources options with
  | Some l => l
  | None => map fst (integrations this)
  end.

(** The [try] block of [aggregatePortfolio], from the settled results on,
    with its [catch]. *)
Definition settle (this : t) (portfolio : PortfolioAggregate.t)
    (results : list (IntegrationSource * result (list AssetEntity.t)))
  : io PortfolioAggregate.t :=
  catch
    (do portfolio1 <- processResults (nowAtBuild this) results portfolio;
     do portfolio2 <- ([], PortfolioAggregate.reconcile (nowAtBuild this)
                             portfolio1);
     do portfolio3 <- enrichWithPrices this portfolio2;
     do _ <- perform (Save portfolio3) (save this portfolio3);
     ret portfolio3)
    (fun error =>
       do _ <- log "Portfolio aggregation failed:";
       reject error).

(** The part of [aggregatePortfolio] after the cache check. *)
Definition aggregateFresh (this : t) (options : AggregationOptions)
    (portfolioId : string) : io PortfolioAggregate.t :=
  let portfolio :=
    PortfolioAggregate.mk portfolioId (userId options) JsMap.empty []
      (nowAtBuild this) in
  let (fetched, results) :=
    allSettled this (sourcesToFetch this options) (addresses options) in
  do _ <- (fetched, Ok tt);
  settle this portfolio results.

Definition aggregatePortfolio (this : t) (options : AggregationOptions)
  : io PortfolioAggregate.t :=
  let portfolioId := generatePortfolioId (nowAtStart this) (userId options) in
  if negb (forceRefresh options) then
    do cached <- perform (FindById portfolioId) (findById this portfolioId);
    match cached with
    | Some c =>
        if isCacheValid (nowAtCacheCheck this) c then ret c
        else aggregateFresh this options portfolioId
    | None => aggregateFresh this options portfolioId
    end
  else aggregateFresh this options portfolioId.

Fixpoint extractLoop (l : list AssetEntity.t) (addrs : JsMap.t (list string))
  : JsMap.t (list string) :=
  match l with
  | [] => addrs
  | asset :: rest =>
      if Js.truthy (AssetEntity._chain asset) then
        let chain := Js.str (AssetEntity._chain asset) in
        let chainAddresses :=
          match JsMap.get chain addrs with
          | Some x => x
          | None => []
          end in
        extractLoop rest (JsMap.set chain chainAddresses addrs)
      else extractLoop rest addrs
  end.

Definition extractAddresses (portfolio : PortfolioAggregate.t)
  : JsMap.t (list string) :=
  extractLoop (PortfolioAggregate.assets portfolio) JsMap.empty.

Definition refreshOptions (existing : PortfolioAggregate.t)
  : AggregationOptions :=
  mkOptions (Some (PortfolioAggregate.sources existing))
            (extractAddresses existing)
            (PortfolioAggregate._userId existing)
            true.

Definition refreshPortfolio (this : t) (portfolioId : string)
  : io PortfolioAggregate.t :=
  do existing <- perform (FindById portfolioId) (findById this portfolioId);
  match existing with
  | None => reject ("Portfolio not found: " ++ portfolioId)%string
  | Some e => aggregatePortfolio this (refreshOptions e)
  end.

(** The domain events among the effects of a call. *)
Definition events (tr : list effect) : list DomainEventType :=
  flat_map (fun e => match e with Emit ty => [ty] | _ => [] end) tr.

Definition providerCalls (tr : list effect) : list effect :=
  filter (fun e => match e with
                   | Connect _ | FetchAssets _ _ => true
                   | _ => false
                   end) tr.

End PortfolioAggregationService.

(** ** [PortfolioValuationService] *)

Module PortfolioValuationService.














Fixpoint groupLoop (assets : list AssetEntity.t)
    (grouped : JsMap.t (list AssetEntity.t)) : JsMap.t (list AssetEntity.t) :=
  match assets with
  | [] => grouped
  | asset :: rest =>
      let chain := Js.or_lit (AssetEntity._chain asset) "unknown" in
      let chainAssets :=
        match JsMap.get chain grouped with
        | Some l => l
        | None => []
        end in
      groupLoop rest (JsMap.set chain (chainAssets ++ [asset]) grouped)
  end.

Definition groupByChain (portfolio : PortfolioAggregate.t)
  : JsMap.t (list AssetEntity.t) :=
  groupLoop (PortfolioAggregate.assets portfolio) JsMap.empty.



End PortfolioValuationService.

(* ===================================================================== *)
(** * Part II.  Vocabulary of the statements and sample data            *)
(* ===================================================================== *)

Unset Implicit Arguments.

(** ** Same-asset predicates *)

Section SameAssetTerms.

(** "Carries a contract address": the test [if (asset.contractAddress)]. *)
Definition carries (a : AssetEntity.t) : bool :=
  Js.truthy (AssetEntity._contractAddress a).

Definition contractOf (a : AssetEntity.t) : string :=
  Js.str (AssetEntity._contractAddress a).

(** The predicate in the words of the specification: equal chain tags, and
    either two contract addresses equal up to case, or no contract address
    on either side and equal symbols. *)
Definition claimedSameAsset (a b : AssetEntity.t) : bool :=
  Js.strict_eq (AssetEntity._chain a) (AssetEntity._chain b)
  && ((carries a && carries b
       && String.eqb (Js.toLowerCase (contractOf a))
                     (Js.toLowerCase (contractOf b)))
      || (negb (carries a) && negb (carries b)
          && String.eqb (AssetEntity._symbol a) (AssetEntity._symbol b))).

Definition plainAsset (id symbol type : string) (chain contract : option string)
  : AssetEntity.t :=
  AssetEntity.new id symbol None type chain
    (mkBalance 1 18 "1.000000000000000000") None contract None no_metadata.

Definition ethNative : AssetEntity.t :=
  plainAsset "a1" "ETH" "token" (Some "ethereum") None.

Definition ethWithContract : AssetEntity.t :=
  plainAsset "a2" "ETH" "token" (Some "ethereum") (Some "0xEeee").

Definition usdcUpper : AssetEntity.t :=
  plainAsset "a3" "USDC" "token" (Some "ethereum") (Some "0xA0b8").

Definition usdcLower : AssetEntity.t :=
  plainAsset "a4" "USDC" "token" (Some "ethereum") (Some "0xa0b8").

Definition usdcBridged : AssetEntity.t :=
  plainAsset "a5" "USDC.E" "token" (Some "ethereum") (Some "0xa0b8").

Definition ethAsCrypto : AssetEntity.t :=
  plainAsset "a6" "ETH" "crypto" (Some "ethereum") None.

End SameAssetTerms.

(** ** Merging *)

Section MergeTerms.

Definition withProvenance (a : AssetEntity.t) (kind : string) (dec : Z)
  : AssetEntity.t :=
  AssetEntity.mk (AssetEntity._id a) (AssetEntity._symbol a)
    (AssetEntity._name a) (AssetEntity._type a) (AssetEntity._chain a)
    (mkBalance (amount (AssetEntity._balance a)) dec
               (formatted (AssetEntity._balance a)))
    (AssetEntity._price a) (AssetEntity._contractAddress a)
    (AssetEntity._imageUrl a)
    (mkMetadata (Some kind) None (Some kind) None).

Definition ethFromExchange : AssetEntity.t := withProvenance ethNative "cex" 6.
Definition ethFromChain : AssetEntity.t := withProvenance ethNative "on-chain" 18.
Definition ethOddDecimals : AssetEntity.t := withProvenance ethNative "dex" 101.

(** The key under which [selectPreferredSource] looks an asset up. *)
Definition sourceKind (a : AssetEntity.t) : string :=
  Js.or_lit (sourceType (AssetEntity._metadata a)) "manual".

(** The precedence in the words of the specification: on-chain and
    blockchain before dex before cex before manual; an asset without source
    type counts as manual, and any other source type comes last. *)
Definition rank (a : AssetEntity.t) : Z :=
  let k := sourceKind a in
  if String.eqb k "on-chain" then 1
  else if String.eqb k "blockchain" then 1
  else if String.eqb k "dex" then 2
  else if String.eqb k "cex" then 3
  else if String.eqb k "manual" then 4
  else 999.

(** The key is the name of a member that every object inherits. *)
Definition namesInherited (k : string) : bool :=
  String.eqb k "constructor" || String.eqb k "__proto__"
  || existsb (String.eqb k) AssetReconciliationService.objectMethods.

(** The source type of the asset is a source type proper, not the name of
    an inherited member. *)
Definition ordinarySource (a : AssetEntity.t) : Prop :=
  namesInherited (sourceKind a) = false.

Definition ethOneAndHalf : AssetEntity.t :=
  AssetEntity.new "asset-1" "ETH" (Some "Ethereum") "crypto" (Some "ethereum")
    (mkBalance (3 # 2) 18 "1.5") None None None no_metadata.

(** 0.1 and 0.2 ETH, whose sum no double holds. *)
Definition ethTenth : AssetEntity.t :=
  AssetEntity.new "asset-3" "ETH" (Some "Ethereum") "crypto" (Some "ethereum")
    (mkBalance (1 # 10) 18 "0.1") None None None no_metadata.

Definition ethFifth : AssetEntity.t :=
  AssetEntity.new "asset-4" "ETH" (Some "Ethereum") "crypto" (Some "ethereum")
    (mkBalance (2 # 10) 18 "0.2") None None None no_metadata.

Definition ethTwoAndHalf : AssetEntity.t :=
  AssetEntity.new "asset-2" "ETH" (Some "Ethereum") "crypto" (Some "ethereum")
    (mkBalance (5 # 2) 18 "2.5") None None None no_metadata.

End MergeTerms.

(** ** Prices of merged assets *)

Section MergePriceTerms.

Definition usd (v : Q) (at_ : Z) : Price := mkPrice v "USD" at_ None.

Definition pricedEth (id : string) (p : Price) (fetched : Z) : AssetEntity.t :=
  AssetEntity.new id "ETH" None "crypto" (Some "ethereum")
    (mkBalance 1 18 "1.0") (Some p) None None
    (mkMetadata None (Some (Js.Ms fetched)) None None).

(** Quoted late but fetched early, and the other way round. *)
Definition ethQuotedLate : AssetEntity.t := pricedEth "p1" (usd 2000 10) 1.
Definition ethFetchedLate : AssetEntity.t := pricedEth "p2" (usd 2100 5) 2.

Definition mergedByService : AssetEntity.t :=
  AssetEntity.new "p1" "ETH" None "crypto" (Some "ethereum")
    (mkBalance (1 + 1) 18 "2.000000000000000000") (Some (usd 2100 5))
    None None
    (mkMetadata None (Some (Js.Ms 1)) None (Some [])).

End MergePriceTerms.

(** ** Reconciliation *)

Section ReconcileTwiceTerms.

(** Every entry sits under the key computed from its asset. *)
Definition keyedBy (keyOf : AssetEntity.t -> string)
    (m : JsMap.t AssetEntity.t) : Prop :=
  Forall (fun e => keyOf (snd e) = fst e) m.

(** The invariant of the constructor: the symbol is stored upper-cased. *)
Definition upperSymbol (a : AssetEntity.t) : Prop :=
  AssetEntity._symbol a = Js.toUpperCase (AssetEntity._symbol a).

Definition duplicatedHoldings : PortfolioAggregate.t :=
  PortfolioAggregate.mk "portfolio_user123" (Some "user123")
    [("asset-1", ethOneAndHalf); ("asset-2", ethTwoAndHalf);
     ("a3", usdcUpper)]
    [EVM] 0.

End ReconcileTwiceTerms.

(** ** Total value *)

Section TotalValueTerms.









End TotalValueTerms.

(** ** Circuit breaker *)

Section CircuitTransitionsTerms.

Import CircuitBreaker.

(** The breakers that the class can produce: a fresh one, and what its
    methods make of one ([allowRequest], [getState] and [execute] act
    through [inspect], [recordSuccess] and [recordFailure]). *)
Inductive reachable : t -> Prop :=
| reach_new (cfg : CircuitBreakerConfig) : reachable (new cfg)
| reach_inspect (now : Z) (s : t) : reachable s -> reachable (inspect now s)
| reach_success (now : Z) (s : t) :
    reachable s -> reachable (recordSuccess now s)
| reach_failure (now : Z) (s : t) :
    reachable s -> reachable (recordFailure now s)
| reach_reset (s : t) : reachable s -> reachable (reset s).

(** The breaker of the test suite: threshold 3, recovery 1000 ms, 2 retries. *)
Definition testedBreaker : t := new (mkConfig 3 1000 2).

End CircuitTransitionsTerms.

(** ** Rate limiters *)

Section RateLimitTerms.

(** The calls happen at non-decreasing instants, none before [from]. *)
Fixpoint sortedFrom (from : Z) (calls : list Z) : Prop :=
  match calls with
  | [] => True
  | now :: rest => from <= now /\ sortedFrom now rest
  end.

Definition within (from x : Z) : bool := (from <=? x) && (x <? from + 60000).

Definition potential (e : Z) (st : TokenBucketRateLimiter.t) : Z :=
  Z.max 0 (TokenBucketRateLimiter.tokens st)
  + Z.max 0 (((e - 1 - TokenBucketRateLimiter.lastRefillTime st)
              * requestsPerMinute (TokenBucketRateLimiter.config st)) / 60000).

(** The bound of the claim: [max(R, B)], with [B] defaulting to [R]. *)
Definition claimedBound (cfg : RateLimitConfig) : Z :=
  Z.max (requestsPerMinute cfg)
        (match burstLimit cfg with Some b => b | None => requestsPerMinute cfg end).

Definition twoPerMinute : RateLimitConfig := mkRateLimitConfig 2 (Some 2).

Definition testedLimits : RateLimitConfig := mkRateLimitConfig 60 (Some 10).

Definition everyHundredMs : list Z :=
  map (fun k => Z.of_nat k * 100) (seq 0 20).

End RateLimitTerms.

(** ** Refresh *)

Section RefreshTerms.

Import PortfolioAggregationService.

Definition allEmpty (addrs : JsMap.t (list string)) : Prop :=
  Forall (fun e => snd e = @nil string) addrs.

Definition isFetch (e : effect) : bool :=
  match e with
  | FetchAssets _ _ => true
  | _ => false
  end.

(** The provider is the brokerage, the one that takes no address. *)
Definition isBrokerage (s : IntegrationSource) : bool :=
  IntegrationSource_eqb s ROBINHOOD.

End RefreshTerms.

(** ** Partial failure *)

Section PartialFailureTerms.

Import PortfolioAggregationService.

(** The assets a settled fetch hands to [addAsset]. *)
Definition assetsOf (r : result (list AssetEntity.t)) : list AssetEntity.t :=
  match r with
  | Ok l => l
  | Throw _ => []
  end.

Definition fetched (this : t) (addrs : JsMap.t (list string))
    (s : IntegrationSource) : list AssetEntity.t :=
  assetsOf (snd (fetchFromSource this s addrs)).

Definition succeeded
    (results : list (IntegrationSource * result (list AssetEntity.t)))
  : list IntegrationSource :=
  flat_map (fun e => match snd e with Ok _ => [fst e] | Throw _ => [] end)
           results.

(** The console lines that report a failed fetch. *)
Definition fetchFailures (tr : list effect) : list string :=
  flat_map (fun e => match e with
                     | ConsoleError m =>
                         if String.prefix "Failed to fetch from " m
                         then [m] else []
                     | _ => []
                     end) tr.

Definition failureLine (s : IntegrationSource) : string :=
  ("Failed to fetch from " ++ source_name s ++ ":")%string.

Definition derivedId (this : t) (options : AggregationOptions) : string :=
  generatePortfolioId (nowAtStart this) (userId options).

(** The call goes on to fetch: a refresh is forced, or the repository has
    nothing under the derived id, or what it has is too old. *)
Definition missesCache (this : t) (options : AggregationOptions) : Prop :=
  forceRefresh options = true
  \/ findById this (derivedId this options) = Ok None
  \/ exists c, findById this (derivedId this options) = Ok (Some c)
               /\ isCacheValid (nowAtCacheCheck this) c = false.

Definition lookup (this : t) (options : AggregationOptions) : list effect :=
  if forceRefresh options then [] else [FindById (derivedId this options)].

(** What the loop sees of the settled results: who succeeded, which failure
    lines are due, which assets are added. *)
Definition outlook
    (results : list (IntegrationSource * result (list AssetEntity.t)))
  : list IntegrationSource * list string * list AssetEntity.t :=
  (succeeded results,
   flat_map (fun e => match snd e with
                      | Ok _ => []
                      | Throw _ => [failureLine (fst e)]
                      end) results,
   flat_map (fun e => assetsOf (snd e)) results).

Definition balances (m : JsMap.t AssetEntity.t) : list (string * Balance) :=
  map (fun e => (fst e, AssetEntity._balance (snd e))) m.

End PartialFailureTerms.

(** ** A concrete service: EVM answers, Solana is down *)

Section ScenariosTerms.

Import PortfolioAggregationService.

Definition ethRaw : Asset :=
  mkAsset "evm-eth" "eth" (Some "Ethereum") "crypto" (Some "ethereum")
    (mkBalance (3 # 2) 18 "1.5") None None None None.

Definition shareRaw (id contract : string) : Asset :=
  mkAsset id "AAPL" None "stock" None (mkBalance 1 0 "1") None
    (Some contract) None None.

Definition evmUp : Integration :=
  mkIntegration true (Ok tt) (fun _ => Ok [ethRaw]).

Definition evmTwoShares : Integration :=
  mkIntegration true (Ok tt)
    (fun _ => Ok [shareRaw "s1" "0xA"; shareRaw "s2" "0xB"]).

Definition solanaDown : Integration :=
  mkIntegration true (Ok tt) (fun _ => Throw "RPC unavailable").

Definition serviceWith (evm : Integration)
    (stored : option PortfolioAggregate.t) (checkedAt : Z) : t :=
  mk [(EVM, evm); (SOLANA, solanaDown)]
     (fun _ => Ok stored) (fun _ => Ok tt) (fun _ => Ok [])
     0 checkedAt 1000.

Definition demoService : t := serviceWith evmUp None 0.

Definition usdcRaw (id contract : string) : Asset :=
  mkAsset id "USDC" None "token" (Some "ethereum") (mkBalance 100 6 "100")
    None (Some contract) None None.

Definition usdcService : t :=
  mk [(EVM, mkIntegration true (Ok tt) (fun _ => Ok [usdcRaw "u1" "0xA0b8"]));
      (ROBINHOOD,
       mkIntegration true (Ok tt) (fun _ => Ok [usdcRaw "u2" "0xa0b8"]))]
     (fun _ => Ok None) (fun _ => Ok tt) (fun _ => Ok []) 0 0 1000.

Definition usdcOptions : AggregationOptions :=
  mkOptions None [("ethereum", ["0xabc"])] (Some "user123") true.

Definition demoAddresses : JsMap.t (list string) :=
  [("ethereum", ["0xabc"]); ("solana", ["So11111111111111111111111111111111"])].

Definition demoOptions : AggregationOptions :=
  mkOptions (Some [EVM; SOLANA]) demoAddresses (Some "user123") false.

(** A service whose repository holds the portfolio built one minute ago. *)
Definition storedPortfolio : PortfolioAggregate.t :=
  PortfolioAggregate.mk "portfolio_user123" (Some "user123")
    [("ethereum:ETH:crypto", toEntity ethRaw)] [EVM] 1000.

Definition cachingService : t :=
  serviceWith evmUp (Some storedPortfolio) 61000.

(** A stored portfolio with an on-chain holding from the EVM provider and a
    share from the brokerage, and the service that holds it: on a refresh
    the EVM provider would still report the holding, and the brokerage
    reports two shares. *)
Definition heldPortfolio : PortfolioAggregate.t :=
  PortfolioAggregate.mk "portfolio_user123" (Some "user123")
    [("ethereum:ETH:crypto", toEntity ethRaw);
     ("global:AAPL:stock", toEntity (shareRaw "s1" "0xA"))]
    [EVM; ROBINHOOD] 1000.

Definition brokerageUp : Integration :=
  mkIntegration true (Ok tt)
    (fun _ => Ok [mkAsset "s1" "AAPL" None "stock" None (mkBalance 2 0 "2")
                    None (Some "0xA") None None]).

Definition brokerageService : t :=
  mk [(EVM, evmUp); (ROBINHOOD, brokerageUp)]
     (fun _ => Ok (Some heldPortfolio)) (fun _ => Ok tt) (fun _ => Ok [])
     0 61000 62000.

End ScenariosTerms.

(** ** Money and addresses *)

Section ValueObjectTerms.

Definition walletMixedCase : string :=
  "0x742d35Cc6634C0532925a3b844Bc9e7595f0bEb4".

Definition walletLowerCase : string :=
  "0x742d35cc6634c0532925a3b844bc9e7595f0beb4".

Definition solanaWallet : string :=
  "5UtaXPD7yKFdwZcNh5qZRf8kY3Zv7HaGpP9K9S5dFN4X".

End ValueObjectTerms.

(** ** Same-asset relations *)

Section SameAssetRelationTerms.

Definition ethOtherContract : AssetEntity.t :=
  plainAsset "a7" "ETH" "token" (Some "ethereum") (Some "0xFfff").

End SameAssetRelationTerms.

(** ** Holdings of a list of assets *)

Section HoldingsTerms.

(** The sum of [f] over a list. *)
Definition sumOf {V : Type} (f : V -> Q) (l : list V) : Q :=
  fold_right (fun v acc => (f v + acc)%Q) 0%Q l.

Definition quantity (a : AssetEntity.t) : Q := amount (AssetEntity._balance a).

(** The total of the balance amounts of a list of assets. *)
Definition holdings (l : list AssetEntity.t) : Q := sumOf quantity l.

(** The fraction digits [toFixed] accepts. *)
Definition decimalsInRange (a : AssetEntity.t) : Prop :=
  0 <= decimals (AssetEntity._balance a) <= 100.

(** Assets of the list that share a reconciliation key are the same asset. *)
Definition sameKeySameAsset (l : list AssetEntity.t) : Prop :=
  forall a b, In a l -> In b l ->
    AssetReconciliationService.generateAssetKey a
    = AssetReconciliationService.generateAssetKey b ->
    AssetReconciliationService.isSameAsset a b = true.

Definition threeHoldings : list AssetEntity.t :=
  [ethOneAndHalf; ethTwoAndHalf; usdcUpper].

End HoldingsTerms.

(** ** Entries of the map under reconciliation *)

Section ReconcileTotalTerms.

(** An entry of the map that the loop of [reconcile] can carry on with:
    it sits under its key, and it merges with every asset of its key that
    is still to come. *)
Definition mergeable (rest : list AssetEntity.t)
    (e : string * AssetEntity.t) : Prop :=
  AssetReconciliationService.generateAssetKey (snd e) = fst e
  /\ upperSymbol (snd e)
  /\ decimalsInRange (snd e)
  /\ forall a, In a rest ->
       AssetReconciliationService.generateAssetKey a = fst e ->
       AssetReconciliationService.isSameAsset (snd e) a = true.

End ReconcileTotalTerms.

(** ** The asset map of an aggregate *)

Section AggregateTerms.

(** The map as [addAsset] keeps it: every asset under its id, each id once. *)
Definition storedById (m : JsMap.t AssetEntity.t) : Prop :=
  keyedBy AssetEntity._id m /\ NoDup (JsMap.keys m).

Definition emptyAggregate : PortfolioAggregate.t :=
  PortfolioAggregate.mk "portfolio_user123" (Some "user123") JsMap.empty [] 0.

End AggregateTerms.

(** ** States of the rate limiters *)

Section LimiterStateTerms.

(** The timestamps a sliding window holds after calls at instants up to
    [last]: in order, none later than [last], and no more of them than the
    limit. *)
Definition windowOk (last : Z) (s : SlidingWindowRateLimiter.t) : Prop :=
  StronglySorted Z.le (SlidingWindowRateLimiter.requestTimestamps s)
  /\ Forall (fun ts => ts <= last)
            (SlidingWindowRateLimiter.requestTimestamps s)
  /\ Z.of_nat (List.length (SlidingWindowRateLimiter.requestTimestamps s))
     <= Z.max 0 (burstOrRate (SlidingWindowRateLimiter.config s)).

(** The limiter after [allowRequest] at each of the instants [calls]. *)
Fixpoint slidingAfter (calls : list Z) (s : SlidingWindowRateLimiter.t)
  : SlidingWindowRateLimiter.t :=
  match calls with
  | [] => s
  | now :: rest => slidingAfter rest (fst (SlidingWindowRateLimiter.allowRequest now s))
  end.

(** A bucket between empty and full, last refilled no later than [last]. *)
Definition bucketOk (last : Z) (s : TokenBucketRateLimiter.t) : Prop :=
  0 <= TokenBucketRateLimiter.tokens s
       <= burstOrRate (TokenBucketRateLimiter.config s)
  /\ TokenBucketRateLimiter.lastRefillTime s <= last.

End LimiterStateTerms.

(** ** Valuation *)

Section ValuationTerms.

(** The group of [groupByChain] an asset falls into. *)
Definition chainOf (a : AssetEntity.t) : string :=
  Js.or_lit (AssetEntity._chain a) "unknown".




Definition inChain (c : string) (a : AssetEntity.t) : bool :=
  String.eqb (chainOf a) c.



End ValuationTerms.

(** ** Ranking by value *)

Section RankingTerms.


End RankingTerms.

(** ** Effects of the aggregation pipeline *)

Section PipelineTerms.

Import PortfolioAggregationService.

Definition isLookup (e : effect) : bool :=
  match e with FindById _ => true | _ => false end.

Definition isPriceCall (e : effect) : bool :=
  match e with GetBatchPrices _ => true | _ => false end.

Definition isProviderCall (e : effect) : bool :=
  match e with Connect _ | FetchAssets _ _ => true | _ => false end.

Definition isConsole (e : effect) : bool :=
  match e with ConsoleError _ => true | _ => false end.

(** The aggregate that [aggregatePortfolio] starts from. *)
Definition blankPortfolio (this : t) (options : AggregationOptions)
  : PortfolioAggregate.t :=
  PortfolioAggregate.mk (derivedId this options) (userId options)
    JsMap.empty [] (nowAtBuild this).

(** The price the valuator's answer gives an asset. *)
Definition repriced (prices : JsMap.t Price) (a : AssetEntity.t)
  : AssetEntity.t :=
  match JsMap.get (AssetEntity._symbol a) prices with
  | Some price => AssetEntity.updatePrice a price
  | None => a
  end.

Definition evmDown : Integration :=
  mkIntegration true (Ok tt) (fun _ => Throw "EVM unavailable").

(** Both providers are down; the repository is empty. *)
Definition darkService : t := serviceWith evmDown None 0.

(** The valuator knows the price of ETH. *)
Definition pricedService : t :=
  mk [(EVM, evmUp); (SOLANA, solanaDown)] (fun _ => Ok None)
     (fun _ => Ok tt)
     (fun _ => Ok [("ETH", mkPrice 2500 "USD" 900 (Some "valuator"))])
     0 0 1000.

End PipelineTerms.

(** ** More effects of the pipeline *)

Section OutcomeTerms.

Import PortfolioAggregationService.

Definition isSave (e : effect) : bool :=
  match e with Save _ => true | _ => false end.

Definition notLookup (e : effect) : Prop := isLookup e = false.

(** A service whose valuator is down. *)
Definition unpricedService : t :=
  mk [(EVM, evmUp); (SOLANA, solanaDown)] (fun _ => Ok None)
     (fun _ => Ok tt) (fun _ => Throw "valuator unavailable") 0 0 1000.

(** A service whose repository refuses to save. *)
Definition readOnlyService : t :=
  mk [(EVM, evmUp); (SOLANA, solanaDown)] (fun _ => Ok None)
     (fun _ => Throw "quota exceeded") (fun _ => Ok []) 0 0 1000.

End OutcomeTerms.

(* ===================================================================== *)
(** * Part III.  Verification                                             *)
(* ===================================================================== *)


(** ** Strings and options *)

Section JsFacts.

Lemma strict_eq_true (a b : option string) :
  Js.strict_eq a b = true <-> a = b.
Proof.
  destruct a as [x|], b as [y|]; simpl; split; intro H;
    try discriminate; try reflexivity.
  - apply String.eqb_eq in H. now subst.
  - inversion H. apply String.eqb_refl.
Qed.

Lemma upper_ascii_idem (c : ascii) :
  Js.upper_ascii (Js.upper_ascii c) = Js.upper_ascii c.
Proof.
  destruct c as [[] [] [] [] [] [] [] []]; vm_compute; reflexivity.
Qed.

Lemma toUpperCase_idem (s : string) :
  Js.toUpperCase (Js.toUpperCase s) = Js.toUpperCase s.
Proof.
  induction s as [|c s IH]; simpl.
  - reflexivity.
  - unfold Js.toUpperCase in *. simpl. now rewrite upper_ascii_idem, IH.
Qed.

Lemma toUpperCase_length (s : string) :
  String.length (Js.toUpperCase s) = String.length s.
Proof.
  induction s as [|c s IH]; simpl; [reflexivity|].
  unfold Js.toUpperCase in *. simpl. now rewrite IH.
Qed.

Lemma truthy_str (a : option string) :
  Js.truthy a = true -> a = Some (Js.str a).
Proof. destruct a as [[|c s]|]; simpl; intro H; try discriminate; reflexivity. Qed.

Lemma or_lit_truthy (a : option string) (d : string) :
  Js.truthy a = true -> Js.or_lit a d = Js.str a.
Proof. destruct a as [[|c s]|]; simpl; intro H; try discriminate; reflexivity. Qed.

Lemma or_lit_falsy (a : option string) (d : string) :
  Js.truthy a = false -> Js.or_lit a d = d.
Proof. destruct a as [[|c s]|]; simpl; intro H; try discriminate; reflexivity. Qed.

Lemma append_inj_l (p x y : string) :
  (p ++ x)%string = (p ++ y)%string -> x = y.
Proof.
  induction p as [|c p IH]; simpl; intro H; [assumption|].
  inversion H. auto.
Qed.

Lemma strict_eq_false (a b : option string) :
  Js.strict_eq a b = false <-> a <> b.
Proof.
  split; intro H.
  - intro E. apply strict_eq_true in E. congruence.
  - destruct (Js.strict_eq a b) eqn:E; [|reflexivity].
    apply strict_eq_true in E. contradiction.
Qed.

End JsFacts.

(** Boolean tests of the sources as propositions. *)
Ltac to_prop :=
  repeat match goal with
    | H : (_ && _)%bool = true |- _ =>
        apply andb_true_iff in H; destruct H
    | H : String.eqb _ _ = true |- _ => apply String.eqb_eq in H
    | H : String.eqb _ _ = false |- _ => apply String.eqb_neq in H
    | H : Js.strict_eq _ _ = true |- _ => apply strict_eq_true in H
    | H : Js.strict_eq _ _ = false |- _ => apply strict_eq_false in H
    end.

(** ** C1: the same-asset predicates *)

Section SameAsset.

(** The two predicates, case by case. *)
Lemma isSameAsset_cases (a b : AssetEntity.t) :
  (AssetReconciliationService.isSameAsset a b = true <->
     AssetEntity._symbol a = AssetEntity._symbol b
     /\ AssetEntity._chain a = AssetEntity._chain b
     /\ ((carries a = true /\ carries b = true
          /\ Js.toLowerCase (contractOf a) = Js.toLowerCase (contractOf b))
         \/ (carries a = false /\ carries b = false)))
  /\ (AssetEntity.isSameAsset a b = true <->
        AssetEntity._chain a = AssetEntity._chain b
        /\ ((carries a = true /\ carries b = true
             /\ contractOf a = contractOf b)
            \/ ((carries a = false \/ carries b = false)
                /\ AssetEntity._symbol a = AssetEntity._symbol b
                /\ AssetEntity._type a = AssetEntity._type b))).
Proof.
  unfold AssetReconciliationService.isSameAsset, AssetEntity.isSameAsset,
    carries, contractOf.
  destruct (Js.truthy (AssetEntity._contractAddress a)) eqn:Ca;
    destruct (Js.truthy (AssetEntity._contractAddress b)) eqn:Cb;
    destruct (String.eqb (AssetEntity._symbol a) (AssetEntity._symbol b))
      eqn:Es;
    destruct (Js.strict_eq (AssetEntity._chain a) (AssetEntity._chain b))
      eqn:Ec;
    destruct (String.eqb (AssetEntity._type a) (AssetEntity._type b)) eqn:Et;
    destruct (Js.strict_eq (AssetEntity._contractAddress a)
                (AssetEntity._contractAddress b)) eqn:Ek;
    destruct (String.eqb
                (Js.toLowerCase (Js.str (AssetEntity._contractAddress a)))
                (Js.toLowerCase (Js.str (AssetEntity._contractAddress b))))
      eqn:El;
    simpl; to_prop;
    try (rewrite (truthy_str _ Ca), (truthy_str _ Cb) in Ek);
    repeat split; intros; intuition (try discriminate; try congruence).
Qed.

(** C1, counterexample.  [AssetEntity.isSameAsset] accepts a pair in which
    exactly one side carries a contract address, rejects two contract
    addresses that differ only in case, and rejects two native holdings of
    one symbol and chain whose asset types differ; the service's
    [isSameAsset] rejects two equal contract addresses on one chain when the
    symbols differ.  The claimed predicate says the opposite each time. *)
Lemma C1_same_asset_counterexample :
  (AssetEntity.isSameAsset ethNative ethWithContract = true
   /\ claimedSameAsset ethNative ethWithContract = false)
  /\ (AssetEntity.isSameAsset usdcUpper usdcLower = false
      /\ claimedSameAsset usdcUpper usdcLower = true)
  /\ (AssetEntity.isSameAsset ethNative ethAsCrypto = false
      /\ claimedSameAsset ethNative ethAsCrypto = true)
  /\ (AssetReconciliationService.isSameAsset usdcLower usdcBridged = false
      /\ claimedSameAsset usdcLower usdcBridged = true).
Proof. repeat split; vm_compute; reflexivity. Qed.

(** C1, amended.  [AssetReconciliationService.isSameAsset] holds exactly when
    the symbols are equal, the chain tags are equal, and either both sides
    carry a contract address and these are equal up to case, or neither side
    carries one; it is false whenever exactly one side carries a contract
    address.  [AssetEntity.isSameAsset] (the one [addAsset] consults) holds
    exactly when the chain tags are equal and either both sides carry a
    contract address and these are the same string, or at least one side
    carries none and the symbols and the asset types are equal: when exactly
    one side carries a contract address, it holds exactly when chain tags,
    symbols and asset types are equal. *)
Theorem C1_same_asset_predicates (a b : AssetEntity.t) :
  (AssetReconciliationService.isSameAsset a b = true <->
     AssetEntity._symbol a = AssetEntity._symbol b
     /\ AssetEntity._chain a = AssetEntity._chain b
     /\ ((carries a = true /\ carries b = true
          /\ Js.toLowerCase (contractOf a) = Js.toLowerCase (contractOf b))
         \/ (carries a = false /\ carries b = false)))
  /\ (carries a <> carries b ->
      AssetReconciliationService.isSameAsset a b = false)
  /\ (AssetEntity.isSameAsset a b = true <->
        AssetEntity._chain a = AssetEntity._chain b
        /\ ((carries a = true /\ carries b = true
             /\ contractOf a = contractOf b)
            \/ ((carries a = false \/ carries b = false)
                /\ AssetEntity._symbol a = AssetEntity._symbol b
                /\ AssetEntity._type a = AssetEntity._type b)))
  /\ (carries a <> carries b ->
      (AssetEntity.isSameAsset a b = true <->
         AssetEntity._chain a = AssetEntity._chain b
         /\ AssetEntity._symbol a = AssetEntity._symbol b
         /\ AssetEntity._type a = AssetEntity._type b)).
Proof.
  destruct (isSameAsset_cases a b) as [Hservice Hentity].
  split; [exact Hservice|]. split; [|split; [exact Hentity|]].
  - intros Hne.
    destruct (AssetReconciliationService.isSameAsset a b) eqn:E;
      [|reflexivity].
    destruct Hservice as [H _].
    destruct (H eq_refl) as (_ & _ & [(Ha & Hb & _) | (Ha & Hb)]);
      congruence.
  - intros Hne. rewrite Hentity. split.
    + intros (Hc & [(Ha & Hb & _) | (_ & Hs & Ht)]); [congruence | auto].
    + intros (Hc & Hs & Ht). split; [exact Hc|]. right.
      split; [|split; assumption].
      destruct (carries a), (carries b); auto. congruence.
Qed.

End SameAsset.

(** ** C2, C3: the two merge operations *)

Section Merge.

Lemma toFixed_in_range (x : Q) (f : Z) :
  0 <= f <= 100 -> exists text, Js.toFixed x f = Ok text.
Proof.
  intros [Hlo Hhi]. unfold Js.toFixed.
  destruct (f <? 0) eqn:E1; [apply Z.ltb_lt in E1; lia|].
  destruct (100 <? f) eqn:E2; [apply Z.ltb_lt in E2; lia|].
  simpl. eexists. reflexivity.
Qed.

Lemma toFixed_out_of_range (x : Q) (f : Z) :
  f < 0 \/ 100 < f -> exists msg, Js.toFixed x f = Throw msg.
Proof.
  intros H. unfold Js.toFixed.
  destruct (f <? 0) eqn:E1; simpl; [eexists; reflexivity|].
  destruct (100 <? f) eqn:E2; [eexists; reflexivity|].
  apply Z.ltb_ge in E1, E2. lia.
Qed.

(** The outcome of the service's merge, in one equation. *)
Lemma mergeAssets_same (a b : AssetEntity.t) (text : string) :
  AssetReconciliationService.isSameAsset a b = true ->
  Js.toFixed (Js.add (amount (AssetEntity._balance a))
                   (amount (AssetEntity._balance b)))
    (decimals (AssetEntity._balance
                 (AssetReconciliationService.selectPreferredSource a b)))
  = Ok text ->
  AssetReconciliationService.mergeAssets a b =
  Ok (let p := AssetReconciliationService.selectPreferredSource a b in
      let o := AssetReconciliationService.otherAsset a b in
      AssetEntity.new (AssetEntity._id p) (AssetEntity._symbol p)
        (AssetEntity._name p) (AssetEntity._type p) (AssetEntity._chain p)
        (mkBalance
           (Js.add (amount (AssetEntity._balance a))
                   (amount (AssetEntity._balance b)))
           (decimals (AssetEntity._balance p)) text)
        (AssetReconciliationService.selectMostRecentPrice a b)
        (AssetEntity._contractAddress p) (AssetEntity._imageUrl p)
        (mkMetadata (sourceType (AssetEntity._metadata p))
           (fetchedAt (AssetEntity._metadata p))
           (source (AssetEntity._metadata p))
           (Some (AssetReconciliationService.mergedFromOf
                    (AssetEntity._metadata p) (AssetEntity._metadata o))))).
Proof.
  intros Hs Ht. unfold AssetReconciliationService.mergeAssets.
  rewrite Hs. simpl. unfold AssetReconciliationService.formatBalance.
  rewrite Ht. reflexivity.
Qed.

Lemma mergeAssets_inv (a b m : AssetEntity.t) :
  AssetReconciliationService.mergeAssets a b = Ok m ->
  AssetReconciliationService.isSameAsset a b = true
  /\ exists text,
      Js.toFixed
        (Js.add (amount (AssetEntity._balance a))
                   (amount (AssetEntity._balance b)))
        (decimals (AssetEntity._balance
                     (AssetReconciliationService.selectPreferredSource a b)))
      = Ok text.
Proof.
  unfold AssetReconciliationService.mergeAssets.
  destruct (AssetReconciliationService.isSameAsset a b); simpl;
    [|discriminate].
  unfold AssetReconciliationService.formatBalance.
  destruct (Js.toFixed _ _) as [text|] eqn:E; simpl; [|discriminate].
  intros _. split; [reflexivity|]. now exists text.
Qed.

(** The outcome of the entity's merge, in one equation. *)
Lemma merge_same (a b : AssetEntity.t) (text : string) :
  AssetEntity.isSameAsset a b = true ->
  Js.toFixed (Js.add (amount (AssetEntity._balance a))
                   (amount (AssetEntity._balance b)))
    (decimals (AssetEntity._balance a)) = Ok text ->
  AssetEntity.merge a b =
  Ok (AssetEntity.new (AssetEntity._id a) (AssetEntity._symbol a)
        (Js.or_else (AssetEntity._name a) (AssetEntity._name b))
        (AssetEntity._type a) (AssetEntity._chain a)
        (mkBalance
           (Js.add (amount (AssetEntity._balance a))
                   (amount (AssetEntity._balance b)))
           (decimals (AssetEntity._balance a)) text)
        (AssetEntity.latestPrice a b)
        (Js.or_else (AssetEntity._contractAddress a)
                    (AssetEntity._contractAddress b))
        (Js.or_else (AssetEntity._imageUrl a) (AssetEntity._imageUrl b))
        (AssetEntity.mergeMetadata (AssetEntity._metadata a)
                                   (AssetEntity._metadata b))).
Proof.
  intros Hs Ht. unfold AssetEntity.merge. rewrite Hs. simpl.
  rewrite Ht. reflexivity.
Qed.

Lemma merge_inv (a b m : AssetEntity.t) :
  AssetEntity.merge a b = Ok m ->
  AssetEntity.isSameAsset a b = true
  /\ exists text,
      Js.toFixed
        (Js.add (amount (AssetEntity._balance a))
                   (amount (AssetEntity._balance b)))
        (decimals (AssetEntity._balance a)) = Ok text
      /\ m = AssetEntity.new (AssetEntity._id a) (AssetEntity._symbol a)
        (Js.or_else (AssetEntity._name a) (AssetEntity._name b))
        (AssetEntity._type a) (AssetEntity._chain a)
        (mkBalance
           (Js.add (amount (AssetEntity._balance a))
                   (amount (AssetEntity._balance b)))
           (decimals (AssetEntity._balance a)) text)
        (AssetEntity.latestPrice a b)
        (Js.or_else (AssetEntity._contractAddress a)
                    (AssetEntity._contractAddress b))
        (Js.or_else (AssetEntity._imageUrl a) (AssetEntity._imageUrl b))
        (AssetEntity.mergeMetadata (AssetEntity._metadata a)
                                   (AssetEntity._metadata b)).
Proof.
  unfold AssetEntity.merge.
  destruct (AssetEntity.isSameAsset a b); simpl; [|discriminate].
  destruct (Js.toFixed _ _) as [text|] eqn:E; simpl; [|discriminate].
  intros H. inversion H. split; [reflexivity|]. exists text. auto.
Qed.

(** C2, counterexample.  For a same-asset pair whose first member comes from
    an exchange (6 decimals) and whose second comes from the chain
    (18 decimals), precedence prefers the second, yet [AssetEntity.merge]
    keeps the decimals and the rendering of the first; and with decimals
    outside [0..100] the merge of a same-asset pair throws instead of
    producing a balance. *)
Lemma C2_merge_balance_counterexample :
  (AssetEntity.isSameAsset ethFromExchange ethFromChain = true
   /\ decimals (AssetEntity._balance
                  (AssetReconciliationService.selectPreferredSource
                     ethFromExchange ethFromChain)) = 18
   /\ exists m, AssetEntity.merge ethFromExchange ethFromChain = Ok m
        /\ decimals (AssetEntity._balance m) = 6
        /\ formatted (AssetEntity._balance m) = "2.000000")
  /\ (AssetReconciliationService.isSameAsset ethOddDecimals ethOddDecimals
      = true
      /\ exists msg,
          AssetReconciliationService.mergeAssets ethOddDecimals ethOddDecimals
          = Throw msg).
Proof.
  split; [split; [|split]|split].
  - vm_compute; reflexivity.
  - vm_compute; reflexivity.
  - eexists. split; [vm_compute; reflexivity|]. split; reflexivity.
  - vm_compute; reflexivity.
  - eexists. vm_compute. reflexivity.
Qed.

(** An asset with a source type proper is looked up to its rank. *)
Lemma priorityOf_ordinary (x : AssetEntity.t) :
  ordinarySource x ->
  AssetReconciliationService.priorityOf x
  = AssetReconciliationService.Rank (rank x).
Proof.
  unfold ordinarySource, namesInherited, rank, sourceKind,
    AssetReconciliationService.priorityOf,
    AssetReconciliationService.sourcePriority.
  generalize (Js.or_lit (sourceType (AssetEntity._metadata x)) "manual").
  intros k H.
  apply orb_false_iff in H. destruct H as [H H3].
  apply orb_false_iff in H. destruct H as [H1 H2].
  rewrite H1, H2, H3.
  repeat match goal with
         | |- context [String.eqb k ?v] =>
             destruct (String.eqb k v); [reflexivity|]
         end.
  reflexivity.
Qed.

(** A source type that names an inherited member is looked up to that
    member, not to a rank: against a ranked asset the comparison is false
    and the second asset is the preferred one, whichever side the member is
    on. *)
Lemma inherited_member_prefers_second (a b : AssetEntity.t) :
  (ordinarySource a /\ ~ ordinarySource b)
  \/ (~ ordinarySource a /\ ordinarySource b) ->
  AssetReconciliationService.selectPreferredSource a b = b.
Proof.
  assert (Hin : forall x, ~ ordinarySource x ->
            exists text, AssetReconciliationService.priorityOf x
                         = AssetReconciliationService.Inherited text).
  { intros x. unfold ordinarySource, namesInherited, sourceKind,
      AssetReconciliationService.priorityOf,
      AssetReconciliationService.sourcePriority.
    generalize (Js.or_lit (sourceType (AssetEntity._metadata x)) "manual").
    intros k H.
    destruct (String.eqb k "on-chain") eqn:E1.
    { apply String.eqb_eq in E1. subst k. exfalso. apply H. reflexivity. }
    destruct (String.eqb k "blockchain") eqn:E2.
    { apply String.eqb_eq in E2. subst k. exfalso. apply H. reflexivity. }
    destruct (String.eqb k "dex") eqn:E3.
    { apply String.eqb_eq in E3. subst k. exfalso. apply H. reflexivity. }
    destruct (String.eqb k "cex") eqn:E4.
    { apply String.eqb_eq in E4. subst k. exfalso. apply H. reflexivity. }
    destruct (String.eqb k "manual") eqn:E5.
    { apply String.eqb_eq in E5. subst k. exfalso. apply H. reflexivity. }
    destruct (String.eqb k "constructor"); [eexists; reflexivity|].
    destruct (String.eqb k "__proto__"); [eexists; reflexivity|].
    destruct (existsb _ _); [eexists; reflexivity|].
    exfalso. apply H. reflexivity. }
  unfold AssetReconciliationService.selectPreferredSource,
    AssetReconciliationService.prefersFirst.
  intros [(Ha & Hb) | (Ha & Hb)].
  - rewrite (priorityOf_ordinary a Ha). destruct (Hin b Hb) as [t ->].
    reflexivity.
  - rewrite (priorityOf_ordinary b Hb). destruct (Hin a Ha) as [t ->].
    reflexivity.
Qed.

(** C2, amended.  For a pair accepted by the service's predicate and
    decimals of the preferred asset within [toFixed]'s range [0..100],
    [mergeAssets] produces a balance whose amount is the sum of the two
    amounts as the language adds them, whose decimals are those of the
    preferred asset, and whose display string is that sum rendered to those
    decimals.  Between source types proper the preferred asset is the one
    of lower rank (on-chain and blockchain 1, dex 2, cex 3, manual or no
    source type 4, anything else 999), the first one on a tie.  For a pair
    accepted by the entity's predicate and decimals of the receiver within
    [0..100], [AssetEntity.merge] produces the same sum as amount, with the
    decimals of the receiver (no precedence) and the sum rendered to
    them. *)
Theorem C2_merge_balance (a b : AssetEntity.t) :
  let total :=
    Js.add (amount (AssetEntity._balance a)) (amount (AssetEntity._balance b))
  in
  let preferred := AssetReconciliationService.selectPreferredSource a b in
  (AssetReconciliationService.isSameAsset a b = true ->
   0 <= decimals (AssetEntity._balance preferred) <= 100 ->
   exists m,
     AssetReconciliationService.mergeAssets a b = Ok m
     /\ amount (AssetEntity._balance m) = total
     /\ decimals (AssetEntity._balance m)
        = decimals (AssetEntity._balance preferred)
     /\ Js.toFixed total (decimals (AssetEntity._balance preferred))
        = Ok (formatted (AssetEntity._balance m)))
  /\ (ordinarySource a -> ordinarySource b ->
      preferred = if rank a <=? rank b then a else b)
  /\ (AssetEntity.isSameAsset a b = true ->
      0 <= decimals (AssetEntity._balance a) <= 100 ->
      exists m,
        AssetEntity.merge a b = Ok m
        /\ amount (AssetEntity._balance m) = total
        /\ decimals (AssetEntity._balance m)
           = decimals (AssetEntity._balance a)
        /\ Js.toFixed total (decimals (AssetEntity._balance a))
           = Ok (formatted (AssetEntity._balance m))).
Proof.
  intros total preferred. split; [|split].
  - intros Hs Hd.
    destruct (toFixed_in_range total _ Hd) as [text Ht].
    eexists. split; [apply (mergeAssets_same _ _ _ Hs Ht)|].
    simpl. auto.
  - intros Ha Hb. unfold preferred,
      AssetReconciliationService.selectPreferredSource,
      AssetReconciliationService.prefersFirst.
    rewrite (priorityOf_ordinary a Ha), (priorityOf_ordinary b Hb).
    reflexivity.
  - intros Hs Hd.
    destruct (toFixed_in_range total _ Hd) as [text Ht].
    eexists. split; [apply (merge_same _ _ _ Hs Ht)|].
    simpl. auto.
Qed.

(** C2, witness: the "ETH duplicate sum" scenario, 1.5 + 2.5 at 18 decimals,
    and 0.1 + 0.2, which the language rounds up. *)
Lemma C2_merge_balance_witness :
  (exists m,
     AssetReconciliationService.mergeAssets ethOneAndHalf ethTwoAndHalf = Ok m
     /\ amount (AssetEntity._balance m) = 4%Q
     /\ decimals (AssetEntity._balance m) = 18
     /\ formatted (AssetEntity._balance m) = "4.000000000000000000")
  /\ (exists m,
        AssetEntity.merge ethTenth ethFifth = Ok m
        /\ amount (AssetEntity._balance m)
           = (1351079888211149 # 4503599627370496)%Q
        /\ decimals (AssetEntity._balance m) = 18
        /\ formatted (AssetEntity._balance m) = "0.300000000000000044")
  /\ AssetReconciliationService.selectPreferredSource
       ethFromExchange ethFromChain
     = ethFromChain.
Proof.
  destruct (C2_merge_balance ethOneAndHalf ethTwoAndHalf)
    as (Hservice & _ & _).
  destruct (C2_merge_balance ethTenth ethFifth) as (_ & _ & Hentity).
  destruct (C2_merge_balance ethFromExchange ethFromChain)
    as (_ & Hprefers & _).
  split; [|split].
  - destruct Hservice as (m & Hm & Ha & Hd & Hf);
      [reflexivity | simpl; lia |].
    exists m. split; [exact Hm|]. split; [rewrite Ha; vm_compute; reflexivity|].
    split; [rewrite Hd; reflexivity|].
    vm_compute in Hf. inversion Hf as [Hs]. symmetry. exact Hs.
  - destruct Hentity as (m & Hm & Ha & Hd & Hf);
      [reflexivity | simpl; lia |].
    exists m. split; [exact Hm|]. split; [rewrite Ha; vm_compute; reflexivity|].
    split; [rewrite Hd; reflexivity|].
    vm_compute in Hf. inversion Hf as [Hs]. symmetry. exact Hs.
  - rewrite Hprefers; reflexivity.
Defined.

(** A source type that names an inherited member of the lookup table:
    against a manual asset the second of the two is preferred, whichever
    side the member is on. *)
Example inherited_member_run :
  let odd := withProvenance ethNative "constructor" 6 in
  let manual := withProvenance ethNative "manual" 18 in
  AssetReconciliationService.selectPreferredSource odd manual = manual
  /\ AssetReconciliationService.selectPreferredSource manual odd = odd
  /\ AssetReconciliationService.selectPreferredSource odd odd = odd.
Proof. repeat split. Qed.

Example eth_duplicate_sum :
  rmap (fun m => formatted (AssetEntity._balance m))
       (AssetReconciliationService.mergeAssets ethOneAndHalf ethTwoAndHalf)
  = Ok "4.000000000000000000".
Proof. vm_compute. reflexivity. Qed.

End Merge.

Section MergePrice.

(** C3, counterexample.  [ethFetchedLate] has the greater
    [metadata.fetchedAt], yet [AssetEntity.merge] keeps the price of
    [ethQuotedLate], whose own [timestamp] is the later one. *)
Lemma C3_merge_price_counterexample :
  AssetEntity.isSameAsset ethQuotedLate ethFetchedLate = true
  /\ AssetReconciliationService.fetchTime ethQuotedLate = Js.Ms 1
  /\ AssetReconciliationService.fetchTime ethFetchedLate = Js.Ms 2
  /\ exists m,
       AssetEntity.merge ethQuotedLate ethFetchedLate = Ok m
       /\ AssetEntity._price m = Some (usd 2000 10)
       /\ AssetEntity._price m <> AssetEntity._price ethFetchedLate.
Proof.
  repeat split; try (vm_compute; reflexivity).
  eexists. split; [vm_compute; reflexivity|]. split; [reflexivity|].
  simpl. discriminate.
Qed.

Lemma selectMostRecentPrice_none (a b : AssetEntity.t) :
  AssetReconciliationService.selectMostRecentPrice a b = None <->
  AssetEntity._price a = None /\ AssetEntity._price b = None.
Proof.
  unfold AssetReconciliationService.selectMostRecentPrice.
  destruct (AssetEntity._price a), (AssetEntity._price b);
    try destruct (Js.time_geb _ _); split; intros H;
    try discriminate; try (destruct H; discriminate); auto.
Qed.

Lemma latestPrice_none (a b : AssetEntity.t) :
  AssetEntity.latestPrice a b = None <->
  AssetEntity._price a = None /\ AssetEntity._price b = None.
Proof.
  unfold AssetEntity.latestPrice.
  destruct (AssetEntity._price a), (AssetEntity._price b);
    try destruct (_ <? _); split; intros H;
    try discriminate; try (destruct H; discriminate); auto.
Qed.

(** C3, amended.  Whenever a merge is defined, the merged price is undefined
    exactly when both prices are, and it is the only price when only one
    side has one.  When both sides have one, the service's [mergeAssets]
    takes the price of the asset with the greater [metadata.fetchedAt]
    (the first on a tie), whereas [AssetEntity.merge] takes the price whose
    own [timestamp] is the greater (the second on a tie). *)
Theorem C3_merge_price (a b m : AssetEntity.t) :
  (AssetReconciliationService.mergeAssets a b = Ok m ->
   (AssetEntity._price m = None <->
      AssetEntity._price a = None /\ AssetEntity._price b = None)
   /\ (forall p, AssetEntity._price a = Some p -> AssetEntity._price b = None ->
                 AssetEntity._price m = Some p)
   /\ (forall q, AssetEntity._price a = None -> AssetEntity._price b = Some q ->
                 AssetEntity._price m = Some q)
   /\ (forall p q ta tb,
         AssetEntity._price a = Some p -> AssetEntity._price b = Some q ->
         AssetReconciliationService.fetchTime a = Js.Ms ta ->
         AssetReconciliationService.fetchTime b = Js.Ms tb ->
         (tb <= ta -> AssetEntity._price m = Some p)
         /\ (ta < tb -> AssetEntity._price m = Some q)))
  /\ (AssetEntity.merge a b = Ok m ->
      (AssetEntity._price m = None <->
         AssetEntity._price a = None /\ AssetEntity._price b = None)
      /\ (forall p, AssetEntity._price a = Some p ->
                    AssetEntity._price b = None ->
                    AssetEntity._price m = Some p)
      /\ (forall q, AssetEntity._price a = None ->
                    AssetEntity._price b = Some q ->
                    AssetEntity._price m = Some q)
      /\ (forall p q,
            AssetEntity._price a = Some p -> AssetEntity._price b = Some q ->
            (timestamp q < timestamp p -> AssetEntity._price m = Some p)
            /\ (timestamp p <= timestamp q -> AssetEntity._price m = Some q))).
Proof.
  split.
  - intros Hm. destruct (mergeAssets_inv _ _ _ Hm) as (Hs & text & Ht).
    rewrite (mergeAssets_same _ _ _ Hs Ht) in Hm. inversion Hm as [E]. clear Hm E.
    simpl. split; [apply selectMostRecentPrice_none|].
    unfold AssetReconciliationService.selectMostRecentPrice.
    repeat split; intros.
    + rewrite H, H0. reflexivity.
    + rewrite H, H0. reflexivity.
    + rewrite H, H0, H1, H2. simpl.
      destruct (tb <=? ta) eqn:E; [reflexivity|].
      apply Z.leb_gt in E. lia.
    + rewrite H, H0, H1, H2. simpl.
      destruct (tb <=? ta) eqn:E; [|reflexivity].
      apply Z.leb_le in E. lia.
  - intros Hm. destruct (merge_inv _ _ _ Hm) as (Hs & text & Ht & ->).
    simpl. split; [apply latestPrice_none|].
    unfold AssetEntity.latestPrice.
    repeat split; intros.
    + rewrite H, H0. reflexivity.
    + rewrite H, H0. reflexivity.
    + rewrite H, H0.
      destruct (timestamp q <? timestamp p) eqn:E; [reflexivity|].
      apply Z.ltb_ge in E. lia.
    + rewrite H, H0.
      destruct (timestamp q <? timestamp p) eqn:E; [|reflexivity].
      apply Z.ltb_lt in E. lia.
Qed.

(** C3, witness: the service merges the two priced assets above and keeps
    the price fetched last. *)
Lemma C3_merge_price_witness :
  AssetEntity._price mergedByService = Some (usd 2100 5).
Proof.
  destruct (C3_merge_price ethQuotedLate ethFetchedLate mergedByService)
    as [Hservice _].
  assert (Hm : AssetReconciliationService.mergeAssets
                 ethQuotedLate ethFetchedLate = Ok mergedByService)
    by (vm_compute; reflexivity).
  destruct (Hservice Hm) as (_ & _ & _ & Hboth).
  apply (Hboth (usd 2000 10) (usd 2100 5) 1 2);
    try reflexivity; lia.
Defined.

End MergePrice.

(** ** Insertion-ordered maps *)

Section JsMapFacts.

Context {V : Type}.

Lemma get_None_not_in (k : string) (m : JsMap.t V) :
  JsMap.get k m = None <-> ~ In k (JsMap.keys m).
Proof.
  induction m as [|[k' v] m IH]; simpl.
  - split; auto.
  - destruct (String.eqb k k') eqn:E.
    + apply String.eqb_eq in E. subst. split; [discriminate|].
      intro H. exfalso. apply H. now left.
    + apply String.eqb_neq in E. rewrite IH. split.
      * intros H [F|F]; [congruence | contradiction].
      * intros H F. apply H. now right.
Qed.

Lemma set_absent (k : string) (v : V) (m : JsMap.t V) :
  JsMap.get k m = None -> JsMap.set k v m = m ++ [(k, v)].
Proof.
  induction m as [|[k' v'] m IH]; simpl; [reflexivity|].
  destruct (String.eqb k k'); [discriminate|].
  intro H. now rewrite IH.
Qed.

Lemma set_present_keys (k : string) (v v0 : V) (m : JsMap.t V) :
  JsMap.get k m = Some v0 -> JsMap.keys (JsMap.set k v m) = JsMap.keys m.
Proof.
  induction m as [|[k' v'] m IH]; simpl; [discriminate|].
  destruct (String.eqb k k'); simpl; [reflexivity|].
  intro H. now rewrite IH.
Qed.

Lemma set_Forall (P : string * V -> Prop) (k : string) (v : V)
    (m : JsMap.t V) :
  Forall P m -> P (k, v) -> Forall P (JsMap.set k v m).
Proof.
  induction m as [|[k' v'] m IH]; simpl; intros Hm Hk.
  - constructor; auto.
  - inversion Hm; subst. destruct (String.eqb k k') eqn:E.
    + apply String.eqb_eq in E. subst. constructor; auto.
    + constructor; auto.
Qed.

Lemma get_Forall (P : string * V -> Prop) (k : string) (v : V)
    (m : JsMap.t V) :
  Forall P m -> JsMap.get k m = Some v -> P (k, v).
Proof.
  induction m as [|[k' v'] m IH]; simpl; intros Hm Hg; [discriminate|].
  inversion Hm; subst. destruct (String.eqb k k') eqn:E.
  - apply String.eqb_eq in E. inversion Hg. now subst.
  - auto.
Qed.

Lemma keys_app (m1 m2 : JsMap.t V) :
  JsMap.keys (m1 ++ m2) = JsMap.keys m1 ++ JsMap.keys m2.
Proof. unfold JsMap.keys. apply map_app. Qed.

Lemma NoDup_keys_set_absent (k : string) (v : V) (m : JsMap.t V) :
  NoDup (JsMap.keys m) -> JsMap.get k m = None ->
  NoDup (JsMap.keys (JsMap.set k v m)).
Proof.
  intros Hn Hg. rewrite (set_absent _ _ _ Hg), keys_app. simpl.
  apply get_None_not_in in Hg.
  apply NoDup_app; [assumption | repeat constructor; auto | ].
  intros x Hx [<-|[]]. contradiction.
Qed.

End JsMapFacts.

(** ** C4: reconciling twice *)

Section ReconcileTwice.

Lemma new_upperSymbol id symbol name type chain balance price contract image
    meta :
  upperSymbol (AssetEntity.new id symbol name type chain balance price
                 contract image meta).
Proof. unfold upperSymbol. simpl. now rewrite toUpperCase_idem. Qed.

(** *** The reconciliation service *)

Lemma mergeAssets_key (e a m : AssetEntity.t) :
  AssetReconciliationService.mergeAssets e a = Ok m ->
  AssetReconciliationService.generateAssetKey e
  = AssetReconciliationService.generateAssetKey a ->
  AssetReconciliationService.generateAssetKey m
  = AssetReconciliationService.generateAssetKey e.
Proof.
  intros Hm Hk. destruct (mergeAssets_inv _ _ _ Hm) as (Hs & text & Ht).
  rewrite (mergeAssets_same _ _ _ Hs Ht) in Hm. inversion Hm as [E]. clear Hm E.
  unfold AssetReconciliationService.generateAssetKey at 1. simpl.
  rewrite toUpperCase_idem.
  unfold AssetReconciliationService.selectPreferredSource.
  destruct (AssetReconciliationService.prefersFirst e a);
    [reflexivity | symmetry; exact Hk].
Qed.

Lemma service_loop_invariant (l : list AssetEntity.t) :
  forall m r,
    keyedBy AssetReconciliationService.generateAssetKey m ->
    NoDup (JsMap.keys m) ->
    AssetReconciliationService.reconcileLoop l m = Ok r ->
    keyedBy AssetReconciliationService.generateAssetKey r
    /\ NoDup (JsMap.keys r).
Proof.
  induction l as [|a l IH]; simpl; intros m r Hk Hn Hr.
  - inversion Hr. subst. auto.
  - destruct (JsMap.get _ m) as [e|] eqn:G.
    + destruct (AssetReconciliationService.mergeAssets e a) as [x|] eqn:M;
        simpl in Hr; [|discriminate].
      apply IH in Hr; auto.
      * apply set_Forall; auto. simpl.
        pose proof (get_Forall _ _ _ _ Hk G) as Ke. simpl in Ke.
        rewrite (mergeAssets_key _ _ _ M); congruence.
      * now rewrite (set_present_keys _ _ _ _ G).
    + apply IH in Hr; auto.
      * apply set_Forall; auto.
      * now apply NoDup_keys_set_absent.
Qed.

Lemma service_loop_fresh (m2 : JsMap.t AssetEntity.t) :
  forall m1,
    keyedBy AssetReconciliationService.generateAssetKey m2 ->
    NoDup (JsMap.keys (m1 ++ m2)) ->
    AssetReconciliationService.reconcileLoop (JsMap.values m2) m1
    = Ok (m1 ++ m2).
Proof.
  induction m2 as [|[k v] m2 IH]; simpl; intros m1 Hk Hn.
  - now rewrite app_nil_r.
  - inversion Hk as [|? ? Hkv Hk']; subst. simpl in Hkv. rewrite Hkv.
    assert (G : JsMap.get k m1 = None).
    { apply get_None_not_in. rewrite keys_app in Hn. simpl in Hn.
      apply NoDup_remove_2 in Hn. intro F. apply Hn.
      apply in_or_app. now left. }
    rewrite G, (set_absent _ _ _ G).
    replace (m1 ++ (k, v) :: m2) with ((m1 ++ [(k, v)]) ++ m2)
      by (now rewrite <- app_assoc).
    apply IH; auto. now rewrite <- app_assoc.
Qed.

Lemma service_reconcile_twice (l : list AssetEntity.t) :
  rbind (AssetReconciliationService.reconcile l)
        AssetReconciliationService.reconcile
  = AssetReconciliationService.reconcile l.
Proof.
  unfold AssetReconciliationService.reconcile at 1 3.
  destruct (AssetReconciliationService.reconcileLoop l JsMap.empty)
    as [r|] eqn:E; simpl; [|reflexivity].
  apply service_loop_invariant in E; [|constructor|constructor].
  destruct E as [Hk Hn].
  unfold AssetReconciliationService.reconcile.
  now rewrite (service_loop_fresh _ JsMap.empty Hk Hn).
Qed.

(** *** The aggregate *)

Lemma merge_upperSymbol (e a m : AssetEntity.t) :
  AssetEntity.merge e a = Ok m -> upperSymbol m.
Proof.
  intros Hm. destruct (merge_inv _ _ _ Hm) as (_ & text & _ & ->).
  apply new_upperSymbol.
Qed.

Lemma merge_key (e a m : AssetEntity.t) :
  upperSymbol e ->
  AssetEntity.merge e a = Ok m ->
  PortfolioAggregate.getAssetKey e = PortfolioAggregate.getAssetKey a ->
  PortfolioAggregate.getAssetKey m = PortfolioAggregate.getAssetKey e.
Proof.
  intros Hu Hm Hk. destruct (merge_inv _ _ _ Hm) as (Hs & text & _ & ->).
  revert Hk. unfold PortfolioAggregate.getAssetKey. simpl.
  rewrite <- Hu. unfold Js.or_else.
  destruct (Js.truthy (AssetEntity._contractAddress e)) eqn:Ce; simpl;
    rewrite ?Ce; simpl.
  - reflexivity.
  - destruct (Js.truthy (AssetEntity._contractAddress a)) eqn:Ca; simpl;
      rewrite ?Ca, ?Ce; simpl; [|reflexivity].
    unfold AssetEntity.isSameAsset in Hs. rewrite Ce in Hs. simpl in Hs.
    to_prop.
    replace (AssetEntity._chain a) with (AssetEntity._chain e).
    destruct (Js.truthy (AssetEntity._chain e)) eqn:Ch; [|reflexivity].
    intros ->. reflexivity.
Qed.

Lemma aggregate_loop_invariant (l : list AssetEntity.t) :
  forall m r,
    Forall upperSymbol l ->
    Forall (fun e => upperSymbol (snd e)) m ->
    keyedBy PortfolioAggregate.getAssetKey m ->
    NoDup (JsMap.keys m) ->
    PortfolioAggregate.reconcileLoop l m = Ok r ->
    keyedBy PortfolioAggregate.getAssetKey r /\ NoDup (JsMap.keys r).
Proof.
  induction l as [|a l IH]; simpl; intros m r Hl Hu Hk Hn Hr.
  - inversion Hr. subst. auto.
  - inversion Hl as [|? ? Ha Hl']; subst.
    destruct (JsMap.get _ m) as [e|] eqn:G.
    + destruct (AssetEntity.merge e a) as [x|] eqn:M;
        simpl in Hr; [|discriminate].
      pose proof (get_Forall _ _ _ _ Hk G) as Ke. simpl in Ke.
      pose proof (get_Forall _ _ _ _ Hu G) as Ue. simpl in Ue.
      apply IH in Hr; auto.
      * apply set_Forall; auto. simpl. eapply merge_upperSymbol; eauto.
      * apply set_Forall; auto. simpl.
        rewrite (merge_key _ _ _ Ue M); congruence.
      * now rewrite (set_present_keys _ _ _ _ G).
    + apply IH in Hr; auto.
      * apply set_Forall; auto.
      * apply set_Forall; auto.
      * now apply NoDup_keys_set_absent.
Qed.

Lemma aggregate_loop_fresh (m2 : JsMap.t AssetEntity.t) :
  forall m1,
    keyedBy PortfolioAggregate.getAssetKey m2 ->
    NoDup (JsMap.keys (m1 ++ m2)) ->
    PortfolioAggregate.reconcileLoop (JsMap.values m2) m1 = Ok (m1 ++ m2).
Proof.
  induction m2 as [|[k v] m2 IH]; simpl; intros m1 Hk Hn.
  - now rewrite app_nil_r.
  - inversion Hk as [|? ? Hkv Hk']; subst. simpl in Hkv. rewrite Hkv.
    assert (G : JsMap.get k m1 = None).
    { apply get_None_not_in. rewrite keys_app in Hn. simpl in Hn.
      apply NoDup_remove_2 in Hn. intro F. apply Hn.
      apply in_or_app. now left. }
    rewrite G, (set_absent _ _ _ G).
    replace (m1 ++ (k, v) :: m2) with ((m1 ++ [(k, v)]) ++ m2)
      by (now rewrite <- app_assoc).
    apply IH; auto. now rewrite <- app_assoc.
Qed.

(** C4.  Reconciling twice is reconciling once.  For the service,
    [reconcile (reconcile A) = reconcile A] as lists of assets, for every
    list [A] (an exception of the first pass is the outcome of both sides).
    For the aggregate, whose assets hold upper-cased symbols as its
    constructor stores them, a second [reconcile()] leaves the asset map as
    the first one made it: same keys, same assets, hence same balances. *)
Theorem C4_reconcile_idempotent (now now' : Z) (p : PortfolioAggregate.t) :
  (forall l : list AssetEntity.t,
     rbind (AssetReconciliationService.reconcile l)
           AssetReconciliationService.reconcile
     = AssetReconciliationService.reconcile l)
  /\ (Forall upperSymbol (PortfolioAggregate.assets p) ->
      rmap PortfolioAggregate._assets
           (rbind (PortfolioAggregate.reconcile now p)
                  (PortfolioAggregate.reconcile now'))
      = rmap PortfolioAggregate._assets (PortfolioAggregate.reconcile now p)).
Proof.
  split; [exact service_reconcile_twice|]. intros Hu.
  unfold PortfolioAggregate.reconcile at 1 3.
  destruct (PortfolioAggregate.reconcileLoop (PortfolioAggregate.assets p)
              JsMap.empty) as [r|] eqn:E; simpl; [|reflexivity].
  apply aggregate_loop_invariant in E; auto; try constructor.
  destruct E as [Hk Hn].
  unfold PortfolioAggregate.reconcile, PortfolioAggregate.assets. simpl.
  now rewrite (aggregate_loop_fresh _ JsMap.empty Hk Hn).
Qed.

Example duplicatedHoldings_reconciled :
  rmap (fun p => map (fun e => (fst e,
                                Qred (amount (AssetEntity._balance (snd e)))))
                     (PortfolioAggregate._assets p))
       (PortfolioAggregate.reconcile 1 duplicatedHoldings)
  = Ok [("ethereum:ETH:crypto", 4 # 1); ("ethereum:0xA0b8", 1 # 1)].
Proof. vm_compute. reflexivity. Qed.

(** C4, witness: a map with a duplicated holding. *)
Lemma C4_reconcile_idempotent_witness :
  rmap PortfolioAggregate._assets
       (rbind (PortfolioAggregate.reconcile 1 duplicatedHoldings)
              (PortfolioAggregate.reconcile 2))
  = rmap PortfolioAggregate._assets
         (PortfolioAggregate.reconcile 1 duplicatedHoldings).
Proof.
  destruct (C4_reconcile_idempotent 1 2 duplicatedHoldings) as [_ Haggregate].
  apply Haggregate. repeat constructor.
Defined.

End ReconcileTwice.

(** ** C9: the total value *)

Section TotalValue.






End TotalValue.

(** ** C6: the transitions of the circuit breaker *)

Section CircuitTransitions.

Import CircuitBreaker.

Lemma recordFailure_config (now : Z) (s : t) :
  config (recordFailure now s) = config s.
Proof.
  unfold recordFailure. destruct (state s); simpl; try reflexivity.
  destruct (_ <=? _); reflexivity.
Qed.

Lemma recordSuccess_config (now : Z) (s : t) :
  config (recordSuccess now s) = config s.
Proof.
  unfold recordSuccess. destruct (state s); simpl; try reflexivity.
  destruct (_ <=? _); reflexivity.
Qed.

(** While the failures accumulate on a closed breaker, either it is still
    closed with the counter below the threshold, or a failure has opened it
    and armed the retry instant. *)
Lemma recordFailures_closed (at_ : nat -> Z) (s : t) (n : nat) :
  state s = CLOSED ->
  let s' := recordFailures at_ n s in
  config s' = config s
  /\ ((state s' = CLOSED
       /\ failures s' = failures s + Z.of_nat n
       /\ (n = O \/ failures s' < failureThreshold (config s)))
      \/ (state s' = OPEN
          /\ exists k, (k < n)%nat
               /\ nextRetryTime s'
                  = Some (at_ k + recoveryTimeout (config s)))).
Proof.
  intros Hs. induction n as [|n IH]; simpl.
  - split; [reflexivity|]. left. repeat split; auto. lia.
  - destruct IH as [Hc [(Hst & Hf & _) | (Hst & k & Hk & Hr)]].
    + rewrite recordFailure_config. split; [assumption|].
      unfold recordFailure. rewrite Hst, Hc.
      destruct (failureThreshold (config s) <=? _) eqn:E; simpl.
      * right. split; [reflexivity|]. exists n. split; [lia|reflexivity].
      * left. apply Z.leb_gt in E. repeat split; try lia.
    + rewrite recordFailure_config. split; [assumption|].
      right. unfold recordFailure. rewrite Hst. simpl.
      split; [reflexivity|]. exists k. split; [lia|assumption].
Qed.

(** While the successes accumulate on a half-open breaker, either it is
    still half-open with the attempts below the retries, or it has closed
    with the failure counter at zero. *)
Lemma recordSuccesses_half_open (at_ : nat -> Z) (s : t) (n : nat) :
  state s = HALF_OPEN ->
  let s' := recordSuccesses at_ n s in
  config s' = config s
  /\ ((state s' = HALF_OPEN
       /\ halfOpenAttempts s' = halfOpenAttempts s + Z.of_nat n
       /\ (n = O \/ halfOpenAttempts s' < halfOpenRetries (config s)))
      \/ (state s' = CLOSED /\ failures s' = 0)).
Proof.
  intros Hs. induction n as [|n IH]; simpl.
  - split; [reflexivity|]. left. repeat split; auto. lia.
  - destruct IH as [Hc [(Hst & Hf & _) | (Hst & Hf)]].
    + rewrite recordSuccess_config. split; [assumption|].
      unfold recordSuccess. rewrite Hst, Hc.
      destruct (halfOpenRetries (config s) <=? _) eqn:E; simpl.
      * right. split; reflexivity.
      * left. apply Z.leb_gt in E. repeat split; try lia.
    + rewrite recordSuccess_config. split; [assumption|].
      right. unfold recordSuccess. rewrite Hst. simpl. split; reflexivity.
Qed.

Lemma reachable_counters (s : t) :
  reachable s ->
  0 <= failures s /\ 0 <= halfOpenAttempts s
  /\ (state s = OPEN -> exists retryAt, nextRetryTime s = Some retryAt).
Proof.
  induction 1 as [cfg | now s _ (Hf & Ha & Hn) | now s _ (Hf & Ha & Hn)
                  | now s _ (Hf & Ha & Hn) | s _ _];
    [ | unfold inspect | unfold recordSuccess | unfold recordFailure | ];
    try (destruct (state s) eqn:E);
    try (destruct (nextRetryTime s) as [r|] eqn:N);
    repeat match goal with
           | |- context [if ?c then _ else _] => destruct c
           end;
    simpl; rewrite ?E, ?N;
    repeat split; try lia; try (intros Hx; discriminate Hx); eauto.
Qed.

(** The failure that opens a closed breaker is the one that brings the
    counter to the threshold: the breaker is closed as long as the counter
    is below it, and open from then on, with the retry instant armed by
    that failure. *)
Lemma recordFailures_opening (at_ : nat -> Z) (s : t) (n : nat) :
  state s = CLOSED ->
  let opening := Z.to_nat (failureThreshold (config s) - failures s - 1) in
  let s' := recordFailures at_ n s in
  config s' = config s
  /\ ((n <= opening)%nat ->
      state s' = CLOSED /\ failures s' = failures s + Z.of_nat n)
  /\ ((opening < n)%nat ->
      state s' = OPEN
      /\ nextRetryTime s'
         = Some (at_ opening + recoveryTimeout (config s))).
Proof.
  intros Hs opening. induction n as [|n IH]; simpl.
  - split; [reflexivity|]. split; [|lia].
    intros _. split; [assumption|lia].
  - destruct IH as (Hc & Hclosed & Hopen).
    rewrite recordFailure_config. split; [assumption|]. split.
    + intros Hn. destruct Hclosed as (Hst & Hf); [lia|].
      unfold recordFailure. rewrite Hst, Hc, Hf.
      destruct (failureThreshold (config s) <=? _) eqn:E; simpl.
      * apply Z.leb_le in E. unfold opening in Hn. lia.
      * split; [reflexivity|lia].
    + intros Hn. destruct (Nat.eq_dec n opening) as [->|Hne].
      * destruct Hclosed as (Hst & Hf); [lia|].
        unfold recordFailure. rewrite Hst, Hc, Hf.
        destruct (failureThreshold (config s) <=? _) eqn:E; simpl.
        -- split; reflexivity.
        -- apply Z.leb_gt in E. unfold opening in E. lia.
      * destruct Hopen as (Hst & Hr); [lia|].
        unfold recordFailure. rewrite Hst. simpl.
        split; [reflexivity|assumption].
Qed.

(** With [failureThreshold = 0] the breaker that has recorded
    [failureThreshold] failures, that is none, is closed; with
    [halfOpenRetries = 0] the half-open breaker that has recorded
    [halfOpenRetries] successes is still half-open: a transition takes a
    recorded call. *)
Example thresholds_of_zero :
  state (recordFailures (fun _ => 0) (Z.to_nat 0) (new (mkConfig 0 1000 2)))
  = CLOSED
  /\ (let halfOpen :=
        inspect 2000 (recordFailure 0 (new (mkConfig 1 1000 0))) in
      state halfOpen = HALF_OPEN
      /\ state (recordSuccesses (fun _ => 2000) (Z.to_nat 0) halfOpen)
         = HALF_OPEN).
Proof. repeat split. Qed.

(** C6.  For a breaker whose thresholds are at least 1.  (a) If it is
    closed, it is open after [failureThreshold] consecutive recorded
    failures.  The failure that opens it is the one that brings the failure
    counter to the threshold (the last of them when the counter started at
    zero): the breaker is closed up to it and open after it, and the retry
    instant is the instant of that failure plus [recoveryTimeout]; an
    inspection finds the breaker half-open, with zero half-open attempts,
    exactly when that instant is reached.  (b) If it is open, it has a
    retry instant, an inspection at or after it makes the breaker half-open
    with zero half-open attempts, and an earlier inspection leaves it as it
    is.  (c) If it is half-open, it is closed, with the failure counter
    reset to zero, after [halfOpenRetries] recorded successes.  (d) If it
    is half-open, a recorded failure opens it with the retry instant
    [now + recoveryTimeout]. *)
Theorem C6_circuit_transitions (s : t) (at_ : nat -> Z) (now : Z) :
  reachable s ->
  1 <= failureThreshold (config s) ->
  1 <= halfOpenRetries (config s) ->
  (state s = CLOSED ->
   let n := Z.to_nat (failureThreshold (config s)) in
   let opening := Z.to_nat (failureThreshold (config s) - failures s - 1) in
   let retryAt := at_ opening + recoveryTimeout (config s) in
   let s' := recordFailures at_ n s in
   state s' = OPEN
   /\ nextRetryTime s' = Some retryAt
   /\ (opening < n)%nat
   /\ (failures s = 0 -> S opening = n)
   /\ (forall k, (k <= opening)%nat ->
                 state (recordFailures at_ k s) = CLOSED)
   /\ (forall k, (opening < k)%nat ->
                 state (recordFailures at_ k s) = OPEN
                 /\ nextRetryTime (recordFailures at_ k s) = Some retryAt)
   /\ (retryAt <= now ->
       getState now s' = (inspect now s', HALF_OPEN)
       /\ halfOpenAttempts (inspect now s') = 0)
   /\ (now < retryAt -> getState now s' = (s', OPEN)))
  /\ (state s = OPEN ->
      exists retryAt,
        nextRetryTime s = Some retryAt
        /\ (retryAt <= now ->
            state (inspect now s) = HALF_OPEN
            /\ halfOpenAttempts (inspect now s) = 0
            /\ getState now s = (inspect now s, HALF_OPEN))
        /\ (now < retryAt -> inspect now s = s))
  /\ (state s = HALF_OPEN ->
      let s' := recordSuccesses at_ (Z.to_nat (halfOpenRetries (config s))) s in
      state s' = CLOSED /\ failures s' = 0)
  /\ (state s = HALF_OPEN ->
      state (recordFailure now s) = OPEN
      /\ nextRetryTime (recordFailure now s)
         = Some (now + recoveryTimeout (config s))
      /\ halfOpenAttempts (recordFailure now s) = 0).
Proof.
  intros Hreach Ht Hr.
  destruct (reachable_counters s Hreach) as (Hf & Ha & Hn).
  split; [|split; [|split]].
  - intros Hs n opening retryAt s'.
    assert (Hlt : (opening < n)%nat) by (unfold opening, n; lia).
    destruct (recordFailures_opening at_ s n Hs) as (_ & _ & Hopen).
    destruct (Hopen Hlt) as (Hst & Hretry).
    split; [exact Hst|]. split; [exact Hretry|]. split; [exact Hlt|].
    split; [intros H0; unfold opening, n; rewrite H0; lia|].
    split; [|split; [|split]].
    + intros k Hk.
      now destruct (recordFailures_opening at_ s k Hs) as (_ & [Hc _] & _).
    + intros k Hk.
      destruct (recordFailures_opening at_ s k Hs) as (_ & _ & Ho).
      exact (Ho Hk).
    + intros Hnow. unfold getState, inspect.
      fold s' in Hst, Hretry. rewrite Hst, Hretry.
      unfold retryAt, opening in Hnow.
      destruct (_ <=? now) eqn:E; [|apply Z.leb_gt in E; lia].
      split; reflexivity.
    + intros Hnow. unfold getState, inspect.
      fold s' in Hst, Hretry. rewrite Hst, Hretry.
      unfold retryAt, opening in Hnow.
      destruct (_ <=? now) eqn:E; [apply Z.leb_le in E; lia|].
      rewrite Hst. reflexivity.
  - intros Hs. destruct (Hn Hs) as [retryAt Hretry]. exists retryAt.
    split; [assumption|].
    unfold getState, inspect. rewrite Hs, Hretry.
    destruct (retryAt <=? now) eqn:E.
    + apply Z.leb_le in E. repeat split. lia.
    + apply Z.leb_gt in E. split; [lia|reflexivity].
  - intros Hs.
    destruct (recordSuccesses_half_open at_ s
                (Z.to_nat (halfOpenRetries (config s))) Hs)
      as [_ [(_ & Hc & [Hz | Hlt]) | Hclosed]]; try lia.
    exact Hclosed.
  - intros Hs. unfold recordFailure. rewrite Hs. repeat split.
Qed.

(** C6, witness: three failures (at 0, 10 and 20 ms) open the breaker of the
    test suite; the retry instant is that of the third failure plus the
    recovery timeout. *)
Lemma C6_circuit_transitions_witness :
  state (recordFailures (fun k => Z.of_nat k * 10) 3 testedBreaker) = OPEN
  /\ nextRetryTime (recordFailures (fun k => Z.of_nat k * 10) 3 testedBreaker)
     = Some 1020
  /\ state (recordFailures (fun k => Z.of_nat k * 10) 2 testedBreaker)
     = CLOSED.
Proof.
  destruct (C6_circuit_transitions testedBreaker (fun k => Z.of_nat k * 10)
              1100) as (Hopen & _).
  - apply reach_new.
  - simpl. lia.
  - simpl. lia.
  - destruct (Hopen eq_refl) as (Hst & Hretry & _ & _ & Hclosed & _).
    split; [exact Hst|]. split; [exact Hretry|].
    apply (Hclosed 2%nat). simpl. lia.
Defined.

(** The "circuit trips" scenario, run end to end. *)
Example circuit_trips :
  let opened := recordFailures (fun k => Z.of_nat k * 10) 3 testedBreaker in
  let probing := inspect 1120 opened in
  state opened = OPEN
  /\ nextRetryTime opened = Some 1020
  /\ state (inspect 500 opened) = OPEN
  /\ state probing = HALF_OPEN
  /\ snd (allowRequest 1120 opened) = true
  /\ state (recordSuccess 1130 probing) = HALF_OPEN
  /\ state (recordSuccess 1140 (recordSuccess 1130 probing)) = CLOSED
  /\ state (recordFailure 1130 probing) = OPEN
  /\ nextRetryTime (recordFailure 1130 probing) = Some 2130.
Proof. repeat split. Qed.

End CircuitTransitions.

(** ** C7: admissions of the rate limiters in a 60-second window *)

Section RateLimit.

Lemma inWindow_nil (from : Z) : inWindow from [] = 0.
Proof. reflexivity. Qed.

Lemma inWindow_cons (from x : Z) (l : list Z) :
  inWindow from (x :: l)
  = (if within from x then 1 else 0) + inWindow from l.
Proof.
  unfold inWindow, within. simpl.
  destruct ((from <=? x) && (x <? from + 60000)); simpl List.length; lia.
Qed.

Lemma inWindow_app (from : Z) (l1 l2 : list Z) :
  inWindow from (l1 ++ l2) = inWindow from l1 + inWindow from l2.
Proof.
  unfold inWindow. rewrite filter_app, length_app. lia.
Qed.

Lemma inWindow_nonneg (from : Z) (l : list Z) : 0 <= inWindow from l.
Proof. unfold inWindow. lia. Qed.

Lemma filter_length_bound {A : Type} (f : A -> bool) (l : list A) :
  (List.length (filter f l) <= List.length l)%nat.
Proof.
  induction l as [|x l IH]; simpl; [lia|].
  destruct (f x); simpl; lia.
Qed.

Lemma filter_implied {A : Type} (f g : A -> bool) (l : list A) :
  (forall x, f x = true -> g x = true) ->
  filter f (filter g l) = filter f l.
Proof.
  intros H. induction l as [|x l IH]; simpl; [reflexivity|].
  destruct (g x) eqn:G; simpl.
  - now rewrite IH.
  - destruct (f x) eqn:F; [|assumption].
    apply H in F. congruence.
Qed.

(** *** Sliding window *)

Lemma sliding_window_run (cfg : RateLimitConfig) (calls : list Z) :
  forall (st : SlidingWindowRateLimiter.t) (hist : list Z) (lb : Z),
    SlidingWindowRateLimiter.config st = cfg ->
    sortedFrom lb calls ->
    (forall c, lb - 60000 <= c ->
       filter (Z.ltb c) hist
       = filter (Z.ltb c) (SlidingWindowRateLimiter.requestTimestamps st)) ->
    (forall from, inWindow from hist <= Z.max 0 (burstOrRate cfg)) ->
    forall from,
      inWindow from (hist ++ SlidingWindowRateLimiter.admitted calls st)
      <= Z.max 0 (burstOrRate cfg).
Proof.
  induction calls as [|now rest IH]; intros st hist lb Hc Hs Hagree Hb from.
  - simpl. rewrite app_nil_r. apply Hb.
  - destruct Hs as [Hlb Hs]. simpl.
    unfold SlidingWindowRateLimiter.allowRequest,
      SlidingWindowRateLimiter.cleanOldRequests,
      SlidingWindowRateLimiter.windowSize. simpl. rewrite Hc.
    set (ts := SlidingWindowRateLimiter.requestTimestamps st) in *.
    set (kept := filter (fun ts0 => now - 60000 <? ts0) ts).
    assert (Hkept : forall c, now - 60000 <= c ->
                      filter (Z.ltb c) kept = filter (Z.ltb c) hist).
    { intros c Hcut. unfold kept. rewrite filter_implied.
      - symmetry. apply Hagree. lia.
      - intros x Hx. apply Z.ltb_lt in Hx. apply Z.ltb_lt. lia. }
    destruct (Z.of_nat (List.length kept) <? burstOrRate cfg) eqn:E.
    + (* admitted *)
      apply Z.ltb_lt in E.
      replace (hist ++ now :: SlidingWindowRateLimiter.admitted rest
                 (SlidingWindowRateLimiter.mk cfg (kept ++ [now])))
        with ((hist ++ [now]) ++ SlidingWindowRateLimiter.admitted rest
                 (SlidingWindowRateLimiter.mk cfg (kept ++ [now])))
        by (now rewrite <- app_assoc).
      apply (IH _ _ now); auto.
      * intros c Hcut. simpl. rewrite !filter_app, Hkept; auto.
      * intros from'. rewrite inWindow_app, inWindow_cons, inWindow_nil.
        destruct (within from' now) eqn:W; [|specialize (Hb from'); lia].
        unfold within in W. apply andb_true_iff in W. destruct W as [W1 W2].
        apply Z.leb_le in W1. apply Z.ltb_lt in W2.
        assert (inWindow from' hist <= Z.of_nat (List.length kept)); [|lia].
        unfold inWindow.
        rewrite <- (filter_implied _ (Z.ltb (from' - 1))).
        -- rewrite <- Hkept by lia. rewrite filter_implied.
           ++ apply Nat2Z.inj_le, filter_length_bound.
           ++ intros x Hx. apply andb_true_iff in Hx. destruct Hx as [Hx _].
              apply Z.leb_le in Hx. apply Z.ltb_lt. lia.
        -- intros x Hx. apply andb_true_iff in Hx. destruct Hx as [Hx _].
           apply Z.leb_le in Hx. apply Z.ltb_lt. lia.
    + (* refused *)
      apply (IH _ _ now); auto.
      intros c Hcut. simpl. now rewrite Hkept.
Qed.

(** *** Token bucket *)

Lemma div_superadditive (a b : Z) : a / 60000 + b / 60000 <= (a + b) / 60000.
Proof. Z.div_mod_to_equations. lia. Qed.

Lemma floor_at_most (x R : Z) :
  x < 60000 * (Z.max 0 R + 1) -> x / 60000 <= Z.max 0 R.
Proof.
  intros H. assert (x / 60000 < Z.max 0 R + 1); [|lia].
  apply Z.div_lt_upper_bound; lia.
Qed.

Lemma refill_config (now : Z) (st : TokenBucketRateLimiter.t) :
  TokenBucketRateLimiter.config (TokenBucketRateLimiter.refillTokens now st)
  = TokenBucketRateLimiter.config st.
Proof.
  unfold TokenBucketRateLimiter.refillTokens.
  destruct (0 <? _); [|reflexivity]. destruct (0 <? _); reflexivity.
Qed.

Lemma refill_last (now : Z) (st : TokenBucketRateLimiter.t) :
  TokenBucketRateLimiter.lastRefillTime st <= now ->
  TokenBucketRateLimiter.lastRefillTime
    (TokenBucketRateLimiter.refillTokens now st) <= now.
Proof.
  intros H. unfold TokenBucketRateLimiter.refillTokens.
  destruct (0 <? _); [|assumption]. destruct (0 <? _); simpl; lia.
Qed.

Lemma refill_tokens_cap (now : Z) (st : TokenBucketRateLimiter.t) :
  TokenBucketRateLimiter.tokens st
  <= burstOrRate (TokenBucketRateLimiter.config st) ->
  TokenBucketRateLimiter.tokens (TokenBucketRateLimiter.refillTokens now st)
  <= burstOrRate (TokenBucketRateLimiter.config st).
Proof.
  intros H. unfold TokenBucketRateLimiter.refillTokens.
  destruct (0 <? _); [|assumption]. destruct (0 <? _); simpl; lia.
Qed.

(** A refill inside the window does not raise the potential. *)
Lemma refill_potential (e now : Z) (st : TokenBucketRateLimiter.t) :
  now < e ->
  TokenBucketRateLimiter.lastRefillTime st <= now ->
  potential e (TokenBucketRateLimiter.refillTokens now st) <= potential e st.
Proof.
  intros He Hl. unfold TokenBucketRateLimiter.refillTokens.
  destruct (0 <? now - TokenBucketRateLimiter.lastRefillTime st) eqn:E1;
    [|lia].
  unfold TokenBucketRateLimiter.tokensToAdd.
  destruct (0 <? (now - TokenBucketRateLimiter.lastRefillTime st)
                 * requestsPerMinute (TokenBucketRateLimiter.config st)
                 / 60000) eqn:E2; [|lia].
  apply Z.ltb_lt in E1, E2. unfold potential. simpl.
  set (R := requestsPerMinute (TokenBucketRateLimiter.config st)) in *.
  set (last := TokenBucketRateLimiter.lastRefillTime st) in *.
  set (tk := TokenBucketRateLimiter.tokens st) in *.
  assert (HR : 0 < R).
  { destruct (Z_lt_le_dec 0 R) as [|Hn]; [assumption|].
    assert ((now - last) * R <= 0) by nia.
    assert ((now - last) * R / 60000 <= 0)
      by (apply Z.div_le_upper_bound; lia).
    lia. }
  pose proof (div_superadditive ((now - last) * R) ((e - 1 - now) * R)) as S.
  replace ((now - last) * R + (e - 1 - now) * R) with ((e - 1 - last) * R)
    in S by ring.
  assert (0 <= (e - 1 - now) * R / 60000)
    by (apply Z.div_pos; [nia | lia]).
  lia.
Qed.

(** Right after a refill at an instant of the window, the potential is at
    most the capacity plus one minute of refills. *)
Lemma refill_potential_bound (from now : Z) (st : TokenBucketRateLimiter.t) :
  from <= now < from + 60000 ->
  TokenBucketRateLimiter.lastRefillTime st <= now ->
  TokenBucketRateLimiter.tokens st
  <= burstOrRate (TokenBucketRateLimiter.config st) ->
  potential (from + 60000) (TokenBucketRateLimiter.refillTokens now st)
  <= Z.max 0 (burstOrRate (TokenBucketRateLimiter.config st))
     + Z.max 0 (requestsPerMinute (TokenBucketRateLimiter.config st)).
Proof.
  intros Hw Hl Hcap.
  pose proof (refill_tokens_cap now st Hcap) as Hcap'.
  unfold potential. rewrite refill_config.
  set (R := requestsPerMinute (TokenBucketRateLimiter.config st)) in *.
  set (cap := burstOrRate (TokenBucketRateLimiter.config st)) in *.
  assert (Hfloor :
    ((from + 60000 - 1
      - TokenBucketRateLimiter.lastRefillTime
          (TokenBucketRateLimiter.refillTokens now st)) * R) / 60000
    <= Z.max 0 R); [|lia].
  apply floor_at_most.
  unfold TokenBucketRateLimiter.refillTokens.
  fold R.
  set (last := TokenBucketRateLimiter.lastRefillTime st) in *.
  assert (Hwin : forall t, last <= t <= now ->
            (from + 60000 - 1 - t) * R < 60000 * (Z.max 0 R + 1)
            \/ 0 <= R).
  { intros t Ht. destruct (Z_lt_le_dec R 0) as [Hneg|Hpos]; [left|now right].
    rewrite Z.max_l by lia. nia. }
  assert (Hnow : (from + 60000 - 1 - now) * R < 60000 * (Z.max 0 R + 1)).
  { destruct (Hwin now) as [|Hpos]; [lia|assumption|].
    rewrite Z.max_r by lia. nia. }
  destruct (0 <? now - last) eqn:E1.
  - unfold TokenBucketRateLimiter.tokensToAdd. fold R.
    destruct (0 <? (now - last) * R / 60000) eqn:E2;
      cbn [TokenBucketRateLimiter.lastRefillTime].
    + exact Hnow.
    + fold last. apply Z.ltb_ge in E2. apply Z.ltb_lt in E1.
      assert (Hsmall : (now - last) * R < 60000).
      { destruct (Z_lt_le_dec ((now - last) * R) 60000) as [|Hbig];
          [assumption|].
        assert (1 <= (now - last) * R / 60000)
          by (apply Z.div_le_lower_bound; lia).
        lia. }
      destruct (Hwin last) as [|Hpos]; [lia|assumption|].
      rewrite Z.max_r in * by lia.
      replace ((from + 60000 - 1 - last) * R)
        with ((from + 60000 - 1 - now) * R + (now - last) * R) by ring.
      assert ((from + 60000 - 1 - now) * R <= 59999 * R)
        by (apply Z.mul_le_mono_nonneg_r; lia).
      lia.
  - fold last. apply Z.ltb_ge in E1.
    replace last with now by lia. exact Hnow.
Qed.

Lemma admitted_after_window (from : Z) (calls : list Z) :
  forall (st : TokenBucketRateLimiter.t) (lb : Z),
    sortedFrom lb calls -> from + 60000 <= lb ->
    inWindow from (TokenBucketRateLimiter.admitted calls st) = 0.
Proof.
  induction calls as [|now rest IH]; intros st lb Hs Hlb; [reflexivity|].
  destruct Hs as [Hn Hs]. simpl.
  destruct (TokenBucketRateLimiter.allowRequest now st) as [st' ok].
  destruct ok.
  - rewrite inWindow_cons. unfold within.
    destruct (now <? from + 60000) eqn:E; [apply Z.ltb_lt in E; lia|].
    rewrite andb_false_r. rewrite (IH st' now); auto. lia.
  - apply (IH st' now); auto. lia.
Qed.

(** Inside the window every admission is paid for by the potential. *)
Lemma token_bucket_window (from : Z) (calls : list Z) :
  forall (st : TokenBucketRateLimiter.t) (lb : Z),
    sortedFrom lb calls ->
    TokenBucketRateLimiter.lastRefillTime st <= lb ->
    inWindow from (TokenBucketRateLimiter.admitted calls st)
    <= potential (from + 60000) st.
Proof.
  induction calls as [|now rest IH]; intros st lb Hs Hl.
  - simpl. unfold potential. rewrite inWindow_nil. lia.
  - destruct Hs as [Hn Hs].
    destruct (Z_lt_le_dec now (from + 60000)) as [Hin|Hout].
    + simpl. unfold TokenBucketRateLimiter.allowRequest.
      pose proof (refill_potential (from + 60000) now st Hin) as Hp.
      pose proof (refill_last now st) as Hl'.
      set (st1 := TokenBucketRateLimiter.refillTokens now st) in *.
      destruct (0 <? TokenBucketRateLimiter.tokens st1) eqn:E.
      * apply Z.ltb_lt in E. rewrite inWindow_cons.
        set (st2 := TokenBucketRateLimiter.mk _ _ _).
        assert (H2 : inWindow from (TokenBucketRateLimiter.admitted rest st2)
                     <= potential (from + 60000) st2)
          by (apply (IH st2 now); [assumption | simpl; lia]).
        assert (potential (from + 60000) st2 + 1
                = potential (from + 60000) st1)
          by (unfold potential, st2; simpl; lia).
        destruct (within from now); lia.
      * assert (H2 : inWindow from (TokenBucketRateLimiter.admitted rest st1)
                     <= potential (from + 60000) st1)
          by (apply (IH st1 now); [assumption | lia]).
        lia.
    + rewrite (admitted_after_window from (now :: rest) st now).
      * unfold potential. lia.
      * simpl. split; [lia | assumption].
      * assumption.
Qed.

Lemma token_bucket_run (from : Z) (calls : list Z) :
  forall (st : TokenBucketRateLimiter.t) (lb : Z),
    sortedFrom lb calls ->
    TokenBucketRateLimiter.lastRefillTime st <= lb ->
    TokenBucketRateLimiter.tokens st
    <= burstOrRate (TokenBucketRateLimiter.config st) ->
    inWindow from (TokenBucketRateLimiter.admitted calls st)
    <= Z.max 0 (burstOrRate (TokenBucketRateLimiter.config st))
       + Z.max 0 (requestsPerMinute (TokenBucketRateLimiter.config st)).
Proof.
  induction calls as [|now rest IH]; intros st lb Hs Hl Hcap.
  - simpl. rewrite inWindow_nil. lia.
  - destruct Hs as [Hn Hs].
    assert (Hl1 : TokenBucketRateLimiter.lastRefillTime
                    (TokenBucketRateLimiter.refillTokens now st) <= now)
      by (apply refill_last; lia).
    pose proof (refill_tokens_cap now st Hcap) as Hcap1.
    rewrite <- (refill_config now st) in Hcap1 |- *.
    destruct (Z_lt_le_dec now from) as [Hbefore|Hfrom].
    + (* before the window: the call is not counted *)
      simpl. unfold TokenBucketRateLimiter.allowRequest.
      set (st1 := TokenBucketRateLimiter.refillTokens now st) in *.
      destruct (0 <? TokenBucketRateLimiter.tokens st1) eqn:E.
      * rewrite inWindow_cons. unfold within.
        destruct (from <=? now) eqn:F; [apply Z.leb_le in F; lia|].
        cbn [andb]. rewrite Z.add_0_l.
        apply (IH (TokenBucketRateLimiter.mk
                     (TokenBucketRateLimiter.config st1)
                     (TokenBucketRateLimiter.tokens st1 - 1)
                     (TokenBucketRateLimiter.lastRefillTime st1)) now);
          cbn [TokenBucketRateLimiter.config TokenBucketRateLimiter.tokens
               TokenBucketRateLimiter.lastRefillTime];
          try assumption; lia.
      * apply (IH st1 now); assumption.
    + destruct (Z_lt_le_dec now (from + 60000)) as [Hin|Hout].
      * (* the first call of the window *)
        assert (Hb : potential (from + 60000)
                       (TokenBucketRateLimiter.refillTokens now st)
                     <= Z.max 0 (burstOrRate (TokenBucketRateLimiter.config st))
                        + Z.max 0 (requestsPerMinute
                                     (TokenBucketRateLimiter.config st)))
          by (apply refill_potential_bound;
              [lia | lia | exact Hcap]).
        rewrite <- (refill_config now st) in Hb.
        simpl. unfold TokenBucketRateLimiter.allowRequest.
        set (st1 := TokenBucketRateLimiter.refillTokens now st) in *.
        destruct (0 <? TokenBucketRateLimiter.tokens st1) eqn:E.
        -- apply Z.ltb_lt in E. rewrite inWindow_cons.
           set (st2 := TokenBucketRateLimiter.mk
                         (TokenBucketRateLimiter.config st1)
                         (TokenBucketRateLimiter.tokens st1 - 1)
                         (TokenBucketRateLimiter.lastRefillTime st1)).
           assert (H2 : inWindow from
                          (TokenBucketRateLimiter.admitted rest st2)
                        <= potential (from + 60000) st2)
             by (apply (token_bucket_window from rest st2 now);
                 [assumption | simpl; lia]).
           assert (potential (from + 60000) st2 + 1
                   = potential (from + 60000) st1)
             by (unfold potential, st2; simpl; lia).
           destruct (within from now); lia.
        -- assert (H2 : inWindow from
                          (TokenBucketRateLimiter.admitted rest st1)
                        <= potential (from + 60000) st1)
             by (apply (token_bucket_window from rest st1 now);
                 [assumption | lia]).
           lia.
      * rewrite (admitted_after_window from (now :: rest) st now).
        -- lia.
        -- simpl. split; [lia | assumption].
        -- assumption.
Qed.

(** C7, counterexample.  A token bucket with [R = B = 2], created at 0,
    admits the calls at 0, 0 and 30000 ms: three admissions inside one
    window of 60 seconds, one more than [max(R, B)]. *)
Lemma C7_rate_limit_counterexample :
  TokenBucketRateLimiter.admitted [0; 0; 30000]
    (TokenBucketRateLimiter.new 0 twoPerMinute) = [0; 0; 30000]
  /\ inWindow 0 (TokenBucketRateLimiter.admitted [0; 0; 30000]
                   (TokenBucketRateLimiter.new 0 twoPerMinute)) = 3
  /\ claimedBound twoPerMinute = 2.
Proof. repeat split. Qed.

(** C7, amended.  For calls at non-decreasing instants, starting with a
    fresh limiter: the sliding-window limiter admits, in any window
    [[from, from + 60000)], at most [B || R] requests (at most 0 when that is
    negative), which is at most [max(R, B)]; the token-bucket limiter admits
    in any such window at most the bucket capacity [B || R] plus [R], the
    refill of one minute. *)
Theorem C7_rate_limit_admittance (cfg : RateLimitConfig) (created : Z)
    (calls : list Z) (from : Z) :
  sortedFrom created calls ->
  inWindow from
    (SlidingWindowRateLimiter.admitted calls (SlidingWindowRateLimiter.new cfg))
  <= Z.max 0 (burstOrRate cfg)
  /\ Z.max 0 (burstOrRate cfg) <= Z.max 0 (claimedBound cfg)
  /\ inWindow from
       (TokenBucketRateLimiter.admitted calls
          (TokenBucketRateLimiter.new created cfg))
     <= Z.max 0 (burstOrRate cfg) + Z.max 0 (requestsPerMinute cfg).
Proof.
  intros Hs. split; [|split].
  - change (SlidingWindowRateLimiter.admitted calls
              (SlidingWindowRateLimiter.new cfg))
      with ([] ++ SlidingWindowRateLimiter.admitted calls
                    (SlidingWindowRateLimiter.new cfg)).
    apply (sliding_window_run cfg calls _ [] created); auto.
    intros from'. rewrite inWindow_nil. lia.
  - unfold claimedBound, burstOrRate.
    destruct (burstLimit cfg) as [b|]; [|lia].
    destruct (b =? 0); lia.
  - apply (token_bucket_run from calls
             (TokenBucketRateLimiter.new created cfg) created); simpl; auto;
      lia.
Qed.

(** C7, witness: the limiters of the test suite, 60 per minute with a burst
    of 10, called every 100 ms for two seconds. *)
Lemma C7_rate_limit_admittance_witness :
  inWindow 0
    (SlidingWindowRateLimiter.admitted everyHundredMs
       (SlidingWindowRateLimiter.new testedLimits)) <= 10
  /\ inWindow 0
       (TokenBucketRateLimiter.admitted everyHundredMs
          (TokenBucketRateLimiter.new 0 testedLimits)) <= 10 + 60.
Proof.
  destruct (C7_rate_limit_admittance testedLimits 0 everyHundredMs 0)
    as (Hsliding & _ & Hbucket).
  - simpl. repeat split; lia.
  - split; [exact Hsliding | exact Hbucket].
Defined.

Example limits_in_two_seconds :
  inWindow 0 (SlidingWindowRateLimiter.admitted everyHundredMs
                (SlidingWindowRateLimiter.new testedLimits)) = 10
  /\ inWindow 0 (TokenBucketRateLimiter.admitted everyHundredMs
                   (TokenBucketRateLimiter.new 0 testedLimits)) = 11.
Proof. split; vm_compute; reflexivity. Qed.

End RateLimit.

(** ** The aggregation service: effects and outcomes *)

Section ServiceFacts.

Import PortfolioAggregationService.

Lemma snd_bind {A B : Type} (m : io A) (k : A -> io B) :
  snd (bind m k) = rbind (snd m) (fun a => snd (k a)).
Proof.
  destruct m as [tr [a|e]]; simpl; [|reflexivity].
  destruct (k a); reflexivity.
Qed.

Lemma fst_bind {A B : Type} (m : io A) (k : A -> io B) :
  fst (bind m k)
  = fst m ++ match snd m with Ok a => fst (k a) | Throw _ => [] end.
Proof.
  destruct m as [tr [a|e]]; simpl; [|now rewrite app_nil_r].
  destruct (k a); reflexivity.
Qed.

Lemma snd_catch {A : Type} (m : io A) (h : string -> io A) :
  snd (catch m h)
  = match snd m with Ok a => Ok a | Throw e => snd (h e) end.
Proof.
  destruct m as [tr [a|e]]; simpl; [reflexivity|].
  destruct (h e); reflexivity.
Qed.

Lemma fst_catch {A : Type} (m : io A) (h : string -> io A) :
  fst (catch m h)
  = fst m ++ match snd m with Ok _ => [] | Throw e => fst (h e) end.
Proof.
  destruct m as [tr [a|e]]; simpl; [now rewrite app_nil_r|].
  destruct (h e); reflexivity.
Qed.

Lemma events_app (tr1 tr2 : list effect) :
  events (tr1 ++ tr2) = events tr1 ++ events tr2.
Proof. unfold events. apply flat_map_app. Qed.

Lemma events_fetchFromSource (this : t) (s : IntegrationSource)
    (addrs : JsMap.t (list string)) :
  events (fst (fetchFromSource this s addrs)) = [].
Proof.
  unfold fetchFromSource.
  destruct (integrationsGet s (integrations this)) as [i|]; [|reflexivity].
  destruct (isConnected i); simpl.
  - destruct (Nat.eqb _ 0); [reflexivity|].
    simpl. destruct (fetchAssets i _); reflexivity.
  - destruct (connect i); [|reflexivity].
    destruct (Nat.eqb _ 0); [reflexivity|].
    simpl. destruct (fetchAssets i _); reflexivity.
Qed.

Lemma allSettled_unfold (this : t) (s : IntegrationSource)
    (rest : list IntegrationSource) (addrs : JsMap.t (list string)) :
  allSettled this (s :: rest) addrs
  = (fst (fetchFromSource this s addrs) ++ fst (allSettled this rest addrs),
     (s, snd (fetchFromSource this s addrs))
     :: snd (allSettled this rest addrs)).
Proof.
  simpl. destruct (fetchFromSource this s addrs).
  destruct (allSettled this rest addrs). reflexivity.
Qed.

Lemma snd_allSettled (this : t) (l : list IntegrationSource)
    (addrs : JsMap.t (list string)) :
  snd (allSettled this l addrs)
  = map (fun s => (s, snd (fetchFromSource this s addrs))) l.
Proof.
  induction l as [|s l IH]; [reflexivity|].
  rewrite allSettled_unfold. simpl. now rewrite IH.
Qed.

Lemma events_allSettled (this : t) (l : list IntegrationSource)
    (addrs : JsMap.t (list string)) :
  events (fst (allSettled this l addrs)) = [].
Proof.
  induction l as [|s l IH]; [reflexivity|].
  rewrite allSettled_unfold. simpl.
  now rewrite events_app, events_fetchFromSource, IH.
Qed.

Lemma events_processResults (now : Z)
    (results : list (IntegrationSource * result (list AssetEntity.t))) :
  forall p, events (fst (processResults now results p)) = [].
Proof.
  induction results as [|[s [assets|e]] rest IH]; intros p; simpl.
  - reflexivity.
  - destruct (PortfolioAggregate.addAssets now _ assets) as [p2|]; simpl;
      [|reflexivity].
    specialize (IH p2). destruct (processResults now rest p2). exact IH.
  - specialize (IH p). destruct (processResults now rest p). exact IH.
Qed.

Lemma events_enrichWithPrices (this : t) (p : PortfolioAggregate.t) :
  events (fst (enrichWithPrices this p)) = [].
Proof.
  unfold enrichWithPrices. destruct (Nat.eqb _ 0); [reflexivity|].
  simpl. destruct (getBatchPrices this _); reflexivity.
Qed.

Lemma aggregateFresh_eq (this : t) (options : AggregationOptions)
    (portfolioId : string) :
  aggregateFresh this options portfolioId
  = bind (fst (allSettled this (sourcesToFetch this options)
                 (addresses options)), Ok tt)
         (fun _ => settle this
                     (PortfolioAggregate.mk portfolioId (userId options)
                        JsMap.empty [] (nowAtBuild this))
                     (snd (allSettled this (sourcesToFetch this options)
                             (addresses options)))).
Proof.
  unfold aggregateFresh.
  destruct (allSettled this _ (addresses options)). reflexivity.
Qed.

Lemma events_settle (this : t) (portfolio : PortfolioAggregate.t)
    (results : list (IntegrationSource * result (list AssetEntity.t))) :
  events (fst (settle this portfolio results)) = [].
Proof.
  unfold settle.
  rewrite fst_catch, events_app.
  rewrite fst_bind, events_app, events_processResults.
  rewrite snd_bind.
  destruct (snd (processResults _ results _)) as [p1|]; [|reflexivity].
  cbn [rbind app]. rewrite fst_bind, snd_bind. cbn [fst snd app].
  destruct (PortfolioAggregate.reconcile _ p1) as [p2|]; [|reflexivity].
  cbn [rbind]. rewrite fst_bind, snd_bind, events_app, events_enrichWithPrices.
  destruct (snd (enrichWithPrices this p2)) as [p3|]; [|reflexivity].
  cbn [rbind app]. destruct (save this p3); reflexivity.
Qed.

Lemma events_aggregateFresh (this : t) (options : AggregationOptions)
    (portfolioId : string) :
  events (fst (aggregateFresh this options portfolioId)) = [].
Proof.
  rewrite aggregateFresh_eq, fst_bind. cbn [fst snd].
  now rewrite events_app, events_allSettled, events_settle.
Qed.

(** The service hands no domain event to anyone, whatever the call. *)
Lemma events_aggregatePortfolio (this : t) (options : AggregationOptions) :
  events (fst (aggregatePortfolio this options)) = [].
Proof.
  unfold aggregatePortfolio. destruct (forceRefresh options); simpl.
  - apply events_aggregateFresh.
  - destruct (findById this _) as [[c|]|]; simpl; try reflexivity.
    + destruct (isCacheValid _ c); [reflexivity|].
      pose proof (events_aggregateFresh this options
                    (generatePortfolioId (nowAtStart this) (userId options)))
        as H.
      destruct (aggregateFresh this options _). exact H.
    + pose proof (events_aggregateFresh this options
                    (generatePortfolioId (nowAtStart this) (userId options)))
        as H.
      destruct (aggregateFresh this options _). exact H.
Qed.

End ServiceFacts.

(** ** C8: the cache short-circuit *)

Section CacheHit.

Import PortfolioAggregationService.

(** C8.  With [forceRefresh] false (or absent), when the repository holds a
    portfolio under the derived id whose age at the check is below the cache
    lifetime, a constant 300 000 ms, [aggregatePortfolio] returns that
    portfolio unchanged; its only effect is the repository lookup, so no
    provider is connected or fetched. *)
Theorem C8_cache_hit (this : t) (options : AggregationOptions)
    (cached : PortfolioAggregate.t) :
  forceRefresh options = false ->
  findById this (generatePortfolioId (nowAtStart this) (userId options))
  = Ok (Some cached) ->
  nowAtCacheCheck this - PortfolioAggregate._lastUpdated cached < 300000 ->
  aggregatePortfolio this options
  = ([FindById (generatePortfolioId (nowAtStart this) (userId options))],
     Ok cached)
  /\ providerCalls (fst (aggregatePortfolio this options)) = []
  /\ cacheTimeout = 300000.
Proof.
  intros Hf Hc Ha.
  assert (E : aggregatePortfolio this options
              = ([FindById (generatePortfolioId (nowAtStart this)
                              (userId options))], Ok cached)).
  { unfold aggregatePortfolio. rewrite Hf. simpl. rewrite Hc. simpl.
    unfold isCacheValid.
    destruct (_ <? cacheTimeout) eqn:E; [reflexivity|].
    apply Z.ltb_ge in E. unfold cacheTimeout in E. lia. }
  rewrite E. repeat split.
Qed.

End CacheHit.

(** ** C10: what a refresh asks of the providers *)

Section Refresh.

Import PortfolioAggregationService.

Lemma get_allEmpty (addrs : JsMap.t (list string)) (k : string)
    (l : list string) :
  allEmpty addrs -> JsMap.get k addrs = Some l -> l = [].
Proof.
  intros Ha Hg.
  apply (get_Forall (fun e => snd e = []) k l addrs Ha Hg).
Qed.

Lemma get_set_same {V : Type} (k : string) (v : V) (m : JsMap.t V) :
  JsMap.get k (JsMap.set k v m) = Some v.
Proof.
  induction m as [|[k' v'] m IH]; simpl.
  - now rewrite String.eqb_refl.
  - destruct (String.eqb k k') eqn:E; simpl; rewrite E; auto.
Qed.

Lemma get_set_other {V : Type} (k k' : string) (v : V) (m : JsMap.t V) :
  k' <> k -> JsMap.get k' (JsMap.set k v m) = JsMap.get k' m.
Proof.
  intros Hne. induction m as [|[k0 v0] m IH]; simpl.
  - apply String.eqb_neq in Hne. now rewrite Hne.
  - destruct (String.eqb k k0) eqn:E; simpl.
    + apply String.eqb_eq in E. subst k0.
      apply String.eqb_neq in Hne. now rewrite Hne.
    + destruct (String.eqb k' k0); auto.
Qed.

Lemma extractLoop_allEmpty (l : list AssetEntity.t) :
  forall addrs, allEmpty addrs -> allEmpty (extractLoop l addrs).
Proof.
  induction l as [|a l IH]; intros addrs Ha; simpl; [assumption|].
  destruct (Js.truthy (AssetEntity._chain a)); [|auto].
  apply IH. apply set_Forall; [assumption|]. simpl.
  destruct (JsMap.get (Js.str (AssetEntity._chain a)) addrs) as [x|] eqn:G;
    [|reflexivity].
  apply (get_allEmpty addrs _ x Ha G).
Qed.

Lemma extractLoop_keeps (l : list AssetEntity.t) :
  forall addrs k,
    allEmpty addrs -> JsMap.get k addrs = Some [] ->
    JsMap.get k (extractLoop l addrs) = Some [].
Proof.
  induction l as [|a l IH]; intros addrs k Ha Hk; simpl; [assumption|].
  destruct (Js.truthy (AssetEntity._chain a)); [|auto].
  assert (Hv : match JsMap.get (Js.str (AssetEntity._chain a)) addrs with
               | Some x => x
               | None => []
               end = []).
  { destruct (JsMap.get (Js.str (AssetEntity._chain a)) addrs)
      as [x|] eqn:G; [|reflexivity].
    apply (get_allEmpty addrs _ x Ha G). }
  rewrite Hv. apply IH.
  - apply set_Forall; auto.
  - destruct (String.eqb k (Js.str (AssetEntity._chain a))) eqn:E.
    + apply String.eqb_eq in E. subst k. apply get_set_same.
    + apply String.eqb_neq in E. now rewrite get_set_other.
Qed.

Lemma extractLoop_covers (l : list AssetEntity.t) :
  forall addrs a,
    allEmpty addrs -> In a l -> Js.truthy (AssetEntity._chain a) = true ->
    JsMap.get (Js.str (AssetEntity._chain a)) (extractLoop l addrs) = Some [].
Proof.
  induction l as [|b l IH]; intros addrs a Ha Hin Hc; [contradiction|].
  simpl. destruct Hin as [->|Hin].
  - rewrite Hc.
    assert (Hv : match JsMap.get (Js.str (AssetEntity._chain a)) addrs with
                 | Some x => x
                 | None => []
                 end = []).
    { destruct (JsMap.get (Js.str (AssetEntity._chain a)) addrs)
        as [x|] eqn:G; [|reflexivity].
      apply (get_allEmpty addrs _ x Ha G). }
    rewrite Hv. apply extractLoop_keeps.
    + apply set_Forall; auto.
    + apply get_set_same.
  - destruct (Js.truthy (AssetEntity._chain b)); [|auto].
    apply IH; auto. apply set_Forall; [assumption|]. simpl.
    destruct (JsMap.get (Js.str (AssetEntity._chain b)) addrs) as [x|] eqn:G;
      [|reflexivity].
    apply (get_allEmpty addrs _ x Ha G).
Qed.

Lemma flat_map_allEmpty (f : string -> bool) (addrs : JsMap.t (list string)) :
  allEmpty addrs ->
  flat_map (fun entry : string * list string =>
              if f (fst entry) then snd entry else []) addrs = [].
Proof.
  induction addrs as [|[k v] m IH]; intros Ha; simpl; [reflexivity|].
  inversion Ha as [|? ? Hv Hm]; subst. simpl in Hv. subst v.
  rewrite IH by assumption. now destruct (f k).
Qed.

Lemma relevant_allEmpty (s : IntegrationSource) (addrs : JsMap.t (list string)) :
  allEmpty addrs -> s <> ROBINHOOD -> getRelevantAddresses s addrs = [].
Proof.
  intros Ha Hs. unfold getRelevantAddresses. destruct s.
  - now rewrite (flat_map_allEmpty (includes evmChains) addrs Ha).
  - destruct (JsMap.get "solana" addrs) as [l|] eqn:G; [|reflexivity].
    now rewrite (get_allEmpty addrs _ l Ha G).
  - contradiction.
Qed.

Lemma fetch_nothing (this : t) (s : IntegrationSource)
    (addrs : JsMap.t (list string)) :
  getRelevantAddresses s addrs = [] ->
  (snd (fetchFromSource this s addrs) = Ok []
   \/ exists msg, snd (fetchFromSource this s addrs) = Throw msg)
  /\ filter isFetch (fst (fetchFromSource this s addrs)) = [].
Proof.
  intros Hr. unfold fetchFromSource. rewrite Hr.
  destruct (integrationsGet s (integrations this)) as [i|]; simpl.
  - destruct (isConnected i); simpl; [auto|].
    destruct (connect i); simpl; eauto.
  - eauto.
Qed.

(** [refreshPortfolio(id)] on a stored portfolio is [aggregatePortfolio]
    with [forceRefresh] set, the stored sources, and an address map in which
    every chain of an asset of the portfolio is a key and every key holds
    the empty list.  With that map the relevant addresses of the EVM and of
    the Solana provider are empty, so their fetch never calls [fetchAssets]:
    it yields no asset (or fails in [connect]); the brokerage provider is
    asked with the sentinel ["default"]. *)
Lemma refresh_addresses (this : t) (existing : PortfolioAggregate.t)
    (portfolioId : string) :
  let addrs := extractAddresses existing in
  (forall chain l, JsMap.get chain addrs = Some l -> l = [])
  /\ (forall a, In a (PortfolioAggregate.assets existing) ->
                Js.truthy (AssetEntity._chain a) = true ->
                JsMap.get (Js.str (AssetEntity._chain a)) addrs = Some [])
  /\ getRelevantAddresses EVM addrs = []
  /\ getRelevantAddresses SOLANA addrs = []
  /\ getRelevantAddresses ROBINHOOD addrs = ["default"]
  /\ (forall s, s <> ROBINHOOD ->
        (snd (fetchFromSource this s addrs) = Ok []
         \/ exists msg, snd (fetchFromSource this s addrs) = Throw msg)
        /\ filter isFetch (fst (fetchFromSource this s addrs)) = [])
  /\ (forall s r,
        In (s, r) (snd (allSettled this (PortfolioAggregate.sources existing)
                          addrs)) ->
        s <> ROBINHOOD -> r = Ok [] \/ exists msg, r = Throw msg)
  /\ (findById this portfolioId = Ok (Some existing) ->
      refreshPortfolio this portfolioId
      = bind (perform (FindById portfolioId) (Ok tt))
             (fun _ => aggregatePortfolio this
                         (mkOptions (Some (PortfolioAggregate.sources existing))
                                    addrs
                                    (PortfolioAggregate._userId existing)
                                    true))).
Proof.
  intros addrs.
  assert (Ha : allEmpty addrs)
    by (apply extractLoop_allEmpty; constructor).
  split; [|split; [|split; [|split; [|split; [|split; [|split]]]]]].
  - intros chain l. apply get_allEmpty, Ha.
  - intros a Hin Hc. apply extractLoop_covers; auto. constructor.
  - apply relevant_allEmpty; [assumption | discriminate].
  - apply relevant_allEmpty; [assumption | discriminate].
  - reflexivity.
  - intros s Hs. apply fetch_nothing, relevant_allEmpty; assumption.
  - intros s r Hin Hs. rewrite snd_allSettled in Hin.
    apply in_map_iff in Hin. destruct Hin as (s' & E & _).
    inversion E; subst.
    apply fetch_nothing, relevant_allEmpty; assumption.
  - intros Hf. unfold refreshPortfolio. rewrite Hf. reflexivity.
Qed.

End Refresh.

(** ** C5: one provider fails *)

Section PartialFailure.

Import PortfolioAggregationService.

(** *** The aggregate under [addAsset] *)

Lemma addAsset_sources (now : Z) (p p' : PortfolioAggregate.t)
    (a : AssetEntity.t) :
  PortfolioAggregate.addAsset now p a = Ok p' ->
  PortfolioAggregate._sources p' = PortfolioAggregate._sources p.
Proof.
  unfold PortfolioAggregate.addAsset.
  destruct (PortfolioAggregate.findSimilarAsset p a) as [e|].
  - destruct (AssetEntity.merge e a); simpl; intros H; inversion H.
    reflexivity.
  - simpl. intros H. inversion H. reflexivity.
Qed.

Lemma addAssets_sources (now : Z) (l : list AssetEntity.t) :
  forall p p',
    PortfolioAggregate.addAssets now p l = Ok p' ->
    PortfolioAggregate._sources p' = PortfolioAggregate._sources p.
Proof.
  induction l as [|a l IH]; simpl; intros p p' H.
  - inversion H. reflexivity.
  - destruct (PortfolioAggregate.addAsset now p a) as [p1|] eqn:E;
      simpl in H; [|discriminate].
    rewrite (IH _ _ H). apply (addAsset_sources now p p1 a E).
Qed.

(** [addAsset] reads and writes the asset map only. *)
Lemma addAsset_assets (now : Z) (p q : PortfolioAggregate.t)
    (a : AssetEntity.t) :
  PortfolioAggregate._assets p = PortfolioAggregate._assets q ->
  rmap PortfolioAggregate._assets (PortfolioAggregate.addAsset now p a)
  = rmap PortfolioAggregate._assets (PortfolioAggregate.addAsset now q a).
Proof.
  intros E. unfold PortfolioAggregate.addAsset,
    PortfolioAggregate.findSimilarAsset, PortfolioAggregate.assets.
  rewrite E.
  destruct (PortfolioAggregate.findSimilar _ a) as [e|].
  - destruct (AssetEntity.merge e a); reflexivity.
  - reflexivity.
Qed.

Lemma addAssets_assets (now : Z) (l : list AssetEntity.t) :
  forall p q,
    PortfolioAggregate._assets p = PortfolioAggregate._assets q ->
    rmap PortfolioAggregate._assets (PortfolioAggregate.addAssets now p l)
    = rmap PortfolioAggregate._assets (PortfolioAggregate.addAssets now q l).
Proof.
  induction l as [|a l IH]; simpl; intros p q E.
  - unfold rmap. simpl. now rewrite E.
  - pose proof (addAsset_assets now p q a E) as H.
    destruct (PortfolioAggregate.addAsset now p a) as [p1|];
      destruct (PortfolioAggregate.addAsset now q a) as [q1|];
      simpl in H; try discriminate; simpl.
    + apply IH. now inversion H.
    + assumption.
Qed.

Lemma addAssets_app (now : Z) (l1 l2 : list AssetEntity.t) :
  forall p,
    PortfolioAggregate.addAssets now p (l1 ++ l2)
    = rbind (PortfolioAggregate.addAssets now p l1)
            (fun p' => PortfolioAggregate.addAssets now p' l2).
Proof.
  induction l1 as [|a l1 IH]; simpl; intros p; [reflexivity|].
  destruct (PortfolioAggregate.addAsset now p a); simpl; auto.
Qed.

(** *** The loop over the settled results *)

Lemma snd_processResults_cons_ok (now : Z) (s : IntegrationSource)
    (assets : list AssetEntity.t)
    (rest : list (IntegrationSource * result (list AssetEntity.t)))
    (p : PortfolioAggregate.t) :
  snd (processResults now ((s, Ok assets) :: rest) p)
  = rbind (PortfolioAggregate.addAssets now
             (PortfolioAggregate.addSource now p s) assets)
          (fun p2 => snd (processResults now rest p2)).
Proof.
  simpl. destruct (PortfolioAggregate.addAssets now _ assets) as [p2|];
    simpl; [|reflexivity].
  destruct (processResults now rest p2). reflexivity.
Qed.

Lemma snd_processResults_cons_throw (now : Z) (s : IntegrationSource)
    (e : string)
    (rest : list (IntegrationSource * result (list AssetEntity.t)))
    (p : PortfolioAggregate.t) :
  snd (processResults now ((s, Throw e) :: rest) p)
  = snd (processResults now rest p).
Proof. simpl. destruct (processResults now rest p). reflexivity. Qed.

(** A rejected fetch leaves no mark on the portfolio under construction. *)
Lemma processResults_skips_failure (now : Z) (s : IntegrationSource)
    (e : string)
    (r1 r2 : list (IntegrationSource * result (list AssetEntity.t))) :
  forall p,
    snd (processResults now (r1 ++ (s, Throw e) :: r2) p)
    = snd (processResults now (r1 ++ r2) p).
Proof.
  induction r1 as [|[s1 [assets|e1]] r1 IH]; intros p.
  - apply snd_processResults_cons_throw.
  - rewrite <- !app_comm_cons, !snd_processResults_cons_ok.
    destruct (PortfolioAggregate.addAssets now _ assets); simpl; auto.
  - rewrite <- !app_comm_cons, !snd_processResults_cons_throw. apply IH.
Qed.

Lemma processResults_sources (now : Z)
    (results : list (IntegrationSource * result (list AssetEntity.t))) :
  forall p p',
    snd (processResults now results p) = Ok p' ->
    PortfolioAggregate._sources p'
    = fold_left (fun acc s => JsSet.add s acc) (succeeded results)
                (PortfolioAggregate._sources p).
Proof.
  induction results as [|[s [assets|e]] rest IH]; intros p p' H.
  - simpl in H. inversion H. reflexivity.
  - rewrite snd_processResults_cons_ok in H.
    destruct (PortfolioAggregate.addAssets now _ assets) as [p2|] eqn:E;
      simpl in H; [|discriminate].
    rewrite (IH _ _ H). simpl.
    now rewrite (addAssets_sources now assets _ p2 E).
  - rewrite snd_processResults_cons_throw in H. apply (IH _ _ H).
Qed.

Lemma processResults_assets (now : Z)
    (results : list (IntegrationSource * result (list AssetEntity.t))) :
  forall p,
    rmap PortfolioAggregate._assets (snd (processResults now results p))
    = rmap PortfolioAggregate._assets
        (PortfolioAggregate.addAssets now p
           (flat_map (fun e => assetsOf (snd e)) results)).
Proof.
  induction results as [|[s [assets|e]] rest IH]; intros p.
  - reflexivity.
  - rewrite snd_processResults_cons_ok. simpl flat_map.
    rewrite addAssets_app.
    pose proof (addAssets_assets now assets
                  (PortfolioAggregate.addSource now p s) p eq_refl) as H.
    destruct (PortfolioAggregate.addAssets now
                (PortfolioAggregate.addSource now p s) assets) as [p2|];
      destruct (PortfolioAggregate.addAssets now p assets) as [q2|];
      simpl in H; try discriminate; simpl.
    + rewrite IH. apply addAssets_assets. now inversion H.
    + assumption.
  - rewrite snd_processResults_cons_throw. simpl. apply IH.
Qed.

Lemma fetchFailures_app (tr1 tr2 : list effect) :
  fetchFailures (tr1 ++ tr2) = fetchFailures tr1 ++ fetchFailures tr2.
Proof. unfold fetchFailures. apply flat_map_app. Qed.

Lemma fst_processResults_cons_throw (now : Z) (s : IntegrationSource)
    (e : string)
    (rest : list (IntegrationSource * result (list AssetEntity.t)))
    (p : PortfolioAggregate.t) :
  fst (processResults now ((s, Throw e) :: rest) p)
  = ConsoleError (failureLine s) :: fst (processResults now rest p).
Proof. simpl. destruct (processResults now rest p). reflexivity. Qed.

Lemma fetchFailures_failureLine (s : IntegrationSource) (tr : list effect) :
  fetchFailures (ConsoleError (failureLine s) :: tr)
  = failureLine s :: fetchFailures tr.
Proof. destruct s; reflexivity. Qed.

Lemma fetchFailures_processResults (now : Z)
    (results : list (IntegrationSource * result (list AssetEntity.t))) :
  forall p p',
    snd (processResults now results p) = Ok p' ->
    fetchFailures (fst (processResults now results p))
    = flat_map (fun e => match snd e with
                         | Ok _ => []
                         | Throw _ => [failureLine (fst e)]
                         end) results.
Proof.
  induction results as [|[s [assets|e]] rest IH]; intros p p' H.
  - reflexivity.
  - rewrite snd_processResults_cons_ok in H. simpl.
    destruct (PortfolioAggregate.addAssets now _ assets) as [p2|];
      simpl in H; [|discriminate].
    simpl. specialize (IH p2 p' H).
    destruct (processResults now rest p2). exact IH.
  - rewrite snd_processResults_cons_throw in H.
    rewrite fst_processResults_cons_throw, fetchFailures_failureLine.
    cbn [flat_map snd fst app]. now rewrite (IH p p' H).
Qed.

Lemma fetchFailures_fetchFromSource (this : t) (s : IntegrationSource)
    (addrs : JsMap.t (list string)) :
  fetchFailures (fst (fetchFromSource this s addrs)) = [].
Proof.
  unfold fetchFromSource.
  destruct (integrationsGet s (integrations this)) as [i|]; [|reflexivity].
  destruct (isConnected i); simpl.
  - destruct (Nat.eqb _ 0); [reflexivity|].
    simpl. destruct (fetchAssets i _); reflexivity.
  - destruct (connect i); [|reflexivity].
    destruct (Nat.eqb _ 0); [reflexivity|].
    simpl. destruct (fetchAssets i _); reflexivity.
Qed.

Lemma fetchFailures_allSettled (this : t) (l : list IntegrationSource)
    (addrs : JsMap.t (list string)) :
  fetchFailures (fst (allSettled this l addrs)) = [].
Proof.
  induction l as [|s l IH]; [reflexivity|].
  rewrite allSettled_unfold. simpl.
  now rewrite fetchFailures_app, fetchFailures_fetchFromSource, IH.
Qed.

(** *** The try block *)

Lemma snd_settle (this : t) (p : PortfolioAggregate.t)
    (results : list (IntegrationSource * result (list AssetEntity.t))) :
  snd (settle this p results)
  = rbind (snd (processResults (nowAtBuild this) results p)) (fun p1 =>
    rbind (PortfolioAggregate.reconcile (nowAtBuild this) p1) (fun p2 =>
    rbind (snd (enrichWithPrices this p2)) (fun p3 =>
    rbind (save this p3) (fun _ => Ok p3)))).
Proof.
  unfold settle. rewrite snd_catch, snd_bind.
  destruct (snd (processResults _ results p)) as [p1|]; [|reflexivity].
  cbn [rbind]. rewrite snd_bind. cbn [snd].
  destruct (PortfolioAggregate.reconcile _ p1) as [p2|]; [|reflexivity].
  cbn [rbind]. rewrite snd_bind.
  destruct (snd (enrichWithPrices this p2)) as [p3|]; [|reflexivity].
  cbn [rbind]. destruct (save this p3) as [[]|]; reflexivity.
Qed.

Lemma fst_settle_ok (this : t) (p p1 p2 p3 : PortfolioAggregate.t)
    (results : list (IntegrationSource * result (list AssetEntity.t))) :
  snd (processResults (nowAtBuild this) results p) = Ok p1 ->
  PortfolioAggregate.reconcile (nowAtBuild this) p1 = Ok p2 ->
  snd (enrichWithPrices this p2) = Ok p3 ->
  save this p3 = Ok tt ->
  fst (settle this p results)
  = fst (processResults (nowAtBuild this) results p)
    ++ fst (enrichWithPrices this p2) ++ [Save p3].
Proof.
  intros H1 H2 H3 H4. unfold settle.
  rewrite fst_catch, snd_bind, fst_bind, H1. cbn [rbind].
  rewrite fst_bind, snd_bind. cbn [fst snd]. rewrite H2. cbn [rbind app].
  rewrite fst_bind, snd_bind, H3. cbn [rbind].
  rewrite H4. cbn [perform bind ret fst snd app rbind].
  now rewrite !app_nil_r.
Qed.

Lemma enrich_ok (this : t) (p2 p3 : PortfolioAggregate.t) :
  snd (enrichWithPrices this p2) = Ok p3 ->
  PortfolioAggregate._sources p3 = PortfolioAggregate._sources p2
  /\ map (fun e => (fst e, AssetEntity._balance (snd e)))
         (PortfolioAggregate._assets p3)
     = map (fun e => (fst e, AssetEntity._balance (snd e)))
           (PortfolioAggregate._assets p2)
  /\ fetchFailures (fst (enrichWithPrices this p2)) = [].
Proof.
  unfold enrichWithPrices.
  destruct (Nat.eqb _ 0).
  - simpl. intros H. inversion H. auto.
  - destruct (getBatchPrices this _) as [prices|]; simpl; intros H;
      inversion H; simpl; repeat split.
    unfold applyPrices. rewrite map_map. apply map_ext.
    intros [k a]. simpl.
    destruct (JsMap.get (AssetEntity._symbol a) prices); reflexivity.
Qed.

(** *** The cache check in front *)

Lemma aggregatePortfolio_miss (this : t) (options : AggregationOptions) :
  missesCache this options ->
  aggregatePortfolio this options
  = (lookup this options
     ++ fst (aggregateFresh this options (derivedId this options)),
     snd (aggregateFresh this options (derivedId this options))).
Proof.
  unfold missesCache, aggregatePortfolio, lookup, derivedId.
  intros [H | [H | (c & H & V)]].
  - rewrite H. simpl. now destruct (aggregateFresh this options _).
  - destruct (forceRefresh options); simpl.
    + now destruct (aggregateFresh this options _).
    + rewrite H. simpl. now destruct (aggregateFresh this options _).
  - destruct (forceRefresh options); simpl.
    + now destruct (aggregateFresh this options _).
    + rewrite H. simpl. rewrite V.
      now destruct (aggregateFresh this options _).
Qed.

(** *** Sources *)

Lemma in_JsSet_add (x s : IntegrationSource) (l : list IntegrationSource) :
  In x (JsSet.add s l) -> x = s \/ In x l.
Proof.
  unfold JsSet.add. destruct (existsb _ l); [auto|].
  intros H. apply in_app_or in H. destruct H as [H|[H|[]]]; auto.
Qed.

Lemma in_fold_add (x : IntegrationSource) (l : list IntegrationSource) :
  forall acc,
    In x (fold_left (fun acc s => JsSet.add s acc) l acc) ->
    In x l \/ In x acc.
Proof.
  induction l as [|s l IH]; simpl; intros acc H; [auto|].
  apply IH in H. destruct H as [H|H]; [auto|].
  apply in_JsSet_add in H. destruct H as [H|H]; auto.
Qed.

Lemma outlook_cons_ok (s : IntegrationSource) (assets : list AssetEntity.t)
    (rest : list (IntegrationSource * result (list AssetEntity.t))) :
  outlook ((s, Ok assets) :: rest)
  = (s :: fst (fst (outlook rest)), snd (fst (outlook rest)),
     assets ++ snd (outlook rest)).
Proof. reflexivity. Qed.

Lemma outlook_cons_throw (s : IntegrationSource) (e : string)
    (rest : list (IntegrationSource * result (list AssetEntity.t))) :
  outlook ((s, Throw e) :: rest)
  = (fst (fst (outlook rest)), failureLine s :: snd (fst (outlook rest)),
     snd (outlook rest)).
Proof. reflexivity. Qed.

Lemma outlook_all_ok (this : t) (addrs : JsMap.t (list string))
    (l : list IntegrationSource) :
  (forall s, In s l ->
     exists assets, snd (fetchFromSource this s addrs) = Ok assets) ->
  outlook (map (fun s => (s, snd (fetchFromSource this s addrs))) l)
  = (l, [], flat_map (fetched this addrs) l).
Proof.
  induction l as [|s l IH]; intros Hl; [reflexivity|].
  destruct (Hl s) as [assets Ha]; [now left|].
  cbn [map flat_map]. rewrite Ha, outlook_cons_ok, IH.
  - change (fetched this addrs s)
      with (assetsOf (snd (fetchFromSource this s addrs))).
    now rewrite Ha.
  - intros x Hx. apply Hl. now right.
Qed.

Lemma outlook_around_failure (this : t) (addrs : JsMap.t (list string))
    (before after : list IntegrationSource) (failed : IntegrationSource)
    (reason : string) :
  snd (fetchFromSource this failed addrs) = Throw reason ->
  (forall s, In s (before ++ after) ->
     exists assets, snd (fetchFromSource this s addrs) = Ok assets) ->
  outlook (map (fun s => (s, snd (fetchFromSource this s addrs)))
               (before ++ failed :: after))
  = (before ++ after, [failureLine failed],
     flat_map (fetched this addrs) (before ++ after)).
Proof.
  intros Hf. induction before as [|s b IH]; intros Hs.
  - cbn [app map]. rewrite Hf, outlook_cons_throw.
    now rewrite (outlook_all_ok this addrs after Hs).
  - destruct (Hs s) as [assets Ha]; [now left|].
    cbn [app map flat_map]. rewrite Ha, outlook_cons_ok, IH.
    + change (fetched this addrs s)
        with (assetsOf (snd (fetchFromSource this s addrs))).
      now rewrite Ha.
    + intros x Hx. apply Hs. now right.
Qed.

Lemma reconcile_ok (now : Z) (p1 p2 : PortfolioAggregate.t) :
  PortfolioAggregate.reconcile now p1 = Ok p2 ->
  PortfolioAggregate._sources p2 = PortfolioAggregate._sources p1
  /\ PortfolioAggregate.reconcileLoop
       (JsMap.values (PortfolioAggregate._assets p1)) JsMap.empty
     = Ok (PortfolioAggregate._assets p2).
Proof.
  unfold PortfolioAggregate.reconcile, PortfolioAggregate.assets.
  destruct (PortfolioAggregate.reconcileLoop _ JsMap.empty) as [m|];
    simpl; intros H; inversion H. auto.
Qed.

(** A call that went on to fetch and completed, taken apart. *)
Lemma fresh_ok (this : t) (options : AggregationOptions) (id : string)
    (P : PortfolioAggregate.t) :
  snd (aggregateFresh this options id) = Ok P ->
  let results := snd (allSettled this (sourcesToFetch this options)
                        (addresses options)) in
  let p0 := PortfolioAggregate.mk id (userId options) JsMap.empty []
              (nowAtBuild this) in
  exists p1 p2,
    snd (processResults (nowAtBuild this) results p0) = Ok p1
    /\ PortfolioAggregate.reconcile (nowAtBuild this) p1 = Ok p2
    /\ snd (enrichWithPrices this p2) = Ok P
    /\ fst (aggregateFresh this options id)
       = fst (allSettled this (sourcesToFetch this options)
                (addresses options))
         ++ fst (processResults (nowAtBuild this) results p0)
         ++ fst (enrichWithPrices this p2) ++ [Save P].
Proof.
  intros H results p0. rewrite aggregateFresh_eq in H |- *.
  rewrite snd_bind in H. cbn [snd rbind] in H.
  rewrite fst_bind. cbn [fst snd].
  fold results in H |- *. fold p0 in H |- *.
  pose proof H as H'. rewrite snd_settle in H'.
  destruct (snd (processResults (nowAtBuild this) results p0)) as [p1|] eqn:E1;
    [|discriminate].
  cbn [rbind] in H'.
  destruct (PortfolioAggregate.reconcile (nowAtBuild this) p1) as [p2|] eqn:E2;
    [|discriminate].
  cbn [rbind] in H'.
  destruct (snd (enrichWithPrices this p2)) as [p3|] eqn:E3; [|discriminate].
  cbn [rbind] in H'.
  destruct (save this p3) as [[]|] eqn:E4; [|discriminate].
  cbn [rbind] in H'. inversion H'. subst p3.
  exists p1, p2. repeat split; auto.
  now rewrite (fst_settle_ok this p0 p1 p2 P results E1 E2 E3 E4).
Qed.

(** What the pipeline does when one provider fails.  Take an
    [aggregatePortfolio] call that goes on to fetch, in which the fetch of
    one of the providers asked throws, that provider is asked once, and the
    fetch of every other provider succeeds; the providers asked are those of
    [options.sources] or, by default, every registered one.  Its outcome is
    that of the same call without the failed provider (it can still fail in
    reconciliation or in [save]).  When the call completes, the sources of
    the returned portfolio are exactly the surviving providers, the failed
    one is not among them, one console line reports the failed fetch, and
    the returned asset map has the keys and balances of the reconciliation
    of what [addAsset] built from the surviving providers' assets in list
    order.  No method of the service publishes a domain event. *)
Lemma partial_failure_outcome (this : t) (options : AggregationOptions)
    (before after : list IntegrationSource) (failed : IntegrationSource)
    (reason : string) :
  missesCache this options ->
  sourcesToFetch this options = before ++ failed :: after ->
  ~ In failed (before ++ after) ->
  snd (fetchFromSource this failed (addresses options)) = Throw reason ->
  (forall s, In s (before ++ after) ->
     exists assets,
       snd (fetchFromSource this s (addresses options)) = Ok assets) ->
  let survivors :=
    mkOptions (Some (before ++ after)) (addresses options) (userId options)
              (forceRefresh options) in
  snd (aggregatePortfolio this options)
  = snd (aggregatePortfolio this survivors)
  /\ events (fst (aggregatePortfolio this options)) = []
  /\ (forall P,
        snd (aggregatePortfolio this options) = Ok P ->
        PortfolioAggregate.sources P = JsSet.of_list (before ++ after)
        /\ ~ In failed (PortfolioAggregate.sources P)
        /\ fetchFailures (fst (aggregatePortfolio this options))
           = [failureLine failed]
        /\ exists built reconciled,
             rmap PortfolioAggregate._assets
               (PortfolioAggregate.addAssets (nowAtBuild this)
                  (PortfolioAggregate.mk (derivedId this options)
                     (userId options) JsMap.empty [] (nowAtBuild this))
                  (flat_map (fetched this (addresses options))
                            (before ++ after)))
             = Ok built
             /\ PortfolioAggregate.reconcileLoop (JsMap.values built)
                  JsMap.empty = Ok reconciled
             /\ balances (PortfolioAggregate._assets P)
                = balances reconciled).
Proof.
  intros Hmiss Hsrc Hnotin Hfail Hothers survivors.
  assert (Hmiss' : missesCache this survivors) by exact Hmiss.
  pose proof (outlook_around_failure this (addresses options) before after
                failed reason Hfail Hothers) as Hout.
  rewrite (aggregatePortfolio_miss this options Hmiss).
  rewrite (aggregatePortfolio_miss this survivors Hmiss').
  cbn [fst snd].
  split; [|split].
  - (* the outcome *)
    change (derivedId this survivors) with (derivedId this options).
    rewrite !aggregateFresh_eq, !snd_bind. cbn [snd rbind].
    rewrite !snd_settle, !snd_allSettled. rewrite Hsrc.
    change (sourcesToFetch this survivors) with (before ++ after).
    cbn [sources survivors addresses userId].
    rewrite map_app. cbn [map]. rewrite Hfail.
    rewrite processResults_skips_failure, <- map_app. reflexivity.
  - (* no event *)
    rewrite events_app, events_aggregateFresh.
    unfold lookup. now destruct (forceRefresh options).
  - (* the portfolio of a completed call *)
    intros P HP.
    destruct (fresh_ok this options (derivedId this options) P HP)
      as (p1 & p2 & H1 & H2 & H3 & Htr).
    rewrite snd_allSettled in H1. rewrite Hsrc in H1.
    destruct (enrich_ok this p2 P H3) as (S3 & B3 & F3).
    destruct (reconcile_ok _ p1 p2 H2) as (S2 & R2).
    pose proof (processResults_sources _ _ _ _ H1) as S1.
    pose proof (fetchFailures_processResults _ _ _ _ H1) as F1.
    pose proof (processResults_assets (nowAtBuild this)
                  (map (fun s => (s, snd (fetchFromSource this s
                                            (addresses options))))
                       (before ++ failed :: after))
                  (PortfolioAggregate.mk (derivedId this options)
                     (userId options) JsMap.empty [] (nowAtBuild this)))
      as A1.
    rewrite H1 in A1.
    change (succeeded ?r) with (fst (fst (outlook r))) in S1.
    change (flat_map _ ?r) with (snd (fst (outlook r))) in F1.
    change (flat_map _ ?r) with (snd (outlook r)) in A1.
    rewrite Hout in S1, F1, A1. cbn [fst snd] in S1, F1, A1.
    assert (Hsources : PortfolioAggregate.sources P
                       = JsSet.of_list (before ++ after)).
    { unfold PortfolioAggregate.sources. now rewrite S3, S2, S1. }
    split; [exact Hsources|]. split; [|split].
    + rewrite Hsources. unfold JsSet.of_list. intros Hin.
      apply in_fold_add in Hin. destruct Hin as [Hin|[]]. now apply Hnotin.
    + rewrite Htr, !fetchFailures_app, fetchFailures_allSettled, F3.
      unfold lookup.
      rewrite snd_allSettled. rewrite Hsrc, F1.
      now destruct (forceRefresh options).
    + exists (PortfolioAggregate._assets p1), (PortfolioAggregate._assets p2).
      split; [symmetry; exact A1|]. split; [exact R2|exact B3].
Qed.

End PartialFailure.

(** ** C10: what a refresh fetches *)

Section RefreshOutcome.

Import PortfolioAggregationService.

(** With an address map of empty lists, the assets that the settled
    fetches hand to the portfolio are those of the brokerage. *)
Lemma fetched_allEmpty (this : t) (addrs : JsMap.t (list string))
    (l : list IntegrationSource) :
  allEmpty addrs ->
  flat_map (fun e => assetsOf (snd e)) (snd (allSettled this l addrs))
  = flat_map (fetched this addrs) (filter isBrokerage l).
Proof.
  intros Ha. rewrite snd_allSettled.
  induction l as [|s l IH]; [reflexivity|].
  cbn [map flat_map filter snd]. rewrite IH.
  destruct s; cbn [isBrokerage IntegrationSource_eqb flat_map];
    [| |reflexivity].
  - destruct (fetch_nothing this EVM addrs) as [[H|[msg H]] _];
      [apply relevant_allEmpty; [assumption|discriminate]| |];
      rewrite H; reflexivity.
  - destruct (fetch_nothing this SOLANA addrs) as [[H|[msg H]] _];
      [apply relevant_allEmpty; [assumption|discriminate]| |];
      rewrite H; reflexivity.
Qed.

(** The brokerage is asked with the sentinel whatever the address map. *)
Lemma fetch_brokerage (this : t) (addrs : JsMap.t (list string))
    (i : Integration) :
  integrationsGet ROBINHOOD (integrations this) = Some i ->
  isConnected i = true \/ connect i = Ok tt ->
  snd (fetchFromSource this ROBINHOOD addrs)
  = rmap (map toEntity) (fetchAssets i ["default"])
  /\ filter isFetch (fst (fetchFromSource this ROBINHOOD addrs))
     = [FetchAssets ROBINHOOD ["default"]].
Proof.
  intros Hi Hc. unfold fetchFromSource. rewrite Hi.
  change (getRelevantAddresses ROBINHOOD addrs) with ["default"].
  cbn [List.length Nat.eqb].
  destruct (isConnected i).
  - simpl. destruct (fetchAssets i ["default"]); split; reflexivity.
  - destruct Hc as [Hc|Hc]; [discriminate|]. rewrite Hc. simpl.
    destruct (fetchAssets i ["default"]); split; reflexivity.
Qed.

(** C10.  [refreshPortfolio(id)] on a stored portfolio is
    [aggregatePortfolio] with [forceRefresh] set, the stored sources, and an
    address map in which every chain of an asset of the portfolio is a key
    and every key holds the empty list.  With that map the relevant addresses
    of the EVM and of the Solana provider are empty, so their fetch never
    calls [fetchAssets]: it yields no asset (or fails in [connect]).  The
    brokerage provider, when it is connected or connects, is asked with the
    sentinel ["default"], and its fetch yields what its [fetchAssets]
    answers.  The refreshed portfolio is built from the assets of the
    brokerage alone: its asset map has the keys and balances of the
    reconciliation of what [addAsset] makes of them, and it is empty when
    the brokerage is not among the stored sources. *)
Theorem C10_refresh_addresses (this : t) (existing : PortfolioAggregate.t)
    (portfolioId : string) :
  let addrs := extractAddresses existing in
  (forall chain l, JsMap.get chain addrs = Some l -> l = [])
  /\ (forall a, In a (PortfolioAggregate.assets existing) ->
                Js.truthy (AssetEntity._chain a) = true ->
                JsMap.get (Js.str (AssetEntity._chain a)) addrs = Some [])
  /\ getRelevantAddresses EVM addrs = []
  /\ getRelevantAddresses SOLANA addrs = []
  /\ getRelevantAddresses ROBINHOOD addrs = ["default"]
  /\ (forall s, s <> ROBINHOOD ->
        (snd (fetchFromSource this s addrs) = Ok []
         \/ exists msg, snd (fetchFromSource this s addrs) = Throw msg)
        /\ filter isFetch (fst (fetchFromSource this s addrs)) = [])
  /\ (forall s r,
        In (s, r) (snd (allSettled this (PortfolioAggregate.sources existing)
                          addrs)) ->
        s <> ROBINHOOD -> r = Ok [] \/ exists msg, r = Throw msg)
  /\ (findById this portfolioId = Ok (Some existing) ->
      refreshPortfolio this portfolioId
      = bind (perform (FindById portfolioId) (Ok tt))
             (fun _ => aggregatePortfolio this
                         (mkOptions (Some (PortfolioAggregate.sources existing))
                                    addrs
                                    (PortfolioAggregate._userId existing)
                                    true)))
  /\ (forall i,
        integrationsGet ROBINHOOD (integrations this) = Some i ->
        isConnected i = true \/ connect i = Ok tt ->
        snd (fetchFromSource this ROBINHOOD addrs)
        = rmap (map toEntity) (fetchAssets i ["default"])
        /\ filter isFetch (fst (fetchFromSource this ROBINHOOD addrs))
           = [FetchAssets ROBINHOOD ["default"]])
  /\ (forall P,
        findById this portfolioId = Ok (Some existing) ->
        snd (refreshPortfolio this portfolioId) = Ok P ->
        (exists built reconciled,
           rmap PortfolioAggregate._assets
             (PortfolioAggregate.addAssets (nowAtBuild this)
                (PortfolioAggregate.mk
                   (generatePortfolioId (nowAtStart this)
                      (PortfolioAggregate._userId existing))
                   (PortfolioAggregate._userId existing) JsMap.empty []
                   (nowAtBuild this))
                (flat_map (fetched this addrs)
                   (filter isBrokerage (PortfolioAggregate.sources existing))))
           = Ok built
           /\ PortfolioAggregate.reconcileLoop (JsMap.values built)
                JsMap.empty = Ok reconciled
           /\ balances (PortfolioAggregate._assets P) = balances reconciled)
        /\ (~ In ROBINHOOD (PortfolioAggregate.sources existing) ->
            PortfolioAggregate.assets P = [])).
Proof.
  intros addrs.
  destruct (refresh_addresses this existing portfolioId)
    as (H1 & H2 & H3 & H4 & H5 & H6 & H7 & H8).
  fold addrs in H1, H2, H3, H4, H5, H6, H7, H8.
  assert (Ha : allEmpty addrs)
    by (apply extractLoop_allEmpty; constructor).
  repeat (split; [assumption|]).
  split; [intros i; apply fetch_brokerage|].
  intros P Hf HP. unfold refreshPortfolio in HP. rewrite Hf in HP.
  simpl in HP. unfold aggregatePortfolio in HP. simpl in HP.
  destruct (aggregateFresh this (refreshOptions existing) _) as [tr r] eqn:E.
  simpl in HP. subst r.
  destruct (fresh_ok this (refreshOptions existing) _ P (f_equal snd E))
    as (p1 & p2 & R1 & R2 & R3 & _).
  match type of R1 with
  | snd (processResults ?n ?rs ?p0) = _ =>
      pose proof (processResults_assets n rs p0) as A1; rewrite R1 in A1
  end.
  change (addresses (refreshOptions existing)) with addrs in A1.
  change (sourcesToFetch this (refreshOptions existing))
    with (PortfolioAggregate.sources existing) in A1.
  change (userId (refreshOptions existing))
    with (PortfolioAggregate._userId existing) in A1.
  rewrite (fetched_allEmpty this addrs _ Ha) in A1.
  destruct (reconcile_ok _ p1 p2 R2) as (_ & Q2).
  destruct (enrich_ok this p2 P R3) as (_ & B3 & _).
  split.
  - exists (PortfolioAggregate._assets p1), (PortfolioAggregate._assets p2).
    split; [symmetry; exact A1|]. split; [exact Q2|exact B3].
  - intros Hno.
    assert (Hnone : filter isBrokerage (PortfolioAggregate.sources existing)
                    = []).
    { clear - Hno. induction (PortfolioAggregate.sources existing)
        as [|s l IH]; [reflexivity|].
      simpl in Hno. destruct s; simpl;
        try (apply IH; intros F; apply Hno; right; exact F).
      exfalso. apply Hno. left. reflexivity. }
    rewrite Hnone in A1. simpl in A1. inversion A1 as [Hempty].
    rewrite Hempty in Q2. simpl in Q2. inversion Q2 as [Hrec].
    rewrite <- Hrec in B3.
    unfold PortfolioAggregate.assets, JsMap.values.
    destruct (PortfolioAggregate._assets P); [reflexivity|discriminate B3].
Qed.

End RefreshOutcome.

(** ** A concrete service: EVM answers, Solana is down *)

Section Scenarios.

Import PortfolioAggregationService.

(** The "partial failure" scenario: the call completes with the EVM asset
    and [sources = [evm]], and logs the Solana failure. *)
Example partial_failure_run :
  aggregatePortfolio demoService demoOptions
  = ([FindById "portfolio_user123";
      FetchAssets EVM ["0xabc"];
      FetchAssets SOLANA ["So11111111111111111111111111111111"];
      ConsoleError "Failed to fetch from solana:";
      GetBatchPrices ["ETH"];
      Save (PortfolioAggregate.mk "portfolio_user123" (Some "user123")
              [("ethereum:ETH:crypto", toEntity ethRaw)] [EVM] 1000)],
     Ok (PortfolioAggregate.mk "portfolio_user123" (Some "user123")
           [("ethereum:ETH:crypto", toEntity ethRaw)] [EVM] 1000)).
Proof. vm_compute. reflexivity. Qed.

(** C5.  The run above is a call in which exactly one provider throws and
    the other succeeds.  It completes; the portfolio it returns holds the
    asset of the surviving provider and names that provider alone as its
    source; the failure is reported on the console.  No domain event is
    published, neither [IntegrationSourceFailed] nor
    [PortfolioAggregationCompleted]; the same holds when the providers are
    not named and every registered one is asked. *)
Theorem C5_partial_failure_divergence :
  let run := aggregatePortfolio demoService demoOptions in
  let byDefault :=
    aggregatePortfolio demoService
      (mkOptions None demoAddresses (Some "user123") false) in
  snd (fetchFromSource demoService EVM demoAddresses) = Ok [toEntity ethRaw]
  /\ snd (fetchFromSource demoService SOLANA demoAddresses)
     = Throw "RPC unavailable"
  /\ snd run
     = Ok (PortfolioAggregate.mk "portfolio_user123" (Some "user123")
             [("ethereum:ETH:crypto", toEntity ethRaw)] [EVM] 1000)
  /\ fetchFailures (fst run) = ["Failed to fetch from solana:"]
  /\ events (fst run) = []
  /\ snd byDefault = snd run
  /\ events (fst byDefault) = [].
Proof. repeat split; vm_compute; reflexivity. Qed.

(** The lemma on partial failures at the run above. *)
Example partial_failure_outcome_run :
  snd (aggregatePortfolio demoService demoOptions)
  = snd (aggregatePortfolio demoService
           (mkOptions (Some [EVM]) demoAddresses (Some "user123") false))
  /\ forall P,
       snd (aggregatePortfolio demoService demoOptions) = Ok P ->
       ~ In SOLANA (PortfolioAggregate.sources P).
Proof.
  destruct (partial_failure_outcome demoService demoOptions [EVM] [] SOLANA
              "RPC unavailable") as (Hsame & _ & Hdone).
  - right. left. reflexivity.
  - reflexivity.
  - simpl. intros [H|[]]. discriminate.
  - reflexivity.
  - intros s [<-|[]]. eexists. reflexivity.
  - split; [exact Hsame|].
    intros P HP. destruct (Hdone P HP) as (_ & Hnot & _). exact Hnot.
Qed.

(** A call can also fail as a whole: with an EVM provider that returns two
    chainless holdings of one symbol and type under different contract
    addresses, the reconciliation throws. *)
Example reconciliation_can_throw :
  snd (aggregatePortfolio (serviceWith evmTwoShares None 0) demoOptions)
  = Throw "Cannot merge different assets".
Proof. vm_compute. reflexivity. Qed.

(** C8, witness: the "cache hit" scenario, a second call 60 seconds later. *)
Lemma C8_cache_hit_witness :
  aggregatePortfolio cachingService demoOptions
  = ([FindById "portfolio_user123"], Ok storedPortfolio).
Proof.
  destruct (C8_cache_hit cachingService demoOptions storedPortfolio)
    as (Hrun & _).
  - reflexivity.
  - reflexivity.
  - simpl. lia.
  - exact Hrun.
Defined.

(** Two providers report USDC under contract addresses that differ in case
    only: the pipeline, which goes through [AssetEntity.isSameAsset] and
    [getAssetKey], keeps two holdings. *)
Example contract_case_kept_apart :
  rmap (fun p => JsMap.keys (PortfolioAggregate._assets p))
       (snd (aggregatePortfolio usdcService usdcOptions))
  = Ok ["ethereum:0xA0b8"; "ethereum:0xa0b8"].
Proof. vm_compute. reflexivity. Qed.

(** A stale entry is not served: 5 minutes later the providers are asked. *)
Example cache_expired :
  providerCalls
    (fst (aggregatePortfolio (serviceWith evmUp (Some storedPortfolio) 301000)
            demoOptions))
  = [FetchAssets EVM ["0xabc"];
     FetchAssets SOLANA ["So11111111111111111111111111111111"]].
Proof. vm_compute. reflexivity. Qed.

(** A refresh with the brokerage among the stored sources: the brokerage
    alone is asked for assets, and its two shares are what the refreshed
    portfolio holds; the on-chain holding is gone, though its provider still
    counts as a source. *)
Example refresh_brokerage_run :
  filter isFetch (fst (refreshPortfolio brokerageService "portfolio_user123"))
  = [FetchAssets ROBINHOOD ["default"]]
  /\ rmap (fun p => (balances (PortfolioAggregate._assets p),
                     PortfolioAggregate.sources p))
          (snd (refreshPortfolio brokerageService "portfolio_user123"))
     = Ok ([("global:AAPL:stock", mkBalance 2 0 "2")], [EVM; ROBINHOOD]).
Proof. split; vm_compute; reflexivity. Qed.

(** The refresh of the stored portfolio asks no address-based provider. *)
Example refresh_run :
  providerCalls (fst (refreshPortfolio cachingService "portfolio_user123"))
  = []
  /\ rmap PortfolioAggregate.assets
          (snd (refreshPortfolio cachingService "portfolio_user123"))
     = Ok [].
Proof. split; vm_compute; reflexivity. Qed.

End Scenarios.

(** ** The [Address] value object *)

Section AddressLaws.

Lemma lower_ascii_idem (c : ascii) :
  Js.lower_ascii (Js.lower_ascii c) = Js.lower_ascii c.
Proof.
  destruct c as [[] [] [] [] [] [] [] []]; reflexivity.
Qed.

Lemma toLowerCase_idem (s : string) :
  Js.toLowerCase (Js.toLowerCase s) = Js.toLowerCase s.
Proof.
  induction s as [|c r IH]; simpl; [reflexivity|].
  unfold Js.toLowerCase in *. simpl. rewrite lower_ascii_idem, IH.
  reflexivity.
Qed.

Lemma toLowerCase_length (s : string) :
  String.length (Js.toLowerCase s) = String.length s.
Proof.
  induction s as [|c r IH]; simpl; [reflexivity|].
  unfold Js.toLowerCase in *. simpl. rewrite IH. reflexivity.
Qed.

Lemma isHexDigit_lower (c : ascii) :
  Address.isHexDigit c = true ->
  Address.isHexDigit (Js.lower_ascii c) = true.
Proof.
  destruct c as [[] [] [] [] [] [] [] []]; intros H;
    first [discriminate H | reflexivity].
Qed.

Lemma every_hex_lower (s : string) :
  Address.every Address.isHexDigit s = true ->
  Address.every Address.isHexDigit (Js.toLowerCase s) = true.
Proof.
  induction s as [|c r IH]; simpl; [reflexivity|].
  intros H. apply andb_true_iff in H. destruct H as [Hc Hr].
  unfold Js.toLowerCase in *. simpl.
  rewrite (isHexDigit_lower _ Hc). simpl. apply IH. exact Hr.
Qed.

Lemma isValidEVMAddress_lower (v : string) :
  Address.isValidEVMAddress v = true ->
  Address.isValidEVMAddress (Js.toLowerCase v) = true
  /\ Js.toLowerCase v <> EmptyString.
Proof.
  unfold Address.isValidEVMAddress.
  destruct v as [|c0 [|c1 rest]];
    [discriminate
    |destruct c0 as [[] [] [] [] [] [] [] []]; discriminate|].
  destruct (Ascii.eqb c0 "0") eqn:E0.
  - apply Ascii.eqb_eq in E0. subst c0.
    destruct (Ascii.eqb c1 "x") eqn:E1.
    + apply Ascii.eqb_eq in E1. subst c1.
      intros H. apply andb_true_iff in H. destruct H as [Hl Hh].
      change (Js.toLowerCase (String "0" (String "x" rest)))
        with (String "0"%char (String "x"%char (Js.toLowerCase rest))).
      cbv iota beta.
      rewrite toLowerCase_length, Hl, (every_hex_lower _ Hh).
      split; [reflexivity|discriminate].
    + intros H. exfalso. apply Ascii.eqb_neq in E1.
      destruct c1 as [[] [] [] [] [] [] [] []];
        first [discriminate H | apply E1; reflexivity].
  - intros H. exfalso. apply Ascii.eqb_neq in E0.
    destruct c0 as [[] [] [] [] [] [] [] []];
      first [discriminate H | apply E0; reflexivity].
Qed.

Lemma Address_new_inv (v c : string) (a : Address.t) :
  Address.new v c = Ok a ->
  Address.isValidAddress v c = true
  /\ a = Address.mk (Address.normalize v c) c.
Proof.
  unfold Address.new.
  destruct (Address.isValidAddress v c); simpl; [|discriminate].
  intros H. inversion H. split; reflexivity.
Qed.

Lemma isValidAddress_cases (v c : string) :
  Address.isValidAddress v c = true ->
  v <> EmptyString
  /\ ((Address.isEvmChain c = true /\ Address.isValidEVMAddress v = true)
      \/ (Address.isEvmChain c = false /\ c = "solana"
          /\ Address.isValidSolanaAddress v = true)).
Proof.
  unfold Address.isValidAddress.
  destruct (String.eqb v EmptyString) eqn:Ev; [discriminate|].
  apply String.eqb_neq in Ev. intros H. split; [exact Ev|].
  destruct (Address.isEvmChain c); [left; split; [reflexivity|exact H]|].
  destruct (String.eqb c "solana") eqn:Ec; [|discriminate].
  apply String.eqb_eq in Ec. right. repeat split; assumption.
Qed.

(** X4.  The value an [Address] stores is in normal form: building an
    address from the stored value, on the same chain, succeeds and gives the
    same address.  On the five EVM chains the stored value is the input in
    lower case, on Solana it is the input itself.  For every other chain
    tag, and for the empty string, the constructor throws. *)
Theorem X4_address_normal_form (v c : string) :
  (forall a, Address.new v c = Ok a ->
             Address.new (Address._value a) c = Ok a
             /\ Address._chain a = c
             /\ (Address.isEvmChain c = true ->
                 Address._value a = Js.toLowerCase v)
             /\ (Address.isEvmChain c = false ->
                 c = "solana" /\ Address._value a = v))
  /\ (Address.isEvmChain c = false -> c <> "solana" ->
      Address.new v c
      = Throw ("Invalid address for chain " ++ c ++ ": " ++ v)%string)
  /\ Address.new EmptyString c
     = Throw ("Invalid address for chain " ++ c ++ ": ")%string.
Proof.
  split; [|split].
  - intros a H. destruct (Address_new_inv _ _ _ H) as (Hv & ->).
    destruct (isValidAddress_cases _ _ Hv) as (Hne & [(He & Hx) | (He & Hc & Hs)]).
    + destruct (isValidEVMAddress_lower _ Hx) as (Hlow & Hlne).
      unfold Address.new, Address.isValidAddress, Address.normalize.
      simpl. rewrite He.
      apply String.eqb_neq in Hlne. rewrite Hlne, Hlow. simpl.
      rewrite toLowerCase_idem.
      repeat split; try reflexivity; congruence.
    + unfold Address.normalize. rewrite He. simpl. rewrite H.
      unfold Address.normalize. rewrite He.
      repeat split; try reflexivity; try assumption; congruence.
  - intros He Hc. unfold Address.new, Address.isValidAddress.
    rewrite He. apply String.eqb_neq in Hc. rewrite Hc.
    destruct (String.eqb v EmptyString); reflexivity.
  - reflexivity.
Qed.

(** X4, witness: a checksummed wallet address on Ethereum. *)
Lemma X4_address_normal_form_witness :
  Address.new walletLowerCase "ethereum"
  = Ok (Address.mk walletLowerCase "ethereum").
Proof.
  destruct (X4_address_normal_form walletMixedCase "ethereum") as (H & _).
  destruct (H (Address.mk walletLowerCase "ethereum")) as (Hagain & _).
  - reflexivity.
  - exact Hagain.
Defined.

(** X5.  Two addresses built for the same chain are [equals] exactly when,
    on an EVM chain, the inputs agree up to letter case and, on Solana,
    the inputs are the same string. *)
Theorem X5_address_equals (v w c : string) (a b : Address.t) :
  Address.new v c = Ok a -> Address.new w c = Ok b ->
  (Address.isEvmChain c = true ->
   (Address.equals a b = true <-> Js.toLowerCase v = Js.toLowerCase w))
  /\ (Address.isEvmChain c = false ->
      (Address.equals a b = true <-> v = w)).
Proof.
  intros Ha Hb.
  destruct (Address_new_inv _ _ _ Ha) as (_ & ->).
  destruct (Address_new_inv _ _ _ Hb) as (_ & ->).
  unfold Address.equals, Address.normalize. simpl.
  rewrite String.eqb_refl, andb_true_r.
  split; intros He; rewrite He; apply String.eqb_eq.
Qed.

(** X5, witness: the checksummed and the lower-case spelling of a wallet. *)
Lemma X5_address_equals_witness :
  Address.equals (Address.mk walletLowerCase "ethereum")
                 (Address.mk walletLowerCase "ethereum") = true.
Proof.
  destruct (X5_address_equals walletMixedCase walletLowerCase "ethereum"
              (Address.mk walletLowerCase "ethereum")
              (Address.mk walletLowerCase "ethereum")) as (H & _).
  - reflexivity.
  - reflexivity.
  - apply H; reflexivity.
Defined.

End AddressLaws.

(** ** The same-asset predicates as relations *)

Section SameAssetRelations.

Lemma strict_eq_refl (a : option string) : Js.strict_eq a a = true.
Proof. apply strict_eq_true. reflexivity. Qed.

(** X6.  [AssetReconciliationService.isSameAsset] is an equivalence
    relation on assets: reflexive, symmetric and transitive. *)
Theorem X6_service_same_asset_equivalence :
  (forall a, AssetReconciliationService.isSameAsset a a = true)
  /\ (forall a b,
        AssetReconciliationService.isSameAsset a b
        = AssetReconciliationService.isSameAsset b a)
  /\ (forall a b c,
        AssetReconciliationService.isSameAsset a b = true ->
        AssetReconciliationService.isSameAsset b c = true ->
        AssetReconciliationService.isSameAsset a c = true).
Proof.
  split; [|split].
  - intros a. apply (proj1 (isSameAsset_cases a a)).
    repeat split. destruct (carries a); [left|right]; repeat split.
  - intros a b. apply eq_true_iff_eq.
    rewrite (proj1 (isSameAsset_cases a b)), (proj1 (isSameAsset_cases b a)).
    intuition congruence.
  - intros a b c Hab Hbc.
    apply (proj1 (isSameAsset_cases a b)) in Hab.
    apply (proj1 (isSameAsset_cases b c)) in Hbc.
    apply (proj1 (isSameAsset_cases a c)).
    intuition congruence.
Qed.

(** [AssetEntity.isSameAsset], the predicate [addAsset] consults, is
    reflexive and symmetric.  It is not transitive: a holding without
    contract address is the same asset as each of two holdings of its symbol,
    type and chain that carry different contract addresses. *)
Theorem entity_same_asset_relation :
  (forall a, AssetEntity.isSameAsset a a = true)
  /\ (forall a b, AssetEntity.isSameAsset a b = AssetEntity.isSameAsset b a)
  /\ (exists a b c,
        AssetEntity.isSameAsset a b = true
        /\ AssetEntity.isSameAsset b c = true
        /\ AssetEntity.isSameAsset a c = false).
Proof.
  split; [|split].
  - intros a. apply (proj2 (isSameAsset_cases a a)).
    split; [reflexivity|].
    destruct (carries a); [left|right]; repeat split. right. reflexivity.
  - intros a b. apply eq_true_iff_eq.
    rewrite (proj2 (isSameAsset_cases a b)), (proj2 (isSameAsset_cases b a)).
    intuition congruence.
  - exists ethWithContract, ethNative, ethOtherContract.
    repeat split.
Qed.

(** X7.  Merging keeps the identity of a holding.  For assets built by the
    constructor (symbol stored in upper case), the result of
    [AssetEntity.merge] has the id of the receiver, the result of
    [mergeAssets] the id of the preferred asset, and either result is again
    the same asset as each of the two operands, by the predicate that
    guarded the merge. *)
Theorem X7_merge_keeps_identity (a b m : AssetEntity.t) :
  upperSymbol a -> upperSymbol b ->
  (AssetEntity.merge a b = Ok m ->
   AssetEntity._id m = AssetEntity._id a
   /\ AssetEntity.isSameAsset m a = true
   /\ AssetEntity.isSameAsset m b = true)
  /\ (AssetReconciliationService.mergeAssets a b = Ok m ->
      AssetEntity._id m
      = AssetEntity._id (AssetReconciliationService.selectPreferredSource a b)
      /\ AssetReconciliationService.isSameAsset m a = true
      /\ AssetReconciliationService.isSameAsset m b = true).
Proof.
  intros Ua Ub. split.
  - intros H. destruct (merge_inv _ _ _ H) as (Hs & text & _ & ->).
    split; [reflexivity|].
    apply (proj2 (isSameAsset_cases a b)) in Hs.
    split; apply (proj2 (isSameAsset_cases _ _));
      unfold carries, contractOf, Js.or_else in *; simpl; rewrite <- Ua;
      destruct (Js.truthy (AssetEntity._contractAddress a)) eqn:Ca;
      destruct (Js.truthy (AssetEntity._contractAddress b)) eqn:Cb;
      rewrite ?Ca, ?Cb; intuition (try discriminate; try congruence).
  - intros H. destruct (mergeAssets_inv _ _ _ H) as (Hs & text & Ht).
    rewrite (mergeAssets_same _ _ _ Hs Ht) in H. inversion H as [Hm].
    clear H Hm.
    split; [reflexivity|].
    pose proof (proj1 (isSameAsset_cases a b)) as Hab.
    apply Hab in Hs.
    unfold AssetReconciliationService.selectPreferredSource.
    destruct (AssetReconciliationService.prefersFirst a b);
      (split; apply (proj1 (isSameAsset_cases _ _));
       unfold carries, contractOf in *; simpl;
       rewrite <- ?Ua, <- ?Ub; intuition (try discriminate; try congruence)).
Qed.

(** X7, witness: the two ETH holdings of the merge scenario. *)
Lemma X7_merge_keeps_identity_witness :
  exists m,
    AssetReconciliationService.mergeAssets ethOneAndHalf ethTwoAndHalf = Ok m
    /\ AssetReconciliationService.isSameAsset m ethOneAndHalf = true
    /\ AssetReconciliationService.isSameAsset m ethTwoAndHalf = true.
Proof.
  destruct (AssetReconciliationService.mergeAssets ethOneAndHalf ethTwoAndHalf)
    as [m|msg] eqn:E; [|vm_compute in E; discriminate E].
  exists m. split; [reflexivity|].
  destruct (X7_merge_keeps_identity ethOneAndHalf ethTwoAndHalf m)
    as (_ & H).
  - reflexivity.
  - reflexivity.
  - destruct (H E) as (_ & Ha & Hb). split; assumption.
Defined.

End SameAssetRelations.

(** ** More on insertion-ordered maps *)

Section JsMapUpdates.

Context {V : Type}.

Lemma keys_set (k k' : string) (v : V) (m : JsMap.t V) :
  In k' (JsMap.keys (JsMap.set k v m)) <-> k' = k \/ In k' (JsMap.keys m).
Proof.
  induction m as [|[k0 v0] m IH]; simpl.
  - intuition.
  - destruct (String.eqb k k0) eqn:E; simpl.
    + apply String.eqb_eq in E. subst. intuition.
    + rewrite IH. intuition.
Qed.

Lemma length_set (k : string) (v : V) (m : JsMap.t V) :
  (List.length m <= List.length (JsMap.set k v m) <= S (List.length m))%nat.
Proof.
  induction m as [|[k0 v0] m IH]; simpl; [lia|].
  destruct (String.eqb k k0); simpl; lia.
Qed.

End JsMapUpdates.

(** ** Sums over insertion-ordered maps *)

Section MapSums.

Context {V : Type}.
Variable f : V -> Q.

Lemma sumOf_app (l1 l2 : list V) :
  (sumOf f (l1 ++ l2) == sumOf f l1 + sumOf f l2)%Q.
Proof.
  induction l1 as [|v l1 IH]; simpl; [ring|]. rewrite IH. ring.
Qed.

Lemma sumOf_set_absent (k : string) (v : V) (m : JsMap.t V) :
  JsMap.get k m = None ->
  (sumOf f (JsMap.values (JsMap.set k v m))
   == sumOf f (JsMap.values m) + f v)%Q.
Proof.
  intros G. rewrite (set_absent _ _ _ G). unfold JsMap.values.
  rewrite map_app, sumOf_app. simpl. ring.
Qed.

Lemma sumOf_set_present (k : string) (v v0 : V) (m : JsMap.t V) :
  JsMap.get k m = Some v0 ->
  (sumOf f (JsMap.values (JsMap.set k v m))
   == sumOf f (JsMap.values m) - f v0 + f v)%Q.
Proof.
  induction m as [|[k' v'] m IH]; simpl; [discriminate|].
  destruct (String.eqb k k') eqn:E; simpl.
  - intros H. inversion H. subst. ring.
  - intros H. rewrite (IH H). ring.
Qed.

End MapSums.

Lemma keyedBy_keys (keyOf : AssetEntity.t -> string)
    (m : JsMap.t AssetEntity.t) :
  keyedBy keyOf m -> map keyOf (JsMap.values m) = JsMap.keys m.
Proof.
  induction 1 as [|[k v] m Hkv _ IH]; simpl; [reflexivity|].
  simpl in Hkv. now rewrite Hkv, IH.
Qed.

(** ** Reconciliation of a list of assets *)

Section ReconcileList.

Import AssetReconciliationService.

Lemma service_loop_keys (l : list AssetEntity.t) :
  forall m r,
    reconcileLoop l m = Ok r ->
    (forall k, In k (JsMap.keys r)
               <-> In k (JsMap.keys m) \/ In k (map generateAssetKey l))
    /\ (List.length r <= List.length m + List.length l)%nat.
Proof.
  induction l as [|a l IH]; simpl; intros m r Hr.
  - inversion Hr. subst. split; [intuition|lia].
  - assert (Hstep : forall x,
              reconcileLoop l (JsMap.set (generateAssetKey a) x m) = Ok r ->
              (forall k, In k (JsMap.keys r)
                 <-> In k (JsMap.keys m)
                     \/ generateAssetKey a = k \/ In k (map generateAssetKey l))
              /\ (List.length r <= List.length m + S (List.length l))%nat).
    { intros x Hx. destruct (IH _ _ Hx) as (Hk & Hl). split.
      - intros k. rewrite Hk, keys_set. intuition congruence.
      - pose proof (length_set (generateAssetKey a) x m). lia. }
    destruct (JsMap.get _ m) as [e|] eqn:G.
    + destruct (mergeAssets e a) as [x|] eqn:M; simpl in Hr; [|discriminate].
      apply (Hstep _ Hr).
    + apply (Hstep _ Hr).
Qed.

(** X8.  When [reconcile] returns, no two assets of the result share a
    reconciliation key, the keys of the result are exactly the keys of the
    input, and the result is no longer than the input. *)
Theorem X8_reconcile_keys (l r : list AssetEntity.t) :
  reconcile l = Ok r ->
  NoDup (map generateAssetKey r)
  /\ (forall k, In k (map generateAssetKey r)
                <-> In k (map generateAssetKey l))
  /\ (List.length r <= List.length l)%nat.
Proof.
  unfold reconcile, rmap.
  destruct (reconcileLoop l JsMap.empty) as [m|] eqn:E; simpl; [|discriminate].
  intros H. inversion H. subst r. clear H.
  destruct (service_loop_invariant l JsMap.empty m) as (Hk & Hn);
    [constructor|constructor|exact E|].
  destruct (service_loop_keys l _ _ E) as (Hkeys & Hlen).
  rewrite (keyedBy_keys _ _ Hk). split; [exact Hn|]. split.
  - intros k. rewrite Hkeys. simpl. intuition.
  - unfold JsMap.values. rewrite length_map. simpl in Hlen. exact Hlen.
Qed.

(** X8, witness: two ETH holdings and one USDC holding. *)
Lemma X8_reconcile_keys_witness :
  exists r, reconcile threeHoldings = Ok r
            /\ NoDup (map generateAssetKey r)
            /\ (List.length r <= 3)%nat.
Proof.
  destruct (reconcile threeHoldings) as [r|msg] eqn:E;
    [|vm_compute in E; discriminate E].
  exists r. split; [reflexivity|].
  destruct (X8_reconcile_keys threeHoldings r E) as (Hn & _ & Hl).
  split; assumption.
Defined.

(** X11.  A list whose assets have pairwise different reconciliation keys
    is returned as it is, in the same order: nothing is merged and nothing
    is thrown. *)
Theorem X11_reconcile_distinct_keys (l : list AssetEntity.t) :
  NoDup (map generateAssetKey l) -> reconcile l = Ok l.
Proof.
  intros Hn.
  pose (m2 := map (fun a => (generateAssetKey a, a)) l).
  assert (Hv : JsMap.values m2 = l).
  { unfold JsMap.values, m2. rewrite map_map. simpl. apply map_id. }
  assert (Hk : JsMap.keys m2 = map generateAssetKey l).
  { unfold JsMap.keys, m2. rewrite map_map. reflexivity. }
  unfold reconcile. rewrite <- Hv at 1.
  rewrite (service_loop_fresh m2 JsMap.empty).
  - simpl. rewrite Hv. reflexivity.
  - unfold keyedBy, m2. apply Forall_forall. intros e He.
    apply in_map_iff in He. destruct He as (a & <- & _). reflexivity.
  - simpl. rewrite Hk. exact Hn.
Qed.

(** X11, witness: an ETH and a USDC holding. *)
Lemma X11_reconcile_distinct_keys_witness :
  reconcile [ethOneAndHalf; usdcUpper] = Ok [ethOneAndHalf; usdcUpper].
Proof.
  apply X11_reconcile_distinct_keys.
  repeat constructor; simpl; intuition discriminate.
Defined.

End ReconcileList.

(** ** When [reconcile] returns *)

Section ReconcileTotal.

Import AssetReconciliationService.

Lemma service_same_sym (a b : AssetEntity.t) :
  isSameAsset a b = true -> isSameAsset b a = true.
Proof.
  intros H. apply (proj1 (isSameAsset_cases a b)) in H.
  apply (proj1 (isSameAsset_cases b a)). intuition congruence.
Qed.

Lemma service_same_trans (a b c : AssetEntity.t) :
  isSameAsset a b = true -> isSameAsset b c = true -> isSameAsset a c = true.
Proof.
  intros Hab Hbc.
  apply (proj1 (isSameAsset_cases a b)) in Hab.
  apply (proj1 (isSameAsset_cases b c)) in Hbc.
  apply (proj1 (isSameAsset_cases a c)). intuition congruence.
Qed.

Lemma mergeAssets_ok (e a : AssetEntity.t) :
  upperSymbol e -> upperSymbol a ->
  decimalsInRange e -> decimalsInRange a ->
  isSameAsset e a = true ->
  exists x, mergeAssets e a = Ok x
            /\ upperSymbol x /\ decimalsInRange x
            /\ isSameAsset x e = true.
Proof.
  intros Ue Ua De Da Hs.
  assert (Dp : decimalsInRange (selectPreferredSource e a))
    by (unfold selectPreferredSource; destruct (prefersFirst e a); assumption).
  destruct (toFixed_in_range
              (Js.add (amount (AssetEntity._balance e))
                      (amount (AssetEntity._balance a)))
              _ Dp) as (text & Ht).
  eexists. split; [apply (mergeAssets_same _ _ _ Hs Ht)|].
  split; [apply new_upperSymbol|]. split; [exact Dp|].
  apply (proj1 (isSameAsset_cases e a)) in Hs.
  apply (proj1 (isSameAsset_cases _ _)).
  unfold selectPreferredSource.
  destruct (prefersFirst e a); unfold carries, contractOf in *; simpl;
    rewrite <- ?Ue, <- ?Ua; intuition (try discriminate; try congruence).
Qed.

Lemma mergeable_weaken (a : AssetEntity.t) (l : list AssetEntity.t)
    (m : JsMap.t AssetEntity.t) :
  Forall (mergeable (a :: l)) m -> Forall (mergeable l) m.
Proof.
  apply Forall_impl. intros e (Hk & Hu & Hd & Hs).
  split; [exact Hk|]. split; [exact Hu|]. split; [exact Hd|].
  intros a' Hin. apply Hs. now right.
Qed.

Lemma service_loop_total (l : list AssetEntity.t) :
  forall m,
    Forall upperSymbol l -> Forall decimalsInRange l ->
    sameKeySameAsset l ->
    Forall (mergeable l) m ->
    exists r, reconcileLoop l m = Ok r.
Proof.
  induction l as [|a l IH]; simpl; intros m Hu Hd Hs Hm.
  - eexists. reflexivity.
  - inversion Hu as [|? ? Ua Hu']; subst.
    inversion Hd as [|? ? Da Hd']; subst.
    assert (Hs' : sameKeySameAsset l).
    { intros x y Hx Hy. apply Hs; now right. }
    destruct (JsMap.get (generateAssetKey a) m) as [e|] eqn:G.
    + destruct (get_Forall _ _ _ _ Hm G) as (Ke & Ue & De & Se).
      simpl in Ke, Ue, De, Se.
      assert (Hea : isSameAsset e a = true)
        by (apply Se; [now left|reflexivity]).
      destruct (mergeAssets_ok e a Ue Ua De Da Hea) as (x & Hx & Ux & Dx & Sx).
      rewrite Hx. simpl. apply IH; auto.
      apply set_Forall; [now apply mergeable_weaken with (a := a)|].
      split; [|split; [exact Ux|split; [exact Dx|]]]; simpl.
      * rewrite (mergeAssets_key _ _ _ Hx); congruence.
      * intros a' Hin Hk'.
        apply service_same_trans with (b := e); [exact Sx|].
        apply Se; [now right|exact Hk'].
    + apply IH; auto.
      apply set_Forall; [now apply mergeable_weaken with (a := a)|].
      split; [reflexivity|split; [exact Ua|split; [exact Da|]]]; simpl.
      intros a' Hin Hk'. apply Hs; [now left|now right|now symmetry].
Qed.

(** X10.  [reconcile] returns, and throws nothing, on every list of assets
    built by the constructor whose decimals lie within 0..100 and in which
    any two assets with one reconciliation key are the same asset. *)
Theorem X10_reconcile_returns (l : list AssetEntity.t) :
  Forall upperSymbol l -> Forall decimalsInRange l -> sameKeySameAsset l ->
  exists r, reconcile l = Ok r.
Proof.
  intros Hu Hd Hs.
  destruct (service_loop_total l JsMap.empty Hu Hd Hs) as (m & Hm);
    [constructor|].
  unfold reconcile. rewrite Hm. eexists. reflexivity.
Qed.

(** X10, witness: two ETH holdings and one USDC holding. *)
Lemma X10_reconcile_returns_witness :
  exists r, reconcile threeHoldings = Ok r.
Proof.
  apply X10_reconcile_returns.
  - repeat constructor.
  - repeat constructor; simpl; lia.
  - intros a b [<-|[<-|[<-|[]]]] [<-|[<-|[<-|[]]]] Hk;
      first [reflexivity | vm_compute in Hk; discriminate Hk].
Defined.

End ReconcileTotal.

(** ** The aggregate: adding, removing and reconciling assets *)

Section AggregateAssets.

Import PortfolioAggregate.

Lemma NoDup_get {V : Type} (k : string) (v : V) (m : JsMap.t V) :
  NoDup (JsMap.keys m) -> In (k, v) m -> JsMap.get k m = Some v.
Proof.
  induction m as [|[k0 v0] m IH]; simpl; intros Hn Hin; [contradiction|].
  inversion Hn as [|? ? Hk0 Hn']; subst.
  destruct Hin as [E|Hin].
  - inversion E. subst. now rewrite String.eqb_refl.
  - destruct (String.eqb k k0) eqn:E.
    + apply String.eqb_eq in E. subst. exfalso. apply Hk0.
      apply in_map_iff. exists (k0, v). split; [reflexivity|exact Hin].
    + apply IH; assumption.
Qed.

Lemma findSimilar_found (l : list AssetEntity.t) (a e : AssetEntity.t) :
  findSimilar l a = Some e -> In e l /\ AssetEntity.isSameAsset e a = true.
Proof.
  induction l as [|x l IH]; simpl; [discriminate|].
  destruct (AssetEntity.isSameAsset x a) eqn:E.
  - intros H. inversion H. subst. split; [now left|exact E].
  - intros H. destruct (IH H). split; [now right|assumption].
Qed.

Lemma keyedBy_In (keyOf : AssetEntity.t -> string)
    (m : JsMap.t AssetEntity.t) (e : AssetEntity.t) :
  keyedBy keyOf m -> In e (JsMap.values m) -> In (keyOf e, e) m.
Proof.
  intros Hk Hin. apply in_map_iff in Hin. destruct Hin as ([k v] & <- & Hin).
  unfold keyedBy in Hk. rewrite Forall_forall in Hk.
  pose proof (Hk _ Hin) as E. simpl in *. now rewrite E.
Qed.

Lemma merge_quantity (e a x : AssetEntity.t) :
  AssetEntity.merge e a = Ok x ->
  AssetEntity._id x = AssetEntity._id e
  /\ quantity x = Js.add (quantity e) (quantity a).
Proof.
  intros H. destruct (merge_inv _ _ _ H) as (_ & text & _ & ->).
  split; reflexivity.
Qed.

Lemma storedById_set (m : JsMap.t AssetEntity.t) (x : AssetEntity.t) :
  storedById m -> storedById (JsMap.set (AssetEntity._id x) x m).
Proof.
  intros (Hk & Hn). split.
  - apply set_Forall; [exact Hk|reflexivity].
  - destruct (JsMap.get (AssetEntity._id x) m) as [v0|] eqn:G.
    + now rewrite (set_present_keys _ _ _ _ G).
    + now apply NoDup_keys_set_absent.
Qed.

(** What one [addAsset] does to an aggregate whose assets are stored by
    id. *)
Lemma addAsset_effect (now : Z) (p p' : t) (a : AssetEntity.t) :
  storedById (_assets p) ->
  addAsset now p a = Ok p' ->
  storedById (_assets p')
  /\ _id p' = _id p /\ _userId p' = _userId p
  /\ sources p' = sources p /\ _lastUpdated p' = now
  /\ match findSimilarAsset p a with
     | Some e =>
         JsMap.keys (_assets p') = JsMap.keys (_assets p)
         /\ (exists x, JsMap.get (AssetEntity._id e) (_assets p') = Some x
                       /\ quantity x = Js.add (quantity e) (quantity a))
         /\ (forall k, k <> AssetEntity._id e ->
                       JsMap.get k (_assets p') = JsMap.get k (_assets p))
     | None =>
         JsMap.get (AssetEntity._id a) (_assets p') = Some a
         /\ match JsMap.get (AssetEntity._id a) (_assets p) with
            | Some old =>
                JsMap.keys (_assets p') = JsMap.keys (_assets p)
                /\ (holdings (assets p')
                    == holdings (assets p) - quantity old + quantity a)%Q
            | None =>
                JsMap.keys (_assets p')
                = JsMap.keys (_assets p) ++ [AssetEntity._id a]
                /\ (holdings (assets p')
                    == holdings (assets p) + quantity a)%Q
            end
     end.
Proof.
  intros Hst. unfold addAsset.
  destruct (findSimilarAsset p a) as [e|] eqn:F.
  - destruct (AssetEntity.merge e a) as [x|] eqn:M; simpl; [|discriminate].
    intros H. inversion H. subst p'. clear H. simpl.
    destruct (merge_quantity _ _ _ M) as (Hid & Hq).
    destruct (findSimilar_found _ _ _ F) as (Hin & _).
    destruct Hst as (Hk & Hn).
    pose proof (NoDup_get _ _ _ Hn (keyedBy_In _ _ _ Hk Hin)) as G.
    split; [apply storedById_set; split; assumption|].
    repeat (split; [reflexivity|]).
    rewrite Hid. split; [|split].
    + apply (set_present_keys _ _ _ _ G).
    + exists x. split; [apply get_set_same|exact Hq].
    + intros k Hne. now apply get_set_other.
  - simpl. intros H. inversion H. subst p'. clear H. simpl.
    split; [apply storedById_set; exact Hst|].
    repeat (split; [reflexivity|]).
    split; [apply get_set_same|].
    destruct (JsMap.get (AssetEntity._id a) (_assets p)) as [old|] eqn:G.
    + split; [apply (set_present_keys _ _ _ _ G)|].
      unfold holdings, assets. simpl.
      apply (sumOf_set_present _ _ _ _ _ G).
    + split.
      * rewrite (set_absent _ _ _ G), keys_app. reflexivity.
      * unfold holdings, assets. simpl.
        apply (sumOf_set_absent _ _ _ _ G).
Qed.

(** X13.  [addAsset] on an aggregate whose assets are stored by id.  If a
    stored asset is the same asset as the new one, that holding takes the
    sum of the two amounts as the language adds them; no entry is added and
    no other entry changes.  Otherwise the asset is stored under its own
    id: as a new entry if the id is free, in the place of the asset that
    had the id if it is taken, whose balance then leaves the holdings.
    Either way the assets stay stored by id, the sources are untouched and
    [lastUpdated] is the instant of the call. *)
Theorem X13_addAsset_accounting (now : Z) (p p' : t) (a : AssetEntity.t) :
  storedById (_assets p) ->
  addAsset now p a = Ok p' ->
  storedById (_assets p')
  /\ sources p' = sources p /\ _lastUpdated p' = now
  /\ (forall e, findSimilarAsset p a = Some e ->
        List.length (assets p') = List.length (assets p)
        /\ (exists x, JsMap.get (AssetEntity._id e) (_assets p') = Some x
                      /\ quantity x = Js.add (quantity e) (quantity a))
        /\ (forall k, k <> AssetEntity._id e ->
                      JsMap.get k (_assets p') = JsMap.get k (_assets p)))
  /\ (findSimilarAsset p a = None ->
      JsMap.get (AssetEntity._id a) (_assets p') = Some a
      /\ (JsMap.get (AssetEntity._id a) (_assets p) = None ->
          List.length (assets p') = S (List.length (assets p))
          /\ (holdings (assets p') == holdings (assets p) + quantity a)%Q)
      /\ (forall old,
            JsMap.get (AssetEntity._id a) (_assets p) = Some old ->
            List.length (assets p') = List.length (assets p)
            /\ (holdings (assets p')
                == holdings (assets p) - quantity old + quantity a)%Q)).
Proof.
  intros Hst H.
  destruct (addAsset_effect now p p' a Hst H) as (Hst' & _ & _ & Hs & Hl & Hm).
  assert (Hlen : forall q : t, List.length (assets q)
                               = List.length (JsMap.keys (_assets q))).
  { intros q. unfold assets, JsMap.values, JsMap.keys.
    now rewrite !length_map. }
  split; [exact Hst'|]. split; [exact Hs|]. split; [exact Hl|].
  destruct (findSimilarAsset p a) as [e|].
  - split; [|discriminate].
    intros e' E. inversion E. subst e'. destruct Hm as (Hk & Hx & Hh).
    split; [now rewrite !Hlen, Hk|]. split; assumption.
  - split; [discriminate|]. intros _. destruct Hm as (Hg & Hm).
    split; [exact Hg|].
    destruct (JsMap.get (AssetEntity._id a) (_assets p)) as [old|].
    + split; [discriminate|]. intros old' E. inversion E. subst old'.
      destruct Hm as (Hk & Hh). split; [now rewrite !Hlen, Hk|exact Hh].
    + split; [|discriminate]. intros _. destruct Hm as (Hk & Hh).
      split; [|exact Hh].
      rewrite !Hlen, Hk, length_app. simpl. lia.
Qed.

(** X13, witness: a first ETH holding enters an empty aggregate. *)
Lemma X13_addAsset_accounting_witness :
  exists p', addAsset 5 emptyAggregate ethOneAndHalf = Ok p'
             /\ _lastUpdated p' = 5
             /\ JsMap.get (AssetEntity._id ethOneAndHalf) (_assets p')
                = Some ethOneAndHalf.
Proof.
  destruct (addAsset 5 emptyAggregate ethOneAndHalf) as [p'|msg] eqn:E;
    [|vm_compute in E; discriminate E].
  exists p'. split; [reflexivity|].
  destruct (X13_addAsset_accounting 5 emptyAggregate p' ethOneAndHalf)
    as (_ & _ & Hl & _ & Hnew).
  - split; constructor.
  - exact E.
  - split; [exact Hl|]. apply Hnew. reflexivity.
Defined.

End AggregateAssets.

(** ** The aggregate: [removeAsset] and [reconcile] *)

Section AggregateHoldings.

Import PortfolioAggregate.

Lemma get_delete_eq {V : Type} (k : string) (m : JsMap.t V) :
  NoDup (JsMap.keys m) -> JsMap.get k (JsMap.delete k m) = None.
Proof.
  induction m as [|[k0 v0] m IH]; simpl; intros Hn; [reflexivity|].
  inversion Hn as [|? ? Hk0 Hn']; subst.
  destruct (String.eqb k k0) eqn:E; simpl.
  - apply String.eqb_eq in E. subst. now apply get_None_not_in.
  - rewrite E. apply IH. exact Hn'.
Qed.

Lemma get_delete_neq {V : Type} (k k' : string) (m : JsMap.t V) :
  k' <> k -> JsMap.get k' (JsMap.delete k m) = JsMap.get k' m.
Proof.
  intros N. induction m as [|[k0 v0] m IH]; simpl; [reflexivity|].
  destruct (String.eqb k k0) eqn:E; simpl.
  - apply String.eqb_eq in E. subst.
    apply String.eqb_neq in N. now rewrite N.
  - destruct (String.eqb k' k0); auto.
Qed.

Lemma sumOf_delete {V : Type} (f : V -> Q) (k : string) (v : V)
    (m : JsMap.t V) :
  JsMap.get k m = Some v ->
  (sumOf f (JsMap.values (JsMap.delete k m))
   == sumOf f (JsMap.values m) - f v)%Q.
Proof.
  induction m as [|[k0 v0] m IH]; simpl; [discriminate|].
  destruct (String.eqb k k0) eqn:E; simpl.
  - intros H. inversion H. subst. ring.
  - intros H. rewrite (IH H). ring.
Qed.

(** X15.  [removeAsset] with an id under which nothing is stored leaves
    the aggregate as it is, [lastUpdated] included.  With the id of a stored
    asset it removes that entry and no other, the holdings drop by its
    balance, the sources stay, and [lastUpdated] is the instant of the
    call. *)
Theorem X15_removeAsset (now : Z) (p : t) (assetId : string) :
  NoDup (JsMap.keys (_assets p)) ->
  (JsMap.get assetId (_assets p) = None -> removeAsset now p assetId = p)
  /\ (forall a,
        JsMap.get assetId (_assets p) = Some a ->
        let p' := removeAsset now p assetId in
        JsMap.get assetId (_assets p') = None
        /\ (forall k, k <> assetId ->
                      JsMap.get k (_assets p') = JsMap.get k (_assets p))
        /\ (holdings (assets p') == holdings (assets p) - quantity a)%Q
        /\ sources p' = sources p
        /\ _lastUpdated p' = now).
Proof.
  intros Hn. unfold removeAsset, JsMap.has. split.
  - intros G. rewrite G. reflexivity.
  - intros a G. rewrite G. simpl.
    split; [apply get_delete_eq; exact Hn|].
    split; [intros k Hk; apply get_delete_neq; exact Hk|].
    split; [apply (sumOf_delete quantity _ _ _ G)|].
    split; reflexivity.
Qed.

(** X15, witness: the USDC holding leaves the aggregate of the
    reconciliation scenario. *)
Lemma X15_removeAsset_witness :
  JsMap.get "a3" (_assets (removeAsset 9 duplicatedHoldings "a3")) = None
  /\ _lastUpdated (removeAsset 9 duplicatedHoldings "a3") = 9
  /\ removeAsset 9 duplicatedHoldings "a9" = duplicatedHoldings.
Proof.
  destruct (X15_removeAsset 9 duplicatedHoldings "a3") as (_ & Hrm).
  - repeat constructor; simpl; intuition discriminate.
  - destruct (Hrm usdcUpper) as (Hgone & _ & _ & _ & Hl); [reflexivity|].
    split; [exact Hgone|]. split; [exact Hl|]. reflexivity.
Defined.

(** X12.  When [reconcile()] returns on an aggregate of assets built by
    the constructor, no two assets share an asset key, and id, user and
    sources are as before.  The asset map is from then on keyed by asset
    key, not by asset id: [removeAsset] finds nothing under an id that is
    not one of the asset keys. *)
Theorem X12_aggregate_reconcile (now later : Z) (p p' : t) :
  Forall upperSymbol (assets p) ->
  reconcile now p = Ok p' ->
  NoDup (map getAssetKey (assets p'))
  /\ JsMap.keys (_assets p') = map getAssetKey (assets p')
  /\ _id p' = _id p /\ _userId p' = _userId p
  /\ sources p' = sources p /\ _lastUpdated p' = now
  /\ (forall assetId,
        ~ In assetId (map getAssetKey (assets p')) ->
        removeAsset later p' assetId = p').
Proof.
  intros Hu. unfold reconcile.
  destruct (reconcileLoop (assets p) JsMap.empty) as [m|] eqn:E; simpl;
    [|discriminate].
  intros H. inversion H. subst p'. clear H. unfold assets at 1 2 3. simpl.
  destruct (aggregate_loop_invariant (assets p) JsMap.empty m Hu)
    as (Hk & Hn); [constructor|constructor|constructor|exact E|].
  rewrite (keyedBy_keys _ _ Hk).
  split; [exact Hn|]. split; [reflexivity|].
  repeat (split; [reflexivity|]).
  intros assetId Hnot. unfold removeAsset, JsMap.has. simpl.
  apply get_None_not_in in Hnot. rewrite Hnot. reflexivity.
Qed.

(** X12, witness: the reconciliation scenario; the id of the merged ETH
    holding is no key any more. *)
Lemma X12_aggregate_reconcile_witness :
  exists p',
    reconcile 1 duplicatedHoldings = Ok p'
    /\ _lastUpdated p' = 1
    /\ removeAsset 2 p' "asset-1" = p'.
Proof.
  destruct (reconcile 1 duplicatedHoldings) as [p'|msg] eqn:E;
    [|vm_compute in E; discriminate E].
  exists p'. split; [reflexivity|].
  destruct (X12_aggregate_reconcile 1 2 duplicatedHoldings p')
    as (_ & Hkeys & _ & _ & _ & Hl & Hrm).
  - repeat constructor.
  - exact E.
  - split; [exact Hl|].
    apply Hrm. rewrite <- Hkeys.
    vm_compute in E. inversion E. simpl. intuition discriminate.
Defined.

End AggregateHoldings.

(** ** The circuit breaker: admission *)

Section CircuitAdmission.

Import CircuitBreaker.

Lemma inspect_config (now : Z) (s : t) : config (inspect now s) = config s.
Proof.
  unfold inspect. destruct (state s); try reflexivity.
  destruct (nextRetryTime s); try reflexivity.
  destruct (_ <=? _); reflexivity.
Qed.

(** In a breaker the class can produce, with positive thresholds: closed
    means fewer failures on record than the threshold, half-open means fewer
    attempts than retries, open means a retry instant is set. *)
Lemma reachable_invariant (s : t) :
  reachable s ->
  1 <= failureThreshold (config s) -> 1 <= halfOpenRetries (config s) ->
  (state s = CLOSED -> 0 <= failures s < failureThreshold (config s))
  /\ (state s = HALF_OPEN ->
      0 <= halfOpenAttempts s < halfOpenRetries (config s))
  /\ (state s = OPEN -> exists retryAt, nextRetryTime s = Some retryAt).
Proof.
  induction 1 as [cfg | now s Hs IH | now s Hs IH | now s Hs IH | s Hs _];
    intros Ht Hr.
  - simpl in *. repeat split; try discriminate; lia.
  - rewrite inspect_config in *. specialize (IH Ht Hr).
    destruct IH as (Hc & Hh & Ho). unfold inspect.
    destruct (state s) eqn:E; [rewrite E; tauto| |rewrite E; tauto].
    destruct (Ho eq_refl) as (retryAt & Hn). rewrite Hn.
    destruct (retryAt <=? now); simpl; rewrite ?E, ?Hn;
      repeat split; try discriminate; try lia; eauto.
  - rewrite recordSuccess_config in *. specialize (IH Ht Hr).
    destruct IH as (Hc & Hh & Ho). unfold recordSuccess.
    destruct (state s) eqn:E.
    + simpl. repeat split; try discriminate; lia.
    + simpl. repeat split; try discriminate. intros _. apply Ho. reflexivity.
    + specialize (Hh eq_refl).
      destruct (halfOpenRetries (config s) <=? halfOpenAttempts s + 1) eqn:L;
        simpl; repeat split; try discriminate; lia.
  - rewrite recordFailure_config in *. specialize (IH Ht Hr).
    destruct IH as (Hc & Hh & Ho). unfold recordFailure.
    destruct (state s) eqn:E.
    + specialize (Hc eq_refl).
      destruct (failureThreshold (config s) <=? failures s + 1) eqn:L;
        simpl; repeat split; try discriminate; try lia; eauto.
    + simpl. repeat split; try discriminate. intros _. apply Ho. reflexivity.
    + simpl. repeat split; try discriminate. eauto.
  - simpl in *. repeat split; try discriminate; lia.
Qed.

Lemma allowRequest_refusal (s : t) (now : Z) :
  reachable s ->
  1 <= failureThreshold (config s) -> 1 <= halfOpenRetries (config s) ->
  (snd (allowRequest now s) = false <->
   exists retryAt,
     state s = OPEN /\ nextRetryTime s = Some retryAt /\ now < retryAt).
Proof.
  intros Hs Ht Hr.
  destruct (reachable_invariant s Hs Ht Hr) as (Hc & Hh & Ho).
  unfold allowRequest, inspect. simpl.
  destruct (state s) eqn:E.
  - simpl. rewrite E. split; [discriminate|].
    intros (r & F & _). discriminate F.
  - destruct (Ho eq_refl) as (retryAt & Hn). rewrite Hn.
    destruct (retryAt <=? now) eqn:L; simpl.
    + apply Z.leb_le in L. split.
      * intros F. apply Z.ltb_ge in F. lia.
      * intros (r & _ & Hr' & Hlt). inversion Hr'. subst. lia.
    + apply Z.leb_gt in L. rewrite E. split; [|reflexivity].
      intros _. exists retryAt. repeat split. exact L.
  - simpl. rewrite E. specialize (Hh eq_refl). split.
    + intros F. apply Z.ltb_ge in F. lia.
    + intros (r & F & _). discriminate F.
Qed.

(** X16.  In every breaker the class can produce, with positive
    [failureThreshold] and [halfOpenRetries]: a closed breaker has fewer
    failures on record than the threshold, a half-open one fewer attempts
    than retries, and [allowRequest] refuses a request exactly when the
    breaker is open and its retry instant has not been reached. *)
Theorem X16_breaker_admission (s : t) (now : Z) :
  reachable s ->
  1 <= failureThreshold (config s) -> 1 <= halfOpenRetries (config s) ->
  (state s = CLOSED -> 0 <= failures s < failureThreshold (config s))
  /\ (state s = HALF_OPEN ->
      0 <= halfOpenAttempts s < halfOpenRetries (config s))
  /\ (snd (allowRequest now s) = false <->
      exists retryAt,
        state s = OPEN /\ nextRetryTime s = Some retryAt /\ now < retryAt).
Proof.
  intros Hs Ht Hr.
  destruct (reachable_invariant s Hs Ht Hr) as (Hc & Hh & _).
  split; [exact Hc|]. split; [exact Hh|].
  apply allowRequest_refusal; assumption.
Qed.

(** X16, witness: the tested breaker after three failures refuses at 500 ms
    (the retry instant is 1020 ms). *)
Lemma X16_breaker_admission_witness :
  snd (allowRequest 500
         (recordFailures (fun k => Z.of_nat k * 10) 3 testedBreaker)) = false.
Proof.
  destruct (X16_breaker_admission
              (recordFailures (fun k => Z.of_nat k * 10) 3 testedBreaker) 500)
    as (_ & _ & Hrefuse).
  - simpl. repeat apply reach_failure. apply reach_new.
  - simpl. lia.
  - simpl. lia.
  - apply Hrefuse. exists 1020. repeat split; lia.
Defined.

(** [execute] on a breaker the class can produce, with positive
    thresholds.  When the request is refused, the call rejects with
    ["Circuit breaker is OPEN"] whatever the function would have done, and
    the breaker is left exactly as it was.  When the request is admitted,
    the call settles as the function does, and the breaker records that
    outcome, a success or a failure, on the inspected state. *)
Theorem breaker_execute {A : Type} (s : t) (now done : Z)
    (outcome : result A) :
  reachable s ->
  1 <= failureThreshold (config s) -> 1 <= halfOpenRetries (config s) ->
  (snd (allowRequest now s) = false ->
   execute now done outcome s = (s, Throw "Circuit breaker is OPEN"))
  /\ (snd (allowRequest now s) = true ->
      execute now done outcome s
      = (match outcome with
         | Ok _ => recordSuccess done (inspect now s)
         | Throw _ => recordFailure done (inspect now s)
         end, outcome)).
Proof.
  intros Hs Ht Hr. split.
  - intros Hno. pose proof Hno as Hopen.
    apply (allowRequest_refusal s now Hs Ht Hr) in Hopen.
    destruct Hopen as (retryAt & Ho & Hn & Hlt).
    unfold execute, allowRequest, inspect in *. rewrite Ho, Hn in *.
    apply Z.leb_gt in Hlt. rewrite Hlt in *. rewrite Ho. reflexivity.
  - intros Hyes. unfold execute.
    destruct (allowRequest now s) as [s' ok] eqn:E. simpl in Hyes. subst ok.
    simpl. unfold allowRequest in E. inversion E. subst s'.
    destruct outcome; reflexivity.
Qed.

(** An instance: the open breaker of the test suite rejects at 500 ms. *)
Lemma breaker_execute_witness :
  let opened := recordFailures (fun k => Z.of_nat k * 10) 3 testedBreaker in
  execute 500 600 (Ok 1) opened = (opened, Throw "Circuit breaker is OPEN").
Proof.
  destruct (breaker_execute
              (recordFailures (fun k => Z.of_nat k * 10) 3 testedBreaker)
              500 600 (Ok 1)) as (Hrefused & _).
  - simpl. repeat apply reach_failure. apply reach_new.
  - simpl. lia.
  - simpl. lia.
  - apply Hrefused. reflexivity.
Defined.

Lemma recordFailures_below (at_ : nat -> Z) (s : t) (n : nat) :
  state s = CLOSED ->
  failures s + Z.of_nat n < failureThreshold (config s) ->
  state (recordFailures at_ n s) = CLOSED
  /\ failures (recordFailures at_ n s) = failures s + Z.of_nat n
  /\ config (recordFailures at_ n s) = config s.
Proof.
  intros Hc. induction n as [|n IH]; intros Hlt.
  - simpl. repeat split; try assumption. lia.
  - destruct IH as (Hs & Hf & Hcfg); [lia|].
    simpl. unfold recordFailure. rewrite Hs, Hcfg, Hf.
    destruct (failureThreshold (config s) <=? failures s + Z.of_nat n + 1)
      eqn:L; [apply Z.leb_le in L; lia|].
    simpl. repeat split; try assumption. lia.
Qed.

(** X17.  The threshold counts consecutive failures.  Starting from a
    closed breaker with no failure on record, [k] failures, one success and
    [n] more failures leave the breaker closed whenever [k] and [n] are each
    below [failureThreshold], however large their sum; the counter then
    shows the [n] failures since the success. *)
Theorem X17_breaker_counts_consecutive (s : t) (at1 at2 : nat -> Z)
    (now : Z) (k n : nat) :
  state s = CLOSED -> failures s = 0 ->
  Z.of_nat k < failureThreshold (config s) ->
  Z.of_nat n < failureThreshold (config s) ->
  let afterSuccess := recordSuccess now (recordFailures at1 k s) in
  state (recordFailures at1 k s) = CLOSED
  /\ failures (recordFailures at1 k s) = Z.of_nat k
  /\ state (recordFailures at2 n afterSuccess) = CLOSED
  /\ failures (recordFailures at2 n afterSuccess) = Z.of_nat n.
Proof.
  intros Hc Hf Hk Hn.
  destruct (recordFailures_below at1 s k Hc) as (Hs1 & Hf1 & Hc1); [lia|].
  simpl. split; [exact Hs1|]. split; [lia|].
  assert (Hs2 : state (recordSuccess now (recordFailures at1 k s)) = CLOSED)
    by (unfold recordSuccess; rewrite Hs1; reflexivity).
  assert (Hf2 : failures (recordSuccess now (recordFailures at1 k s)) = 0)
    by (unfold recordSuccess; rewrite Hs1; reflexivity).
  destruct (recordFailures_below at2 _ n Hs2) as (Hs3 & Hf3 & _).
  - rewrite Hf2, recordSuccess_config, Hc1. lia.
  - split; [exact Hs3|]. rewrite Hf3, Hf2. lia.
Qed.

(** X17, witness: two failures, a success and two failures on the tested
    breaker (threshold 3). *)
Lemma X17_breaker_counts_consecutive_witness :
  state (recordFailures (fun _ => 40) 2
           (recordSuccess 30 (recordFailures (fun _ => 10) 2 testedBreaker)))
  = CLOSED.
Proof.
  destruct (X17_breaker_counts_consecutive testedBreaker
              (fun _ => 10) (fun _ => 40) 30 2 2) as (_ & _ & H & _).
  - reflexivity.
  - reflexivity.
  - simpl. lia.
  - simpl. lia.
  - exact H.
Defined.

End CircuitAdmission.

(** ** The sliding window: what it stores and what it reports *)

Section SlidingWindowState.

Import SlidingWindowRateLimiter.

Lemma StronglySorted_filter (p : Z -> bool) (l : list Z) :
  StronglySorted Z.le l -> StronglySorted Z.le (filter p l).
Proof.
  induction 1 as [|x l Hl IH Hx]; simpl; [constructor|].
  destruct (p x); [|exact IH].
  constructor; [exact IH|].
  apply Forall_forall. intros y Hy. apply filter_In in Hy.
  rewrite Forall_forall in Hx. apply Hx. tauto.
Qed.

Lemma StronglySorted_snoc (l : list Z) (x : Z) :
  StronglySorted Z.le l -> Forall (fun y => y <= x) l ->
  StronglySorted Z.le (l ++ [x]).
Proof.
  induction 1 as [|y l Hl IH Hy]; simpl; intros Hb.
  - repeat constructor.
  - inversion Hb as [|? ? Hyx Hb']; subst.
    constructor; [apply IH; exact Hb'|].
    apply Forall_app. split; [exact Hy|]. repeat constructor. exact Hyx.
Qed.

Lemma Forall_filter_keep (P : Z -> Prop) (p : Z -> bool) (l : list Z) :
  Forall P l -> Forall P (filter p l).
Proof.
  intros H. apply Forall_forall. intros y Hy. apply filter_In in Hy.
  rewrite Forall_forall in H. apply H. tauto.
Qed.

Lemma filter_all (p : Z -> bool) (l : list Z) :
  Forall (fun x => p x = true) l -> filter p l = l.
Proof.
  induction 1 as [|x l Hx _ IH]; simpl; [reflexivity|].
  now rewrite Hx, IH.
Qed.

Lemma allowRequest_windowOk (last now : Z) (s : t) :
  windowOk last s -> last <= now ->
  windowOk now (fst (allowRequest now s))
  /\ config (fst (allowRequest now s)) = config s.
Proof.
  intros (Hs & Hb & Hl) Hle. unfold allowRequest, cleanOldRequests. simpl.
  set (kept := filter (fun ts => now - windowSize <? ts) (requestTimestamps s)).
  assert (Hks : StronglySorted Z.le kept) by (apply StronglySorted_filter; exact Hs).
  assert (Hkb : Forall (fun ts => ts <= now) kept).
  { apply Forall_filter_keep. eapply Forall_impl; [|exact Hb].
    simpl. intros. lia. }
  assert (Hkl : (List.length kept <= List.length (requestTimestamps s))%nat)
    by apply filter_length_le.
  destruct (Z.of_nat (List.length kept) <? burstOrRate (config s)) eqn:E;
    simpl; (split; [|reflexivity]); unfold windowOk; simpl.
  - apply Z.ltb_lt in E. split; [apply StronglySorted_snoc; assumption|].
    split.
    + apply Forall_app. split; [exact Hkb|]. repeat constructor. lia.
    + rewrite length_app. simpl. lia.
  - split; [exact Hks|]. split; [exact Hkb|]. lia.
Qed.

Lemma last_cons_default (x : Z) (l : list Z) (d d' : Z) :
  last (x :: l) d = last (x :: l) d'.
Proof.
  revert x. induction l as [|y l IH]; intros x; [reflexivity|].
  change (last (y :: l) d = last (y :: l) d'). apply IH.
Qed.

Lemma slidingAfter_windowOk (calls : list Z) :
  forall (from : Z) (s : t),
    windowOk from s -> sortedFrom from calls ->
    windowOk (last calls from) (slidingAfter calls s)
    /\ config (slidingAfter calls s) = config s.
Proof.
  induction calls as [|now rest IH]; simpl; intros from s Hok Hsorted.
  - split; [exact Hok|reflexivity].
  - destruct Hsorted as (Hle & Hrest).
    destruct (allowRequest_windowOk from now s Hok Hle) as (Hok' & Hcfg).
    destruct (IH now _ Hok' Hrest) as (Hfin & Hcfg').
    split; [|congruence].
    destruct rest as [|next rest']; [exact Hfin|].
    rewrite (last_cons_default next rest' from now). exact Hfin.
Qed.

(** X18.  After any calls of [allowRequest] at non-decreasing instants, a
    sliding-window limiter holds its timestamps in order, none of them later
    than the last call, and never more of them than the limit
    [burstLimit || requestsPerMinute] (none if the limit is negative). *)
Theorem X18_sliding_window_state (cfg : RateLimitConfig) (created : Z)
    (calls : list Z) :
  sortedFrom created calls ->
  windowOk (last calls created) (slidingAfter calls (new cfg))
  /\ config (slidingAfter calls (new cfg)) = cfg.
Proof.
  intros Hsorted.
  apply (slidingAfter_windowOk calls created (new cfg)); [|exact Hsorted].
  unfold windowOk, new. simpl. repeat split; try constructor. lia.
Qed.

(** X18, witness: twenty calls, 100 ms apart, against a limit of ten. *)
Lemma X18_sliding_window_state_witness :
  windowOk 1900 (slidingAfter everyHundredMs (new testedLimits)).
Proof.
  destruct (X18_sliding_window_state testedLimits 0 everyHundredMs) as (H & _).
  - simpl. lia.
  - exact H.
Defined.

Lemma windowOk_clean (last now : Z) (s : t) :
  windowOk last s -> windowOk last (cleanOldRequests now s).
Proof.
  intros (Hs & Hb & Hl). unfold windowOk, cleanOldRequests. simpl.
  split; [apply StronglySorted_filter; exact Hs|].
  split; [apply Forall_filter_keep; exact Hb|].
  pose proof (filter_length_le (fun ts => now - windowSize <? ts)
                (requestTimestamps s)). lia.
Qed.

Lemma clean_clean (now : Z) (s : t) :
  cleanOldRequests now (cleanOldRequests now s) = cleanOldRequests now s.
Proof.
  unfold cleanOldRequests. simpl. f_equal.
  apply filter_all. apply Forall_forall. intros x Hx.
  apply filter_In in Hx. tauto.
Qed.

(** X19.  What [getStats] reports agrees with what [allowRequest] does, for
    a sliding window in a state it can be in.  [isLimited] is set exactly
    when a request at that instant is refused; with a non-negative limit
    [requestsInWindow] and [remainingRequests] add up to the limit.  When
    limited, with a positive limit, [resetTime] lies in the future, every
    request before [resetTime] is refused and the request at [resetTime] is
    admitted. *)
Theorem X19_sliding_window_stats (last now : Z) (s : t) :
  windowOk last s -> last <= now ->
  let s' := fst (getStats now s) in
  let stats := snd (getStats now s) in
  s' = cleanOldRequests now s
  /\ isLimited stats = negb (snd (allowRequest now s))
  /\ (0 <= burstOrRate (config s) ->
      requestsInWindow stats + remainingRequests stats
      = burstOrRate (config s))
  /\ (isLimited stats = true -> 1 <= burstOrRate (config s) ->
      now < resetTime stats
      /\ (forall t, now <= t < resetTime stats ->
                    snd (allowRequest t s') = false)
      /\ snd (allowRequest (resetTime stats) s') = true).
Proof.
  intros Hok Hle.
  pose proof (windowOk_clean last now s Hok) as (Hs & Hb & Hl).
  unfold getStats, getNextResetTime. rewrite clean_clean.
  set (c := cleanOldRequests now s) in *.
  assert (Hcfg : config c = config s) by reflexivity.
  assert (Hnew : Forall (fun ts => now - windowSize < ts) (requestTimestamps c)).
  { apply Forall_forall. intros x Hx. unfold c, cleanOldRequests in Hx.
    simpl in Hx. apply filter_In in Hx. destruct Hx as (_ & Hx).
    apply Z.ltb_lt in Hx. exact Hx. }
  assert (Hallow : snd (allowRequest now s)
                   = (Z.of_nat (List.length (requestTimestamps c))
                      <? burstOrRate (config s))).
  { unfold allowRequest. fold c. rewrite Hcfg.
    destruct (_ <? _); reflexivity. }
  rewrite Hcfg in *.
  destruct (requestTimestamps c) as [|oldest rest] eqn:Ets;
    cbn [fst snd requestsInWindow remainingRequests resetTime isLimited].
  - split; [reflexivity|]. split.
    + rewrite Hallow. cbn [List.length].
      destruct (burstOrRate (config s) <=? Z.of_nat 0) eqn:E;
        destruct (Z.of_nat 0 <? burstOrRate (config s)) eqn:F;
        try reflexivity; lia.
    + split; [intros; lia|].
      intros Hlim Hpos. apply Z.leb_le in Hlim. simpl in Hlim. lia.
  - split; [reflexivity|]. split.
    + rewrite Hallow.
      destruct (burstOrRate (config s)
                <=? Z.of_nat (List.length (oldest :: rest))) eqn:E;
        destruct (Z.of_nat (List.length (oldest :: rest))
                  <? burstOrRate (config s)) eqn:F;
        try reflexivity; lia.
    + split; [intros; lia|].
      intros Hlim Hpos. apply Z.leb_le in Hlim.
      inversion Hnew as [|? ? Hold Hnew']; subst.
      inversion Hs as [|? ? Hsr Hor]; subst.
      unfold windowSize in *. split; [lia|]. split.
      * intros t Ht. unfold allowRequest, cleanOldRequests. rewrite Ets.
        rewrite filter_all.
        -- rewrite Hcfg. simpl List.length.
           destruct (_ <? _) eqn:E; [|reflexivity].
           apply Z.ltb_lt in E. lia.
        -- constructor; [apply Z.ltb_lt; unfold windowSize; lia|].
           eapply Forall_impl; [|exact Hor]. simpl. intros x Hx.
           apply Z.ltb_lt. unfold windowSize. lia.
      * unfold allowRequest, cleanOldRequests. rewrite Ets. simpl filter.
        unfold windowSize.
        replace (oldest + 60000 - 60000 <? oldest) with false
          by (symmetry; apply Z.ltb_ge; lia).
        pose proof (filter_length_le
                      (fun ts => oldest + 60000 - 60000 <? ts) rest) as Hf.
        rewrite Hcfg. simpl config. simpl requestTimestamps.
        destruct (Z.of_nat
                    (List.length
                       (filter (fun ts => oldest + 60000 - 60000 <? ts) rest))
                  <? burstOrRate (config s)) eqn:E; [reflexivity|].
        apply Z.ltb_ge in E. cbn [List.length] in Hl. lia.
Qed.

(** X19, witness: two calls fill a window of two; the next slot opens one
    minute after the older call. *)
Lemma X19_sliding_window_stats_witness :
  snd (getStats 30000 (slidingAfter [0; 10000] (new twoPerMinute)))
  = mkStats 2 0 60000 true
  /\ snd (allowRequest 59999
            (fst (getStats 30000 (slidingAfter [0; 10000] (new twoPerMinute)))))
     = false
  /\ snd (allowRequest 60000
            (fst (getStats 30000 (slidingAfter [0; 10000] (new twoPerMinute)))))
     = true.
Proof.
  destruct (X19_sliding_window_stats 10000 30000
              (slidingAfter [0; 10000] (new twoPerMinute)))
    as (_ & _ & _ & Hreset).
  - change (slidingAfter [0; 10000] (new twoPerMinute))
      with (mk twoPerMinute [0; 10000]).
    unfold windowOk. cbn [requestTimestamps config List.length].
    split; [|split].
    + repeat constructor. lia.
    + repeat constructor; lia.
    + vm_compute. discriminate.
  - lia.
  - destruct Hreset as (_ & Hbefore & Hat);
      [reflexivity|vm_compute; discriminate|].
    split; [reflexivity|]. split; [|exact Hat].
    apply Hbefore. vm_compute. split; [discriminate|reflexivity].
Defined.

End SlidingWindowState.

(** ** The token bucket: refill and admission *)

Section TokenBucketState.

Import TokenBucketRateLimiter.

(** X20.  A token bucket between empty and full stays so under
    [allowRequest], and a fresh bucket with a non-negative capacity is full.
    A request is admitted as soon as the time since the last refill is worth
    one token ([elapsed * requestsPerMinute >= 60000], capacity at least
    one); an empty bucket refuses every request before that and is left
    unchanged by it. *)
Theorem X20_token_bucket_refill (last now : Z) (s : t) :
  bucketOk last s -> last <= now ->
  bucketOk now (fst (allowRequest now s))
  /\ config (fst (allowRequest now s)) = config s
  /\ (forall cfg created,
        0 <= burstOrRate cfg -> bucketOk created (new created cfg))
  /\ (1 <= burstOrRate (config s) ->
      60000 <= (now - lastRefillTime s) * requestsPerMinute (config s) ->
      snd (allowRequest now s) = true)
  /\ (tokens s = 0 ->
      (now - lastRefillTime s) * requestsPerMinute (config s) < 60000 ->
      allowRequest now s = (s, false)).
Proof.
  intros ((Ht0 & Ht1) & Hlast) Hle.
  assert (Hrefill :
            bucketOk now (refillTokens now s)
            /\ config (refillTokens now s) = config s
            /\ (1 <= burstOrRate (config s) ->
                60000 <= (now - lastRefillTime s) * requestsPerMinute (config s) ->
                1 <= tokens (refillTokens now s))
            /\ ((now - lastRefillTime s) * requestsPerMinute (config s) < 60000 ->
                refillTokens now s = s)).
  { unfold refillTokens, tokensToAdd, bucketOk.
    destruct (0 <? now - lastRefillTime s) eqn:E.
    - destruct (0 <? (now - lastRefillTime s) * requestsPerMinute (config s)
                      / 60000) eqn:F.
      + apply Z.ltb_lt in F. simpl.
        split; [lia|]. split; [reflexivity|]. split; [intros; lia|].
        intros Hlt. exfalso.
        assert ((now - lastRefillTime s) * requestsPerMinute (config s) / 60000
                < 1) by (apply Z.div_lt_upper_bound; lia).
        lia.
      + apply Z.ltb_ge in F.
        split; [lia|]. split; [reflexivity|]. split; [|reflexivity].
        intros _ Hge. exfalso.
        assert (1 <= (now - lastRefillTime s) * requestsPerMinute (config s)
                     / 60000) by (apply Z.div_le_lower_bound; lia).
        lia.
    - apply Z.ltb_ge in E.
      split; [lia|]. split; [reflexivity|]. split; [|reflexivity].
      intros _ Hge. exfalso.
      assert (Hz : now - lastRefillTime s = 0) by lia.
      rewrite Hz in Hge. lia. }
  destruct Hrefill as (((Hr0 & Hr1) & Hrl) & Hcfg & Hlive & Hsame).
  unfold allowRequest.
  split; [|split; [|split; [|split]]].
  - destruct (0 <? tokens (refillTokens now s)) eqn:E; simpl.
    + apply Z.ltb_lt in E. unfold bucketOk. simpl. lia.
    + unfold bucketOk. lia.
  - destruct (0 <? tokens (refillTokens now s)); simpl; assumption.
  - intros cfg created Hcap. unfold bucketOk, new. simpl. lia.
  - intros Hcap Hge. specialize (Hlive Hcap Hge).
    destruct (0 <? tokens (refillTokens now s)) eqn:E; [reflexivity|].
    apply Z.ltb_ge in E. lia.
  - intros Hempty Hlt. rewrite (Hsame Hlt), Hempty. reflexivity.
Qed.

(** X20, witness: a bucket of capacity two refilled at two tokens per
    minute, emptied at instant 0, refuses at 29.999 s and admits at 30 s. *)
Lemma X20_token_bucket_refill_witness :
  allowRequest 29999 (mk twoPerMinute 0 0) = (mk twoPerMinute 0 0, false)
  /\ snd (allowRequest 30000 (mk twoPerMinute 0 0)) = true.
Proof.
  split.
  - destruct (X20_token_bucket_refill 0 29999 (mk twoPerMinute 0 0))
      as (_ & _ & _ & _ & Hrefused).
    + repeat split; vm_compute; discriminate.
    + lia.
    + apply Hrefused; [reflexivity|vm_compute; reflexivity].
  - destruct (X20_token_bucket_refill 0 30000 (mk twoPerMinute 0 0))
      as (_ & _ & _ & Hadmit & _).
    + repeat split; vm_compute; discriminate.
    + lia.
    + apply Hadmit; vm_compute; discriminate.
Defined.

End TokenBucketState.

(** ** Valuation of a portfolio *)

Section Valuation.

Import PortfolioValuationService.








End Valuation.

(** ** Allocations *)

Section Allocations.

Import PortfolioValuationService.







End Allocations.

(** ** Grouping by chain *)

Section ChainGroups.

Import PortfolioValuationService.

Lemma NoDup_keys_set {V : Type} (k : string) (v : V) (m : JsMap.t V) :
  NoDup (JsMap.keys m) -> NoDup (JsMap.keys (JsMap.set k v m)).
Proof.
  intros Hn. destruct (JsMap.get k m) as [v0|] eqn:G.
  - now rewrite (set_present_keys _ _ _ _ G).
  - now apply NoDup_keys_set_absent.
Qed.

Lemma groupLoop_get (c : string) (l : list AssetEntity.t) :
  forall g,
    JsMap.get c (groupLoop l g)
    = match JsMap.get c g, filter (inChain c) l with
      | None, [] => None
      | None, x :: r => Some (x :: r)
      | Some l0, fl => Some (l0 ++ fl)
      end.
Proof.
  induction l as [|a l IH]; intros g; simpl.
  - destruct (JsMap.get c g); [now rewrite app_nil_r|reflexivity].
  - rewrite IH. fold (chainOf a).
    change (inChain c a) with (String.eqb (chainOf a) c).
    destruct (String.eqb (chainOf a) c) eqn:E.
    + apply String.eqb_eq in E. rewrite <- E, get_set_same.
      destruct (JsMap.get (chainOf a) g) as [l0|]; simpl.
      * now rewrite <- app_assoc.
      * reflexivity.
    + apply String.eqb_neq in E.
      rewrite get_set_other by congruence. reflexivity.
Qed.

Lemma groupLoop_NoDup (l : list AssetEntity.t) :
  forall g, NoDup (JsMap.keys g) -> NoDup (JsMap.keys (groupLoop l g)).
Proof.
  induction l as [|a l IH]; intros g Hn; simpl; [exact Hn|].
  apply IH. apply NoDup_keys_set. exact Hn.
Qed.

Lemma groupLoop_keys (l : list AssetEntity.t) :
  forall g k,
    In k (JsMap.keys (groupLoop l g))
    <-> In k (JsMap.keys g) \/ In k (map chainOf l).
Proof.
  induction l as [|a l IH]; intros g k; simpl; [intuition|].
  rewrite IH, keys_set. fold (chainOf a). intuition congruence.
Qed.


(** X24.  [groupByChain] files every asset under [chain || 'unknown']:
    the group of a chain holds exactly the assets of that chain, in
    portfolio order, and a chain without asset has no group; each chain
    has one group.  For a chain tag other than ["unknown"] the group is what
    [PortfolioAggregate.getAssetsByChain] returns. *)
Theorem X24_group_by_chain (p : PortfolioAggregate.t) (c : string) :
  JsMap.get c (groupByChain p)
  = match filter (inChain c) (PortfolioAggregate.assets p) with
    | [] => None
    | x :: r => Some (x :: r)
    end
  /\ NoDup (JsMap.keys (groupByChain p))
  /\ (forall a, In a (PortfolioAggregate.assets p) ->
                In (chainOf a) (JsMap.keys (groupByChain p)))
  /\ (c <> EmptyString -> c <> "unknown" ->
      filter (inChain c) (PortfolioAggregate.assets p)
      = PortfolioAggregate.getAssetsByChain p c).
Proof.
  unfold groupByChain. split; [|split; [|split]].
  - rewrite groupLoop_get. reflexivity.
  - apply groupLoop_NoDup. constructor.
  - intros a Ha. apply groupLoop_keys. right. now apply in_map.
  - intros Hne Hun. unfold PortfolioAggregate.getAssetsByChain.
    apply filter_ext. intros a. unfold inChain, chainOf.
    destruct (AssetEntity._chain a) as [[|ch s]|];
      unfold Js.or_lit, Js.strict_eq.
    + transitivity false; [|symmetry]; apply String.eqb_neq; congruence.
    + reflexivity.
    + apply String.eqb_neq. congruence.
Qed.





End ChainGroups.

(** ** Top holdings *)

Section TopHoldings.

Import PortfolioValuationService.










End TopHoldings.

(** ** The aggregation pipeline: addresses, prices, outcomes *)

Section Pipeline.

Import PortfolioAggregationService.

Lemma includes_In (l : list string) (x : string) :
  includes l x = true <-> In x l.
Proof.
  unfold includes. rewrite existsb_exists. split.
  - intros (y & Hy & E). apply String.eqb_eq in E. now subst.
  - intros H. exists x. split; [exact H|apply String.eqb_refl].
Qed.

Lemma unique_from (l : list string) :
  forall acc,
    NoDup acc ->
    NoDup (fold_left (fun acc x => if includes acc x then acc else acc ++ [x])
                     l acc)
    /\ forall x,
         In x (fold_left (fun acc x => if includes acc x then acc
                                       else acc ++ [x]) l acc)
         <-> In x acc \/ In x l.
Proof.
  induction l as [|y l IH]; simpl; intros acc Hn.
  - split; [exact Hn|]. intuition.
  - destruct (includes acc y) eqn:E.
    + apply includes_In in E. destruct (IH acc Hn) as (Hn' & Hin).
      split; [exact Hn'|]. intros x. rewrite Hin. intuition congruence.
    + assert (Hy : ~ In y acc).
      { intros F. apply includes_In in F. congruence. }
      assert (Hn1 : NoDup (acc ++ [y])).
      { apply NoDup_app; [exact Hn|repeat constructor; intros []|].
        intros z Hz [Ez|[]]. subst z. apply Hy. exact Hz. }
      destruct (IH _ Hn1) as (Hn' & Hin).
      split; [exact Hn'|]. intros x. rewrite Hin, in_app_iff. simpl.
      intuition.
Qed.

Lemma unique_spec (l : list string) :
  NoDup (unique l) /\ forall x, In x (unique l) <-> In x l.
Proof.
  destruct (unique_from l [] (NoDup_nil _)) as (Hn & Hin).
  split; [exact Hn|]. intros x. unfold unique. rewrite Hin. simpl. intuition.
Qed.

(** The address list handed to a provider holds no address twice.
    For the EVM provider it holds exactly the addresses registered under
    one of the chains ethereum, polygon, arbitrum, optimism, binance; for
    Solana exactly the addresses under ["solana"]; for the brokerage it is
    the one placeholder ["default"], whatever the address map holds. *)
Theorem relevant_addresses (addrs : JsMap.t (list string)) :
  (forall s, NoDup (getRelevantAddresses s addrs))
  /\ (forall x,
        In x (getRelevantAddresses EVM addrs)
        <-> exists chain l, In (chain, l) addrs
                            /\ In chain evmChains /\ In x l)
  /\ (forall x,
        In x (getRelevantAddresses SOLANA addrs)
        <-> exists l, JsMap.get "solana" addrs = Some l /\ In x l)
  /\ getRelevantAddresses ROBINHOOD addrs = ["default"].
Proof.
  split; [|split; [|split]].
  - intros s. unfold getRelevantAddresses. apply unique_spec.
  - intros x. unfold getRelevantAddresses.
    rewrite (proj2 (unique_spec _)), in_flat_map. split.
    + intros ([chain l] & Hin & Hx). cbn [fst snd] in Hx.
      destruct (includes evmChains chain) eqn:E; [|contradiction].
      exists chain, l. repeat split; try assumption.
      now apply includes_In.
    + intros (chain & l & Hin & Hc & Hx). exists (chain, l).
      split; [exact Hin|]. cbn [fst snd].
      apply includes_In in Hc. now rewrite Hc.
  - intros x. unfold getRelevantAddresses.
    rewrite (proj2 (unique_spec _)).
    destruct (JsMap.get "solana" addrs) as [l|]; split.
    + intros Hx. now exists l.
    + intros (l' & E & Hx). inversion E. now subst.
    + intros [].
    + intros (l' & E & _). discriminate E.
  - reflexivity.
Qed.

(** *** What each stage does to the outside *)

Lemma trace_fetchFromSource (this : t) (s : IntegrationSource)
    (addrs : JsMap.t (list string)) :
  Forall (fun e => isProviderCall e = true) (fst (fetchFromSource this s addrs)).
Proof.
  unfold fetchFromSource.
  destruct (integrationsGet s (integrations this)) as [i|]; [|constructor].
  destruct (isConnected i); simpl.
  - destruct (Nat.eqb _ 0); simpl; [constructor|].
    destruct (fetchAssets i _); simpl; repeat constructor.
  - destruct (connect i) as [[]|]; simpl; [|repeat constructor].
    destruct (Nat.eqb _ 0); simpl; [repeat constructor|].
    destruct (fetchAssets i _); simpl; repeat constructor.
Qed.

Lemma trace_allSettled (this : t) (l : list IntegrationSource)
    (addrs : JsMap.t (list string)) :
  Forall (fun e => isProviderCall e = true) (fst (allSettled this l addrs)).
Proof.
  induction l as [|s l IH]; [constructor|].
  rewrite allSettled_unfold. simpl. apply Forall_app.
  split; [apply trace_fetchFromSource|exact IH].
Qed.

Lemma trace_processResults (now : Z)
    (results : list (IntegrationSource * result (list AssetEntity.t))) :
  forall p, Forall (fun e => isConsole e = true)
                   (fst (processResults now results p)).
Proof.
  induction results as [|[s [assets|reason]] rest IH]; intros p; simpl.
  - constructor.
  - destruct (PortfolioAggregate.addAssets now _ assets) as [p2|];
      simpl; [|constructor].
    specialize (IH p2). destruct (processResults now rest p2). exact IH.
  - specialize (IH p). destruct (processResults now rest p).
    constructor; [reflexivity|exact IH].
Qed.

Lemma filter_none (f g : effect -> bool) (tr : list effect) :
  (forall e, g e = true -> f e = false) ->
  Forall (fun e => g e = true) tr -> filter f tr = [].
Proof.
  intros Hfg. induction 1 as [|e tr He _ IH]; simpl; [reflexivity|].
  now rewrite (Hfg e He).
Qed.

Lemma unique_nil (l : list string) : unique l = [] <-> l = [].
Proof.
  pose proof (proj2 (unique_spec l)) as Hin. split; intros E.
  - destruct l as [|x l]; [reflexivity|].
    exfalso. rewrite E in Hin. apply (Hin x). now left.
  - subst. reflexivity.
Qed.

Lemma symbols_applyPrices (prices : JsMap.t Price)
    (m : JsMap.t AssetEntity.t) :
  JsMap.values (applyPrices prices m) = map (repriced prices) (JsMap.values m)
  /\ map AssetEntity._symbol (JsMap.values (applyPrices prices m))
     = map AssetEntity._symbol (JsMap.values m).
Proof.
  unfold JsMap.values, applyPrices, repriced.
  split; rewrite !map_map; apply map_ext; intros [k a]; simpl;
    destruct (JsMap.get (AssetEntity._symbol a) prices); reflexivity.
Qed.

(** The three ways [enrichWithPrices] can go. *)
Lemma enrich_cases (this : t) (p : PortfolioAggregate.t) :
  let symbols := uniqueSymbols (PortfolioAggregate.assets p) in
  (PortfolioAggregate.assets p = [] /\ enrichWithPrices this p = ([], Ok p))
  \/ (PortfolioAggregate.assets p <> []
      /\ exists prices,
           getBatchPrices this symbols = Ok prices
           /\ enrichWithPrices this p
              = ([GetBatchPrices symbols],
                 Ok (PortfolioAggregate.mk
                       (PortfolioAggregate._id p)
                       (PortfolioAggregate._userId p)
                       (applyPrices prices (PortfolioAggregate._assets p))
                       (PortfolioAggregate._sources p)
                       (PortfolioAggregate._lastUpdated p))))
  \/ (PortfolioAggregate.assets p <> []
      /\ exists e,
           getBatchPrices this symbols = Throw e
           /\ enrichWithPrices this p
              = ([GetBatchPrices symbols;
                  ConsoleError "Failed to enrich with prices:"], Ok p)).
Proof.
  intros symbols. unfold enrichWithPrices. fold symbols.
  destruct symbols as [|x l] eqn:E.
  - left. split; [|reflexivity].
    unfold symbols, uniqueSymbols in E. apply (proj1 (unique_nil _)) in E.
    now apply map_eq_nil in E.
  - assert (Hne : PortfolioAggregate.assets p <> []).
    { intros F. unfold symbols, uniqueSymbols in E. rewrite F in E.
      discriminate E. }
    right. simpl. destruct (getBatchPrices this (x :: l)) as [prices|e].
    + left. split; [exact Hne|]. exists prices. split; reflexivity.
    + right. split; [exact Hne|]. exists e. split; reflexivity.
Qed.

(** X27.  Price enrichment in a call that goes on to fetch and completes.
    The valuator is asked at most once, after the reconciliation, for the
    symbols of the assets of the portfolio, each symbol once; it is not
    asked at all for an empty portfolio.  Every asset whose symbol the
    valuator's answer prices carries that price in the returned portfolio,
    whatever price its provider had given. *)
Theorem X27_price_enrichment (this : t) (options : AggregationOptions)
    (P : PortfolioAggregate.t) :
  missesCache this options ->
  snd (aggregatePortfolio this options) = Ok P ->
  let symbols := uniqueSymbols (PortfolioAggregate.assets P) in
  NoDup symbols
  /\ filter isPriceCall (fst (aggregatePortfolio this options))
     = match PortfolioAggregate.assets P with
       | [] => []
       | _ :: _ => [GetBatchPrices symbols]
       end
  /\ (forall prices a price,
        getBatchPrices this symbols = Ok prices ->
        In a (PortfolioAggregate.assets P) ->
        JsMap.get (AssetEntity._symbol a) prices = Some price ->
        AssetEntity._price a = Some price).
Proof.
  intros Hmiss HP symbols.
  split; [apply unique_spec|].
  rewrite (aggregatePortfolio_miss _ _ Hmiss) in *. simpl in HP.
  destruct (fresh_ok _ _ _ _ HP) as (p1 & p2 & H1 & H2 & H3 & Htr).
  simpl fst. rewrite Htr. rewrite !filter_app.
  assert (Hl : filter isPriceCall (lookup this options) = []).
  { unfold lookup. destruct (forceRefresh options); reflexivity. }
  rewrite Hl.
  rewrite (filter_none isPriceCall isProviderCall _)
    by (try apply trace_allSettled; intros []; simpl; congruence).
  rewrite (filter_none isPriceCall isConsole _)
    by (try apply trace_processResults; intros []; simpl; congruence).
  simpl. rewrite app_nil_r.
  destruct (enrich_cases this p2)
    as [(He & Hrun) | [(Hne & prices0 & Hg & Hrun) | (Hne & e & Hg & Hrun)]];
    rewrite Hrun in *; simpl in H3; inversion H3; subst P; clear H3.
  - rewrite He. split; [reflexivity|]. intros prices a price _ [].
  - assert (Hsym : symbols = uniqueSymbols (PortfolioAggregate.assets p2)).
    { unfold symbols, uniqueSymbols, PortfolioAggregate.assets. simpl.
      now rewrite (proj2 (symbols_applyPrices _ _)). }
    match goal with
    | |- context [PortfolioAggregate.assets ?q] =>
        assert (Hassets : PortfolioAggregate.assets q
                          = map (repriced prices0)
                                (PortfolioAggregate.assets p2))
          by apply (proj1 (symbols_applyPrices _ _))
    end.
    rewrite Hassets, Hsym. split.
    + destruct (PortfolioAggregate.assets p2); [contradiction|reflexivity].
    + intros prices a price Hp Hin Hget. rewrite Hg in Hp.
      inversion Hp. subst prices0.
      apply in_map_iff in Hin. destruct Hin as (a0 & <- & _).
      unfold repriced in *.
      destruct (JsMap.get (AssetEntity._symbol a0) prices) as [pr|] eqn:G.
      * simpl in Hget. rewrite G in Hget. inversion Hget. reflexivity.
      * rewrite G in Hget. discriminate Hget.
  - split.
    + destruct (PortfolioAggregate.assets p2); [contradiction|reflexivity].
    + intros prices a price Hp. unfold symbols in Hp. rewrite Hg in Hp.
      discriminate Hp.
Qed.

(** X27, witness: the valuator prices ETH at 2500 USD. *)
Lemma X27_price_enrichment_witness :
  exists P,
    snd (aggregatePortfolio pricedService demoOptions) = Ok P
    /\ filter isPriceCall (fst (aggregatePortfolio pricedService demoOptions))
       = [GetBatchPrices ["ETH"]]
    /\ map AssetEntity._price (PortfolioAggregate.assets P)
       = [Some (mkPrice 2500 "USD" 900 (Some "valuator"))].
Proof.
  destruct (snd (aggregatePortfolio pricedService demoOptions))
    as [P|msg] eqn:E; [|vm_compute in E; discriminate E].
  exists P. split; [reflexivity|].
  destruct (X27_price_enrichment pricedService demoOptions P)
    as (_ & Hcalls & _).
  - right. left. reflexivity.
  - exact E.
  - vm_compute in E. inversion E. subst P. split; [exact Hcalls|reflexivity].
Defined.

End Pipeline.

(** ** The aggregation pipeline: failures and refresh *)

Section PipelineOutcomes.

Import PortfolioAggregationService.

Lemma processResults_all_throw (now : Z) (p : PortfolioAggregate.t)
    (results : list (IntegrationSource * result (list AssetEntity.t))) :
  Forall (fun e => exists reason, snd e = Throw reason) results ->
  processResults now results p
  = (map (fun e => ConsoleError (failureLine (fst e))) results, Ok p).
Proof.
  induction 1 as [|[s r] rest (reason & Hr) _ IH]; simpl; [reflexivity|].
  simpl in Hr. subst r. rewrite IH. reflexivity.
Qed.

Lemma fetchFailures_lines (l : list IntegrationSource) (tr : list effect) :
  fetchFailures (map (fun s => ConsoleError (failureLine s)) l ++ tr)
  = map failureLine l ++ fetchFailures tr.
Proof.
  induction l as [|s l IH]; [reflexivity|].
  change (fetchFailures (ConsoleError (failureLine s)
                         :: (map (fun s => ConsoleError (failureLine s)) l
                             ++ tr))
          = failureLine s :: (map failureLine l ++ fetchFailures tr)).
  now rewrite fetchFailures_failureLine, IH.
Qed.

Lemma fetchFailures_lookup (this : t) (options : AggregationOptions) :
  fetchFailures (lookup this options) = [].
Proof. unfold lookup. destruct (forceRefresh options); reflexivity. Qed.

(** X28.  When every provider asked fails, a call that goes on to fetch
    still completes: provided the repository accepts it, the portfolio
    returned and saved is the empty one the call started from, without
    assets and without sources; each provider's failure is reported by one
    console line, in the order of the providers, and the valuator is not
    asked. *)
Theorem X28_all_providers_fail (this : t) (options : AggregationOptions) :
  missesCache this options ->
  (forall s, In s (sourcesToFetch this options) ->
     exists reason,
       snd (fetchFromSource this s (addresses options)) = Throw reason) ->
  save this (blankPortfolio this options) = Ok tt ->
  snd (aggregatePortfolio this options) = Ok (blankPortfolio this options)
  /\ fetchFailures (fst (aggregatePortfolio this options))
     = map failureLine (sourcesToFetch this options)
  /\ filter isPriceCall (fst (aggregatePortfolio this options)) = []
  /\ exists tr, fst (aggregatePortfolio this options)
                = tr ++ [Save (blankPortfolio this options)].
Proof.
  intros Hmiss Hfail Hsave.
  rewrite (aggregatePortfolio_miss _ _ Hmiss), aggregateFresh_eq.
  set (l := sourcesToFetch this options) in *.
  set (fetching := fst (allSettled this l (addresses options))).
  assert (Hres : processResults (nowAtBuild this)
                   (snd (allSettled this l (addresses options)))
                   (blankPortfolio this options)
                 = (map (fun s => ConsoleError (failureLine s)) l,
                    Ok (blankPortfolio this options))).
  { rewrite processResults_all_throw.
    - rewrite snd_allSettled, map_map. reflexivity.
    - rewrite snd_allSettled. apply Forall_forall. intros e He.
      apply in_map_iff in He. destruct He as (s & <- & Hs). simpl.
      apply Hfail. exact Hs. }
  unfold settle, blankPortfolio in *. fold (derivedId this options).
  rewrite Hres. simpl.
  unfold PortfolioAggregate.reconcile, enrichWithPrices, uniqueSymbols.
  simpl. rewrite Hsave. simpl.
  split; [reflexivity|]. split; [|split].
  - rewrite fetchFailures_app, fetchFailures_lookup. simpl.
    rewrite fetchFailures_app. unfold fetching.
    rewrite fetchFailures_allSettled. simpl.
    rewrite fetchFailures_lines. simpl. now rewrite app_nil_r.
  - rewrite !filter_app.
    assert (Hl : filter isPriceCall (lookup this options) = []).
    { unfold lookup. destruct (forceRefresh options); reflexivity. }
    rewrite Hl.
    rewrite (filter_none isPriceCall isProviderCall fetching)
      by (try apply trace_allSettled; intros []; simpl; congruence).
    simpl. rewrite app_nil_r.
    assert (Hlines : forall l0 : list IntegrationSource,
              filter isPriceCall
                (map (fun s => ConsoleError (failureLine s)) l0) = []).
    { induction l0 as [|s l0 IH]; [reflexivity|exact IH]. }
    apply Hlines.
  - eexists. rewrite !app_assoc. reflexivity.
Qed.

(** X28, witness: both providers of the scenario are down. *)
Lemma X28_all_providers_fail_witness :
  snd (aggregatePortfolio darkService demoOptions)
  = Ok (PortfolioAggregate.mk "portfolio_user123" (Some "user123") [] [] 1000)
  /\ fetchFailures (fst (aggregatePortfolio darkService demoOptions))
     = ["Failed to fetch from evm:"; "Failed to fetch from solana:"].
Proof.
  destruct (X28_all_providers_fail darkService demoOptions)
    as (Hrun & Hlines & _).
  - right. left. reflexivity.
  - intros s [<-|[<-|[]]]; eexists; reflexivity.
  - reflexivity.
  - split; [exact Hrun|exact Hlines].
Defined.

Lemma settle_throw (this : t) (p : PortfolioAggregate.t)
    (results : list (IntegrationSource * result (list AssetEntity.t)))
    (e : string) :
  snd (settle this p results) = Throw e ->
  exists tr, fst (settle this p results)
             = tr ++ [ConsoleError "Portfolio aggregation failed:"].
Proof.
  unfold settle, catch.
  match goal with
  | |- context [match ?body with _ => _ end] => destruct body as [tr [a|e']]
  end; simpl; [discriminate|].
  intros _. exists tr. reflexivity.
Qed.

(** X30.  How a call that goes on to fetch ends.  If it returns a
    portfolio, the repository has accepted exactly that portfolio, and
    saving it was the last thing the call did.  If it throws, the last thing
    it did was to log ["Portfolio aggregation failed:"]; a failure of
    [save] is thrown to the caller as it came. *)
Theorem X30_outcome (this : t) (options : AggregationOptions) :
  missesCache this options ->
  (forall P,
     snd (aggregatePortfolio this options) = Ok P ->
     save this P = Ok tt
     /\ exists tr, fst (aggregatePortfolio this options) = tr ++ [Save P])
  /\ (forall e,
        snd (aggregatePortfolio this options) = Throw e ->
        exists tr, fst (aggregatePortfolio this options)
                   = tr ++ [ConsoleError "Portfolio aggregation failed:"])
  /\ (forall p1 p2 p3 e,
        snd (processResults (nowAtBuild this)
               (snd (allSettled this (sourcesToFetch this options)
                       (addresses options)))
               (blankPortfolio this options)) = Ok p1 ->
        PortfolioAggregate.reconcile (nowAtBuild this) p1 = Ok p2 ->
        snd (enrichWithPrices this p2) = Ok p3 ->
        save this p3 = Throw e ->
        snd (aggregatePortfolio this options) = Throw e).
Proof.
  intros Hmiss. rewrite (aggregatePortfolio_miss _ _ Hmiss). simpl.
  split; [|split].
  - intros P HP. destruct (fresh_ok _ _ _ _ HP) as (p1 & p2 & H1 & H2 & H3 & Htr).
    split.
    + rewrite aggregateFresh_eq in HP. simpl in HP.
      destruct (settle this _ _) as [tr r] eqn:E. simpl in HP. subst r.
      pose proof (snd_settle this
                    (PortfolioAggregate.mk (derivedId this options)
                       (userId options) JsMap.empty [] (nowAtBuild this))
                    (snd (allSettled this (sourcesToFetch this options)
                            (addresses options)))) as Hs.
      rewrite E in Hs. simpl in Hs. rewrite H1 in Hs. simpl in Hs.
      rewrite H2 in Hs. simpl in Hs. rewrite H3 in Hs. simpl in Hs.
      destruct (save this P) as [[]|]; [reflexivity|discriminate Hs].
    + rewrite Htr. eexists. rewrite !app_assoc. reflexivity.
  - intros e He. rewrite aggregateFresh_eq in *. simpl in *.
    destruct (settle this _ _) as [tr r] eqn:E. simpl in *. subst r.
    destruct (settle_throw this _ _ e (f_equal snd E)) as (tr' & Htr).
    rewrite E in Htr. simpl in Htr. subst tr.
    eexists. rewrite !app_assoc. reflexivity.
  - intros p1 p2 p3 e H1 H2 H3 Hsave.
    rewrite aggregateFresh_eq. simpl.
    destruct (settle this _ _) as [tr r] eqn:E. simpl.
    pose proof (snd_settle this
                  (PortfolioAggregate.mk (derivedId this options)
                     (userId options) JsMap.empty [] (nowAtBuild this))
                  (snd (allSettled this (sourcesToFetch this options)
                          (addresses options)))) as Hs.
    rewrite E in Hs. simpl in Hs. unfold blankPortfolio in H1.
    rewrite H1 in Hs. simpl in Hs. rewrite H2 in Hs. simpl in Hs.
    rewrite H3 in Hs. simpl in Hs. rewrite Hsave in Hs. exact Hs.
Qed.

(** X30, witness: the repository refuses to save. *)
Lemma X30_outcome_witness :
  snd (aggregatePortfolio readOnlyService demoOptions) = Throw "quota exceeded"
  /\ exists tr, fst (aggregatePortfolio readOnlyService demoOptions)
                = tr ++ [ConsoleError "Portfolio aggregation failed:"].
Proof.
  destruct (X30_outcome readOnlyService demoOptions) as (_ & Hthrow & _).
  - right. left. reflexivity.
  - split; [reflexivity|]. apply (Hthrow "quota exceeded"). reflexivity.
Defined.

(** X26.  A valuator that does not answer never fails the call.  In a
    call that goes on to fetch, the outcome is then that of building,
    reconciling and saving alone: the portfolio returned is the reconciled
    one, with the prices the providers gave; when it has assets, the failure
    is reported on the console. *)
Theorem X26_valuator_failure (this : t) (options : AggregationOptions) :
  missesCache this options ->
  (forall symbols, exists e, getBatchPrices this symbols = Throw e) ->
  snd (aggregatePortfolio this options)
  = rbind (snd (processResults (nowAtBuild this)
                  (snd (allSettled this (sourcesToFetch this options)
                          (addresses options)))
                  (blankPortfolio this options))) (fun p1 =>
    rbind (PortfolioAggregate.reconcile (nowAtBuild this) p1) (fun p2 =>
    rbind (save this p2) (fun _ => Ok p2)))
  /\ (forall P,
        snd (aggregatePortfolio this options) = Ok P ->
        PortfolioAggregate.assets P <> [] ->
        In (ConsoleError "Failed to enrich with prices:")
           (fst (aggregatePortfolio this options))).
Proof.
  intros Hmiss Hdown.
  assert (Hen : forall p2,
            snd (enrichWithPrices this p2) = Ok p2
            /\ (PortfolioAggregate.assets p2 <> [] ->
                In (ConsoleError "Failed to enrich with prices:")
                   (fst (enrichWithPrices this p2)))).
  { intros p2.
    destruct (enrich_cases this p2)
      as [(He & Hrun) | [(Hne & prices & Hg & _) | (Hne & e & _ & Hrun)]].
    - rewrite Hrun. split; [reflexivity|]. intros F. contradiction.
    - destruct (Hdown (uniqueSymbols (PortfolioAggregate.assets p2)))
        as (e & He). congruence.
    - rewrite Hrun. split; [reflexivity|]. intros _. simpl. auto. }
  rewrite (aggregatePortfolio_miss _ _ Hmiss). simpl. split.
  - rewrite aggregateFresh_eq. simpl.
    destruct (settle this _ _) as [tr r] eqn:E. simpl.
    pose proof (snd_settle this
                  (PortfolioAggregate.mk (derivedId this options)
                     (userId options) JsMap.empty [] (nowAtBuild this))
                  (snd (allSettled this (sourcesToFetch this options)
                          (addresses options)))) as Hs.
    rewrite E in Hs. simpl in Hs. rewrite Hs. unfold blankPortfolio.
    destruct (snd (processResults _ _ _)) as [p1|]; simpl; [|reflexivity].
    destruct (PortfolioAggregate.reconcile _ p1) as [p2|]; simpl;
      [|reflexivity].
    rewrite (proj1 (Hen p2)). reflexivity.
  - intros P HP Hne.
    destruct (fresh_ok _ _ _ _ HP) as (p1 & p2 & H1 & H2 & H3 & Htr).
    rewrite Htr. rewrite (proj1 (Hen p2)) in H3. inversion H3. subst P.
    apply in_or_app. right. apply in_or_app. right.
    apply in_or_app. right. apply in_or_app. left.
    apply (proj2 (Hen p2)). exact Hne.
Qed.

(** X26, witness: the valuator of the scenario is down. *)
Lemma X26_valuator_failure_witness :
  exists P,
    snd (aggregatePortfolio unpricedService demoOptions) = Ok P
    /\ In (ConsoleError "Failed to enrich with prices:")
          (fst (aggregatePortfolio unpricedService demoOptions)).
Proof.
  destruct (snd (aggregatePortfolio unpricedService demoOptions))
    as [P|msg] eqn:E; [|vm_compute in E; discriminate E].
  exists P. split; [reflexivity|].
  destruct (X26_valuator_failure unpricedService demoOptions) as (_ & Hlog).
  - right. left. reflexivity.
  - intros symbols. eexists. reflexivity.
  - apply (Hlog P E). vm_compute in E. inversion E. discriminate.
Defined.

End PipelineOutcomes.

(** ** [refreshPortfolio] *)

Section RefreshLookup.

Import PortfolioAggregationService.

Lemma quiet_bind {A B : Type} (m : io A) (k : A -> io B) :
  Forall notLookup (fst m) ->
  (forall a, Forall notLookup (fst (k a))) ->
  Forall notLookup (fst (bind m k)).
Proof.
  intros Hm Hk. rewrite fst_bind. apply Forall_app. split; [exact Hm|].
  destruct (snd m); [apply Hk|constructor].
Qed.

Lemma quiet_enrich (this : t) (p : PortfolioAggregate.t) :
  Forall notLookup (fst (enrichWithPrices this p)).
Proof.
  destruct (enrich_cases this p)
    as [(_ & ->) | [(_ & prices & _ & ->) | (_ & e & _ & ->)]];
    simpl; repeat constructor.
Qed.

Lemma quiet_settle (this : t) (p : PortfolioAggregate.t)
    (results : list (IntegrationSource * result (list AssetEntity.t))) :
  Forall notLookup (fst (settle this p results)).
Proof.
  unfold settle. rewrite fst_catch. apply Forall_app. split.
  - apply quiet_bind.
    + eapply Forall_impl; [|apply trace_processResults].
      intros []; simpl; unfold notLookup; simpl; congruence.
    + intros p1. apply quiet_bind; [constructor|].
      intros p2. apply quiet_bind; [apply quiet_enrich|].
      intros p3. apply quiet_bind; [repeat constructor|].
      intros _. constructor.
  - match goal with |- context [match ?r with _ => _ end] => destruct r end;
      simpl; repeat constructor.
Qed.

Lemma quiet_aggregateFresh (this : t) (options : AggregationOptions)
    (id : string) :
  Forall notLookup (fst (aggregateFresh this options id)).
Proof.
  rewrite aggregateFresh_eq. apply quiet_bind.
  - simpl. eapply Forall_impl; [|apply trace_allSettled].
    intros []; simpl; unfold notLookup; simpl; congruence.
  - intros _. apply quiet_settle.
Qed.

Lemma filter_quiet (tr : list effect) :
  Forall notLookup tr -> filter isLookup tr = [].
Proof.
  induction 1 as [|e tr He _ IH]; [reflexivity|].
  simpl. unfold notLookup in He. now rewrite He.
Qed.

Lemma addAsset_ids (now : Z) (p p' : PortfolioAggregate.t)
    (a : AssetEntity.t) :
  PortfolioAggregate.addAsset now p a = Ok p' ->
  PortfolioAggregate._id p' = PortfolioAggregate._id p
  /\ PortfolioAggregate._userId p' = PortfolioAggregate._userId p.
Proof.
  unfold PortfolioAggregate.addAsset.
  destruct (PortfolioAggregate.findSimilarAsset p a) as [e|].
  - destruct (AssetEntity.merge e a); simpl; intros H; inversion H.
    split; reflexivity.
  - simpl. intros H. inversion H. split; reflexivity.
Qed.

Lemma addAssets_ids (now : Z) (l : list AssetEntity.t) :
  forall p p',
    PortfolioAggregate.addAssets now p l = Ok p' ->
    PortfolioAggregate._id p' = PortfolioAggregate._id p
    /\ PortfolioAggregate._userId p' = PortfolioAggregate._userId p.
Proof.
  induction l as [|a l IH]; simpl; intros p p' H.
  - inversion H. split; reflexivity.
  - destruct (PortfolioAggregate.addAsset now p a) as [p1|] eqn:E;
      simpl in H; [|discriminate].
    destruct (IH _ _ H) as (-> & ->). apply (addAsset_ids now p p1 a E).
Qed.

Lemma processResults_ids (now : Z)
    (results : list (IntegrationSource * result (list AssetEntity.t))) :
  forall p p',
    snd (processResults now results p) = Ok p' ->
    PortfolioAggregate._id p' = PortfolioAggregate._id p
    /\ PortfolioAggregate._userId p' = PortfolioAggregate._userId p.
Proof.
  induction results as [|[s [assets|e]] rest IH]; intros p p' H.
  - simpl in H. inversion H. split; reflexivity.
  - rewrite snd_processResults_cons_ok in H.
    destruct (PortfolioAggregate.addAssets now _ assets) as [p2|] eqn:E;
      simpl in H; [|discriminate].
    destruct (IH _ _ H) as (-> & ->).
    apply (addAssets_ids now assets _ p2 E).
  - rewrite snd_processResults_cons_throw in H. apply (IH _ _ H).
Qed.

Lemma reconcile_ids (now : Z) (p1 p2 : PortfolioAggregate.t) :
  PortfolioAggregate.reconcile now p1 = Ok p2 ->
  PortfolioAggregate._id p2 = PortfolioAggregate._id p1
  /\ PortfolioAggregate._userId p2 = PortfolioAggregate._userId p1.
Proof.
  unfold PortfolioAggregate.reconcile, PortfolioAggregate.assets.
  destruct (PortfolioAggregate.reconcileLoop _ JsMap.empty) as [m|];
    simpl; intros H; inversion H. auto.
Qed.

Lemma enrich_ids (this : t) (p2 p3 : PortfolioAggregate.t) :
  snd (enrichWithPrices this p2) = Ok p3 ->
  PortfolioAggregate._id p3 = PortfolioAggregate._id p2
  /\ PortfolioAggregate._userId p3 = PortfolioAggregate._userId p2.
Proof.
  destruct (enrich_cases this p2)
    as [(_ & ->) | [(_ & prices & _ & ->) | (_ & e & _ & ->)]];
    simpl; intros H; inversion H; auto.
Qed.

Lemma succeeded_incl
    (results : list (IntegrationSource * result (list AssetEntity.t)))
    (s : IntegrationSource) :
  In s (succeeded results) -> In s (map fst results).
Proof.
  unfold succeeded. rewrite in_flat_map. intros ([s' r] & Hin & Hs).
  simpl in Hs. destruct r as [assets|e]; [|contradiction].
  destruct Hs as [<-|[]].
  apply in_map_iff. exists (s', Ok assets). split; [reflexivity|exact Hin].
Qed.

(** X29.  [refreshPortfolio(id)] reads the repository once, whatever
    happens next.  When nothing is stored under [id] it does nothing else
    and throws ["Portfolio not found: " ++ id]; when the repository fails,
    that failure is thrown.  When a portfolio is stored under [id], a
    completed refresh returns a portfolio with the stored user, whose
    sources are among the stored sources, and whose id is derived anew from
    the stored user: it is [id] again only if the stored portfolio was
    filed under the id of its user. *)
Theorem X29_refresh_lookup (this : t) (portfolioId : string) :
  filter isLookup (fst (refreshPortfolio this portfolioId))
  = [FindById portfolioId]
  /\ (findById this portfolioId = Ok None ->
      refreshPortfolio this portfolioId
      = ([FindById portfolioId],
         Throw ("Portfolio not found: " ++ portfolioId)%string))
  /\ (forall e,
        findById this portfolioId = Throw e ->
        refreshPortfolio this portfolioId
        = ([FindById portfolioId], Throw e))
  /\ (forall existing P,
        findById this portfolioId = Ok (Some existing) ->
        snd (refreshPortfolio this portfolioId) = Ok P ->
        PortfolioAggregate._id P
        = generatePortfolioId (nowAtStart this)
            (PortfolioAggregate._userId existing)
        /\ PortfolioAggregate._userId P = PortfolioAggregate._userId existing
        /\ incl (PortfolioAggregate.sources P)
                (PortfolioAggregate.sources existing)).
Proof.
  split; [|split; [|split]].
  - unfold refreshPortfolio.
    destruct (findById this portfolioId) as [[existing|]|e];
      [|reflexivity|reflexivity].
    simpl. unfold aggregatePortfolio. simpl.
    destruct (aggregateFresh this (refreshOptions existing) _) as [tr r] eqn:E.
    simpl. f_equal. apply filter_quiet.
    change tr with (fst (tr, r)). rewrite <- E. apply quiet_aggregateFresh.
  - intros Hf. unfold refreshPortfolio. rewrite Hf. reflexivity.
  - intros e Hf. unfold refreshPortfolio. rewrite Hf. reflexivity.
  - intros existing P Hf HP. unfold refreshPortfolio in HP. rewrite Hf in HP.
    simpl in HP. unfold aggregatePortfolio in HP. simpl in HP.
    destruct (aggregateFresh this (refreshOptions existing) _) as [tr r] eqn:E.
    simpl in HP. subst r.
    destruct (fresh_ok this (refreshOptions existing) _ P (f_equal snd E))
      as (p1 & p2 & H1 & H2 & H3 & _).
    destruct (processResults_ids _ _ _ _ H1) as (Hi1 & Hu1).
    destruct (reconcile_ids _ _ _ H2) as (Hi2 & Hu2).
    destruct (enrich_ids _ _ _ H3) as (Hi3 & Hu3).
    split; [|split].
    + rewrite Hi3, Hi2, Hi1. reflexivity.
    + rewrite Hu3, Hu2, Hu1. reflexivity.
    + intros s Hs. unfold PortfolioAggregate.sources in Hs.
      rewrite (proj1 (enrich_ok _ _ _ H3)) in Hs.
      rewrite (proj1 (reconcile_ok _ _ _ H2)) in Hs.
      rewrite (processResults_sources _ _ _ _ H1) in Hs.
      apply in_fold_add in Hs. simpl in Hs. destruct Hs as [Hs|[]].
      apply succeeded_incl in Hs. rewrite snd_allSettled, map_map in Hs.
      simpl in Hs. rewrite map_id in Hs. exact Hs.
Qed.

End RefreshLookup.
